(** * toproxypdf: a shallow embedding of [src/toproxypdf/__main__.py]

    The program reads a folder of images, filters and resizes them
    ([list_files]), pastes them nine per page on white letter-sized canvases
    ([generate_images]) and saves the pages as one PDF (the [__main__] block).

    Python values are modelled as the program has them:
    - [int] is [Z] (unbounded);
    - [float] is IEEE-754 binary64, through the Standard Library's
      executable specification [SpecFloat] ([prec = 53], [emax = 1024]),
      with round-to-nearest-even;
    - [str] is [string], read as the UTF-8 encoding of the Python string
      (byte-wise lexicographic order is code-point order, and a prefix of
      code points is a prefix of bytes);
    - exceptions are an explicit error monad [result];
    - the file system and the Pillow library are an explicit [World] of
      oracles; paths are joined as [posixpath] does.

    The log messages, the [tqdm] progress bars and the summary that
    [parse_arguments] prints have no part in what the functions return and
    are left out: the functions are described for the runs in which these
    writes return, and in which [os.listdir] returns the entries of the
    folder. The rejection records are kept as the second list of
    [list_files_run]; the table that [list_files] prints from them, with
    prints that can raise, is [rejection_table]; the level given to
    [logging.basicConfig] is [basicConfig_level].

    The file has three parts: the program, the notions the statements use,
    and the proofs. The proofs about binary64 go from what [SpecFloat]
    computes on mantissas, to error bounds over the rationals, to the sizes
    and tables of the layout. *)

From Stdlib Require Import ZArith QArith Qpower List String Ascii Bool Lia Lqa.
From Stdlib Require Import Permutation Sorted.
From Stdlib Require Import SpecFloat.
Import ListNotations.

Local Open Scope string_scope.
Local Open Scope list_scope.
Local Open Scope Z_scope.

(* ===================================================================== *)
(** * Exceptions *)
(* ===================================================================== *)

(** The exception classes the program can meet. All of them derive from
    Python's [Exception], so that [except Exception] catches each. *)
Inductive exception : Type :=
| OverflowError
| ValueError
| IndexError
| OSError
| MemoryError
| UnicodeEncodeError
| UnidentifiedImageError
| FileExistsError (msg : string)
| FileNotFoundError (msg : string).

Inductive result (A : Type) : Type :=
| OK (a : A)
| Raise (e : exception).
Arguments OK {A} a.
Arguments Raise {A} e.

Definition bind {A B : Type} (c : result A) (k : A -> result B) : result B :=
  match c with
  | OK a => k a
  | Raise e => Raise e
  end.

(** [try: c except Exception: h] *)
Definition try_except {A : Type} (c : result A) (h : exception -> result A)
  : result A :=
  match c with
  | OK a => OK a
  | Raise e => h e
  end.

Declare Scope py_scope.
Delimit Scope py_scope with py.
Notation "x <- c ;; k" := (bind c (fun x => k))
  (at level 61, c at next level, right associativity) : py_scope.
Notation "' pat <- c ;; k" := (bind c (fun x => match x with pat => k end))
  (at level 61, pat pattern, c at next level, right associativity) : py_scope.
Local Open Scope py_scope.

(* ===================================================================== *)
(** * Python floats *)
(* ===================================================================== *)

Module PyFloat.

Definition prec : Z := 53.
Definition emax : Z := 1024.

Definition float : Type := spec_float.

(** [float(n)] for an [int] n, as CPython's [PyLong_AsDouble]: the nearest
    double, ties to even; "int too large to convert to float" when that
    is not finite. *)
Definition of_int (n : Z) : result float :=
  match binary_normalize prec emax n 0 false with
  | S754_infinity _ => Raise OverflowError
  | f => OK f
  end.

(** A decimal literal [digits / 10^scale], e.g. [.01] is [literal 1 2]:
    the nearest double to the decimal number, which the correctly rounded
    quotient of two exactly representable integers gives. *)
Definition literal (digits : Z) (scale : Z) : float :=
  SFdiv prec emax (binary_normalize prec emax digits 0 false)
                  (binary_normalize prec emax (10 ^ scale) 0 false).

Definition mul : float -> float -> float := SFmul prec emax.
Definition add : float -> float -> float := SFadd prec emax.

(** The magnitude of a finite float, cut to an integer toward zero. *)
Definition magnitude_trunc (m : positive) (e : Z) : Z :=
  match e with
  | Z0 => Zpos m
  | Zpos _ => Zpos m * 2 ^ e
  | Zneg p => Zpos m / 2 ^ Zpos p
  end.

(** [int(x)] for a float x: truncation toward zero. *)
Definition to_int (x : float) : result Z :=
  match x with
  | S754_zero _ => OK 0
  | S754_finite s m e => OK (cond_Zopp s (magnitude_trunc m e))
  | S754_infinity _ => Raise OverflowError
  | S754_nan => Raise ValueError
  end.

(** [m / 2^n] rounded to the nearest integer, a tie going to the even
    one. *)
Definition rne_shift (m n : Z) : Z :=
  let q := m / 2 ^ n in
  let r := m mod 2 ^ n in
  match 2 * r ?= 2 ^ n with
  | Lt => q
  | Gt => q + 1
  | Eq => if Z.even q then q else q + 1
  end.

(** The magnitude of a finite float, rounded to the nearest integer, a
    tie going to the even one. *)
Definition magnitude_round (m : positive) (e : Z) : Z :=
  match e with
  | Z0 => Zpos m
  | Zpos _ => Zpos m * 2 ^ e
  | Zneg p => rne_shift (Zpos m) (Zpos p)
  end.

(** [round(x)] for a float x and no [ndigits]: [float.__round__], round
    half to even, to an [int]. *)
Definition round (x : float) : result Z :=
  match x with
  | S754_zero _ => OK 0
  | S754_finite s m e => OK (cond_Zopp s (magnitude_round m e))
  | S754_infinity _ => Raise OverflowError
  | S754_nan => Raise ValueError
  end.

(** [c * n] for a float c and an int n: n is converted first. *)
Definition mul_int (c : float) (n : Z) : result float :=
  f <- of_int n ;; OK (mul c f).

(** [x + n] for a float x and an int n. *)
Definition add_int (x : float) (n : Z) : result float :=
  f <- of_int n ;; OK (add x f).

End PyFloat.

(* ===================================================================== *)
(** * The geometry of [list_files] and [generate_images] *)
(* ===================================================================== *)

Import PyFloat.

(** The float literals of the source. *)
Definition f_2_5 : float := literal 25 1.
Definition f_3_5 : float := literal 35 1.
Definition f_8_5 : float := literal 85 1.
Definition f_0_5 : float := literal 5 1.
Definition f_5_5 : float := literal 55 1.
Definition f_0_25 : float := literal 25 2.
Definition f_3_75 : float := literal 375 2.
Definition f_7_25 : float := literal 725 2.
Definition f_0_01 : float := literal 1 2.
Definition f_0_02 : float := literal 2 2.

(** [(int(2.5 * dpi), int(3.5 * dpi))], the argument of [img.resize]. *)
Definition cell_size (dpi : Z) : result (Z * Z) :=
  w <- (x <- mul_int f_2_5 dpi ;; to_int x) ;;
  h <- (x <- mul_int f_3_5 dpi ;; to_int x) ;;
  OK (w, h).

(** [(int(8.5 * dpi), int(11 * dpi))], the size given to [Image.new];
    [11 * dpi] is a product of two ints. *)
Definition page_size (dpi : Z) : result (Z * Z) :=
  w <- (x <- mul_int f_8_5 dpi ;; to_int x) ;;
  OK (w, 11 * dpi).

(** [round(.01 * dpi)] and [round(.02 * dpi)]. *)
Definition gap1 (dpi : Z) : result Z := x <- mul_int f_0_01 dpi ;; round x.
Definition gap2 (dpi : Z) : result Z := x <- mul_int f_0_02 dpi ;; round x.

(** [xcords]; the middle entry is all in ints: [3 * dpi] is an int product,
    [round] returns an int, and [int] of an int is that int. *)
Definition xcords (dpi : Z) : result (list Z) :=
  x0 <- (x <- mul_int f_0_5 dpi ;; to_int x) ;;
  x1 <- (r <- gap1 dpi ;; OK (3 * dpi + r)) ;;
  x2 <- (a <- mul_int f_5_5 dpi ;; r <- gap2 dpi ;;
         s <- add_int a r ;; to_int s) ;;
  OK [x0; x1; x2].

Definition ycords (dpi : Z) : result (list Z) :=
  y0 <- (x <- mul_int f_0_25 dpi ;; to_int x) ;;
  y1 <- (a <- mul_int f_3_75 dpi ;; r <- gap1 dpi ;;
         s <- add_int a r ;; to_int s) ;;
  y2 <- (a <- mul_int f_7_25 dpi ;; r <- gap2 dpi ;;
         s <- add_int a r ;; to_int s) ;;
  OK [y0; y1; y2].

(* ===================================================================== *)
(** * Strings, paths and lists as Python has them *)
(* ===================================================================== *)

(** [s.startswith(p)] *)
Definition startswith (s p : string) : bool := String.prefix p s.

Fixpoint string_rev (s : string) : string :=
  match s with
  | EmptyString => EmptyString
  | String c s' => (string_rev s' ++ String c EmptyString)%string
  end.

(** [s.endswith(p)] *)
Definition endswith (s p : string) : bool :=
  String.prefix (string_rev p) (string_rev s).

(** [os.path.join(a, b)] of [posixpath]. *)
Definition path_join (a b : string) : string :=
  if startswith b "/" then b
  else if (a =? "")%string || endswith a "/" then (a ++ b)%string
  else (a ++ "/" ++ b)%string.

(** [sorted(l)] for a list of [str]: the strings in ascending order. The
    order on [str] is total and antisymmetric, so the sorted list is unique
    and insertion sort computes it. *)
Fixpoint insert_sorted (x : string) (l : list string) : list string :=
  match l with
  | [] => [x]
  | y :: l' => if (x <=? y)%string then x :: l else y :: insert_sorted x l'
  end.

Definition sorted (l : list string) : list string :=
  fold_right insert_sorted [] l.

(** [any(p(x) for x in l)] *)
Definition any {A : Type} (p : A -> bool) (l : list A) : bool := existsb p l.

(** [l[i]] for an int i; negative indices count from the end. *)
Definition getitem {A : Type} (l : list A) (i : Z) : result A :=
  let n := Z.of_nat (List.length l) in
  let j := if i <? 0 then i + n else i in
  if (j <? 0) || (n <=? j) then Raise IndexError
  else match nth_error l (Z.to_nat j) with
       | Some a => OK a
       | None => Raise IndexError
       end.

(** [l[i] = v] as a functional update. *)
Fixpoint set_nth {A : Type} (l : list A) (i : nat) (v : A) : list A :=
  match l, i with
  | [], _ => []
  | _ :: l', O => v :: l'
  | a :: l', S i' => a :: set_nth l' i' v
  end.

(** [range(n)] *)
Definition range (n : Z) : list Z := map Z.of_nat (seq 0 (Z.to_nat n)).

(** [for x in l: st = body(x, st)], stopping at the first exception. *)
Fixpoint for_each {A S : Type} (body : A -> S -> result S) (l : list A) (st : S)
  : result S :=
  match l with
  | [] => OK st
  | x :: l' => st' <- body x st ;; for_each body l' st'
  end.

(* ===================================================================== *)
(** * The world outside: file system and Pillow *)
(* ===================================================================== *)

(** A decoded image: the file its pixels come from and its pixel size. *)
Record Image : Type := { im_file : string; im_size : Z * Z }.

(** A page canvas: an image made by [Image.new], with the pastes it
    received, oldest first, each with the top-left corner [(x, y)]. *)
Record Canvas : Type := {
  cv_mode : string;
  cv_size : Z * Z;
  cv_color : string;
  cv_pasted : list (Image * (Z * Z))
}.

(** What was handed to [save]: the pages in order, the path and the
    resolution. *)
Record Document : Type := {
  doc_path : string;
  doc_resolution : Z;
  doc_pages : list Canvas
}.

Record World : Type := {
  listdir : string -> list string;              (* os.listdir *)
  isfile : string -> bool;                      (* os.path.isfile *)
  isdir : string -> bool;                       (* os.path.isdir *)
  Image_open : string -> result Image;          (* PIL.Image.open *)
  Image_verify : Image -> result unit;          (* img.verify() *)
  Image_resize : Image -> Z * Z -> result Image;(* img.resize(size) *)
  Image_storage : Z -> string -> Z * Z -> result unit;
                                          (* the pixels of an Image.new *)
  Image_save : Document -> result unit          (* pages[0].save(...) *)
}.

(** What the program relies on from Pillow's [resize]: the result has the
    size asked for, whatever the size of the image it is called on. *)
Definition resize_gives_size (w : World) : Prop :=
  forall img sz img', Image_resize w img sz = OK img' -> im_size img' = sz.

(** Pillow's [resize] refuses a size with a side below one pixel
    ("height and width must be > 0"). *)
Definition resize_refuses_empty (w : World) : Prop :=
  forall img sz, fst sz < 1 \/ snd sz < 1 ->
    exists e, Image_resize w img sz = Raise e.

(** The largest C [int]: Pillow's core takes the two sides of a size as C
    ints. *)
Definition INT_MAX : Z := 2147483647.

(** [Image.new(mode, size, color=color)], for the i-th image that the
    program makes: Pillow refuses a negative side ([ValueError], in
    [_check_size]); its core refuses a side that is no C int
    ([OverflowError]); then the storage of the pixels has to be had, which
    the world decides, call by call ([MemoryError] when it gives out). The
    image returned has the mode and the size asked for and is filled with
    the colour. *)
Definition Image_new (w : World) (i : Z) (mode : string) (size : Z * Z)
    (color : string) : result Canvas :=
  if (fst size <? 0) || (snd size <? 0) then Raise ValueError
  else if (INT_MAX <? fst size) || (INT_MAX <? snd size) then
    Raise OverflowError
  else
    _ <- Image_storage w i mode size ;;
    OK {| cv_mode := mode; cv_size := size; cv_color := color;
          cv_pasted := [] |}.

(** [canvas.paste(img, (x, y))] *)
Definition paste (canvas : Canvas) (img : Image) (xy : Z * Z) : Canvas :=
  {| cv_mode := cv_mode canvas; cv_size := cv_size canvas;
     cv_color := cv_color canvas;
     cv_pasted := cv_pasted canvas ++ [(img, xy)] |}.

(* ===================================================================== *)
(** * The program *)
(* ===================================================================== *)

(** The dict that [parse_arguments] returns. *)
Record arguments : Type := {
  folder : string;
  output : string;
  excluded : list string;
  dpi : Z;
  verb : Z
}.

(** What [parser.parse_args()] returns. *)
Record Namespace : Type := {
  ns_folder : string;
  ns_output : option string;
  ns_excluded : list string;
  ns_dpi : Z;
  ns_verbose : bool;
  ns_quiet : bool
}.

(** A rejection record is a pair [(files, reason)] of two [str]. *)

Section Program.

(** [str.lower] *)
Variable lower : string -> string.
Variable w : World.

(** [parse_arguments], from [args = parser.parse_args()] on. *)
Definition parse_arguments (args : Namespace) : result arguments :=
  let o :=
    match ns_output args with
    | None => "output.pdf"
    | Some out => if endswith out ".pdf" then out else (out ++ ".pdf")%string
    end in
  if isfile w o then
    Raise (FileExistsError "Attempted output file already exists")
  else
    let a := {| folder := ns_folder args;
                output := o;
                excluded := ns_excluded args;
                dpi := ns_dpi args;
                verb := if ns_quiet args then 0
                        else if ns_verbose args then 2 else 1 |} in
    if negb (isdir w (folder a)) then
      Raise (FileNotFoundError ("'" ++ folder a ++ "' is not a folder.")%string)
    else OK a.

(** The body of the [try] in [list_files]: open, verify, open again and
    resize; the size tuple is computed before [resize] is called. *)
Definition load_image (args : arguments) (fn : string) : result Image :=
  img <- Image_open w fn ;;
  _ <- Image_verify w img ;;
  img <- Image_open w fn ;;
  sz <- cell_size (dpi args) ;;
  Image_resize w img sz.

(** One round of the [for files in iterable] loop of [list_files], on the
    state [(allfiles, excluded_files)]. *)
Definition list_files_step (args : arguments) (files : string)
    (st : list Image * list (string * string))
  : result (list Image * list (string * string)) :=
  let '(allfiles, excluded_files) := st in
  let fn := path_join (folder args) files in
  if any (fun i => startswith (lower files) i) (excluded args) then
    OK (allfiles, excluded_files ++ [(files, "is in excluded list")])
  else if negb (isfile w fn) then
    OK (allfiles, excluded_files ++ [(files, "is not a file")])
  else
    try_except
      (img <- load_image args fn ;;
       OK (allfiles ++ [img], excluded_files))
      (fun e => OK (allfiles, excluded_files ++ [(files, "is not a valid image")])).

(** [list_files], with both lists: [allfiles], which it returns, and
    [excluded_files], which it prints as a table. *)
Definition list_files_run (args : arguments)
  : result (list Image * list (string * string)) :=
  for_each (list_files_step args) (sorted (listdir w (folder args))) ([], []).

Definition list_files (args : arguments) : result (list Image) :=
  st <- list_files_run args ;; OK (fst st).

(** The element of the list comprehension of [generate_images], for the
    [i] of its range:
    [Image.new("RGB", (int(8.5 * dpi), int(11 * dpi)), color="white")]. *)
Definition new_background (args : arguments) (i : Z) : result Canvas :=
  sz <- page_size (dpi args) ;;
  Image_new w i "RGB" sz "white".

(** The list comprehension: one [Image.new] per element of the range,
    its size computed at each round. *)
Definition new_backgrounds (args : arguments) (n : Z) : result (list Canvas) :=
  for_each
    (fun (i : Z) acc => c <- new_background args i ;; OK (acc ++ [c]))
    (range n) [].

(** One round of the pasting loop. *)
Definition paste_step (fileslist : list Image) (xs ys : list Z) (i : Z)
    (backgrounds : list Canvas) : result (list Canvas) :=
  x <- getitem xs (i mod 3) ;;
  y <- getitem ys ((i mod 9) / 3) ;;
  bg <- getitem backgrounds (i / 9) ;;
  img <- getitem fileslist i ;;
  OK (set_nth backgrounds (Z.to_nat (i / 9)) (paste bg img (x, y))).

Definition generate_images (fileslist : list Image) (args : arguments)
  : result (list Canvas) :=
  let len := Z.of_nat (List.length fileslist) in
  backgrounds <- new_backgrounds args (- (- len / 9)) ;;
  xs <- xcords (dpi args) ;;
  ys <- ycords (dpi args) ;;
  for_each (paste_step fileslist xs ys) (range len) backgrounds.

(** The saving step of the [__main__] block:
    [generated_images[0].save(output, resolution=dpi, save_all=True,
     append_images=generated_images[1:])]. *)
Definition save_document (generated_images : list Canvas) (args : arguments)
  : result Document :=
  first <- getitem generated_images 0 ;;
  let doc := {| doc_path := output args;
                doc_resolution := dpi args;
                doc_pages := first :: tl generated_images |} in
  _ <- Image_save w doc ;;
  OK doc.

(** The [__main__] block; [OK doc] when [doc] was written. *)
Definition main (ns : Namespace) : result Document :=
  args <- parse_arguments ns ;;
  files_to_load <- list_files args ;;
  generated_images <- generate_images files_to_load args ;;
  save_document generated_images args.

End Program.

(* ===================================================================== *)
(** * A concrete world: the scenario of the specification *)
(* ===================================================================== *)

Module Scenario.

(** [str.lower] on ASCII strings. *)
Definition lower_ascii (c : ascii) : ascii :=
  let n := N_of_ascii c in
  if (65 <=? n)%N && (n <=? 90)%N then ascii_of_N (n + 32) else c.

Fixpoint lower (s : string) : string :=
  match s with
  | EmptyString => EmptyString
  | String c s' => String (lower_ascii c) (lower s')
  end.

(** [resize] on the machine of the scenario: Pillow's checks of the size
    (a side below one pixel, a side that is no C int), and storage for
    every size that passes them. *)
Definition resize (img : Image) (sz : Z * Z) : result Image :=
  if (fst sz <? 1) || (snd sz <? 1) then Raise ValueError
  else if (INT_MAX <? fst sz) || (INT_MAX <? snd sz) then Raise OverflowError
  else OK {| im_file := im_file img; im_size := sz |}.

(** A folder [cards] with [a.png] (valid, 100x100), [b.txt] (not an
    image), [b.png] (corrupt bytes), [c.jpg] (valid) and a sub-folder
    [old]. *)
Definition world : World := {|
  listdir := fun d =>
    if (d =? "cards")%string then ["c.jpg"; "b.txt"; "old"; "a.png"; "b.png"]
    else [];
  isfile := fun p =>
    existsb (String.eqb p)
      ["cards/a.png"; "cards/b.txt"; "cards/b.png"; "cards/c.jpg"];
  isdir := fun p => existsb (String.eqb p) ["cards"; "cards/old"];
  Image_open := fun fn =>
    if (fn =? "cards/a.png")%string then
      OK {| im_file := fn; im_size := (100, 100) |}
    else if (fn =? "cards/c.jpg")%string then
      OK {| im_file := fn; im_size := (640, 480) |}
    else if (fn =? "cards/b.png")%string then
      OK {| im_file := fn; im_size := (10, 10) |}
    else Raise UnidentifiedImageError;
  Image_verify := fun img =>
    if (im_file img =? "cards/b.png")%string then Raise OSError else OK tt;
  Image_resize := resize;
  Image_storage := fun _ _ _ => OK tt;
  Image_save := fun _ => OK tt
|}.

Definition args (d : Z) : arguments :=
  {| folder := "cards"; output := "output.pdf"; excluded := [];
     dpi := d; verb := 1 |}.

Definition a_png : Image := {| im_file := "cards/a.png"; im_size := (250, 350) |}.
Definition c_jpg : Image := {| im_file := "cards/c.jpg"; im_size := (250, 350) |}.

End Scenario.

(* ===================================================================== *)
(** * Specification-side notions used by the theorems *)
(* ===================================================================== *)

(** The order of [sorted]: [a <= b] on [str]. *)
Definition str_le (a b : string) : Prop := (a <=? b)%string = true.

(** What the loop body of [list_files] decides for one directory entry,
    read off its three tests in their order. *)
Inductive verdict : Type :=
| Accepted (img : Image)
| Rejected (reason : string).

Definition entry_verdict (lower : string -> string) (w : World)
    (args : arguments) (files : string) : verdict :=
  let fn := path_join (folder args) files in
  if any (fun i => startswith (lower files) i) (excluded args) then
    Rejected "is in excluded list"
  else if negb (isfile w fn) then Rejected "is not a file"
  else match load_image w args fn with
       | OK img => Accepted img
       | Raise _ => Rejected "is not a valid image"
       end.

Definition accepted_of (v : verdict) : list Image :=
  match v with Accepted img => [img] | Rejected _ => [] end.

Definition rejected_of (files : string) (v : verdict) : list (string * string) :=
  match v with Accepted _ => [] | Rejected reason => [(files, reason)] end.

Definition is_accepted (v : verdict) : bool :=
  match v with Accepted _ => true | Rejected _ => false end.

(** The three reasons of a rejection record. *)
Definition reasons : list string :=
  ["is in excluded list"; "is not a file"; "is not a valid image"].

(** The namespace with another [--dpi]. *)
Definition with_dpi (ns : Namespace) (d : Z) : Namespace :=
  {| ns_folder := ns_folder ns; ns_output := ns_output ns;
     ns_excluded := ns_excluded ns; ns_dpi := d;
     ns_verbose := ns_verbose ns; ns_quiet := ns_quiet ns |}.

Module CaseScenario.

(** A folder [scans] whose only entry is the valid image
    [IMG_skip.png]. *)
Definition world : World := {|
  listdir := fun d => if (d =? "scans")%string then ["IMG_skip.png"] else [];
  isfile := fun p => (p =? "scans/IMG_skip.png")%string;
  isdir := fun p => (p =? "scans")%string;
  Image_open := fun fn =>
    if (fn =? "scans/IMG_skip.png")%string then
      OK {| im_file := fn; im_size := (300, 200) |}
    else Raise UnidentifiedImageError;
  Image_verify := fun _ => OK tt;
  Image_resize := Scenario.resize;
  Image_storage := fun _ _ _ => OK tt;
  Image_save := fun _ => OK tt
|}.

Definition args (prefixes : list string) : arguments :=
  {| folder := "scans"; output := "output.pdf"; excluded := prefixes;
     dpi := 1000; verb := 1 |}.

Definition img : Image :=
  {| im_file := "scans/IMG_skip.png"; im_size := (2500, 3500) |}.

End CaseScenario.

Module SmallMachine.

(** The folder of the scenario on a machine where the pixels of an image,
    four bytes each, cannot be had beyond [2^30] bytes: [resize] and
    [Image.new] raise [MemoryError] there. *)
Definition storage (sz : Z * Z) : result unit :=
  if 2 ^ 30 <? 4 * (fst sz * snd sz) then Raise MemoryError else OK tt.

Definition resize (img : Image) (sz : Z * Z) : result Image :=
  img' <- Scenario.resize img sz ;; _ <- storage sz ;; OK img'.

Definition world : World := {|
  listdir := listdir Scenario.world;
  isfile := isfile Scenario.world;
  isdir := isdir Scenario.world;
  Image_open := Image_open Scenario.world;
  Image_verify := Image_verify Scenario.world;
  Image_resize := resize;
  Image_storage := fun _ _ sz => storage sz;
  Image_save := Image_save Scenario.world
|}.

Definition a_png : Image :=
  {| im_file := "cards/a.png"; im_size := (5000, 7000) |}.
Definition c_jpg : Image :=
  {| im_file := "cards/c.jpg"; im_size := (5000, 7000) |}.

End SmallMachine.

(** [ceil(n / 9)] for a natural number n. *)
Definition pages_needed (n : nat) : nat := ((n + 8) / 9)%nat.

(** A page as [Image.new] makes it, and a page with its pastes. *)
Definition page_with (sz : Z * Z) (pasted : list (Image * (Z * Z))) : Canvas :=
  {| cv_mode := "RGB"; cv_size := sz; cv_color := "white"; cv_pasted := pasted |}.

Definition blank_page (sz : Z * Z) : Canvas := page_with sz [].

(** The corner of cell j (0 to 8) of a page: column [j mod 3], row
    [j div 3]; and the nine corners in cell order. *)
Definition cell_position (xs ys : list Z) (j : nat) : Z * Z :=
  (nth (j mod 3) xs 0, nth (j / 3) ys 0).

Definition cells (xs ys : list Z) : list (Z * Z) :=
  map (cell_position xs ys) (seq 0 9).

(** What page p holds in the end: the images from index [9 * p] on, each
    with the corner of its cell, nine at most. *)
Definition page_content (fileslist : list Image) (xs ys : list Z) (p : nat)
  : list (Image * (Z * Z)) :=
  combine (skipn (9 * p) fileslist) (cells xs ys).

(** The pages after the first k rounds of the pasting loop. *)
Definition pages_after (fileslist : list Image) (sz : Z * Z) (xs ys : list Z)
    (k : nat) : list Canvas :=
  map (fun p => page_with sz (firstn (k - 9 * p) (page_content fileslist xs ys p)))
      (seq 0 (pages_needed (List.length fileslist))).

(** The record that [shr] reaches after n one-bit shifts of the mantissa m:
    the quotient, the last bit shifted out, and whether anything below it
    was set. *)
Definition shr_state (m n : Z) : shr_record :=
  if n =? 0 then Build_shr_record m false false
  else Build_shr_record (m / 2 ^ n) (Z.odd (m / 2 ^ (n - 1)))
         (negb (m mod 2 ^ (n - 1) =? 0)).

(** The rational number that a finite float stands for. *)
Definition F2Q (f : float) : Q :=
  match f with
  | S754_finite s m e =>
      ((if s then -1 else 1) * inject_Z (Zpos m) * Qpower 2 e)%Q
  | _ => 0%Q
  end.

(** The unit round-off of binary64, [2^-53]. *)
Definition u53 : Q := (1 # 9007199254740992)%Q.

(** A positive normal float: sign plus, a mantissa of exactly 53 bits. *)
Definition pos_float (f : float) (m : positive) (e : Z) : Prop :=
  f = S754_finite false m e /\ 2 ^ 52 <= Zpos m < 2 ^ 53.

(** [rounds_to x f lo]: f is what rounding the positive rational x to
    binary64 gives: plus infinity, which needs [x >= 2^1023], or a positive
    normal float within the relative error [2^-53] of x, of exponent at
    least [lo]. *)
Definition rounds_to (x : Q) (f : float) (lo : Z) : Prop :=
  (f = S754_infinity false /\ (Qpower 2 1023 <= x)%Q) \/
  (exists m e, pos_float f m e /\ lo <= e <= 971 /\
     (x * (1 - u53) <= F2Q f <= x * (1 + u53))%Q).

(** [near lo hi f e0]: the float f, computed for a positive quantity known
    to lie below [hi], either overflowed to plus infinity, which needs
    [hi >= 2^1023], or is a positive normal float in [[lo, hi]], of
    exponent at least [e0]. *)
Definition near (lo hi : Q) (f : float) (e0 : Z) : Prop :=
  (f = S754_infinity false /\ (inject_Z (2 ^ 1023) <= hi)%Q) \/
  (exists m e, pos_float f m e /\ e0 <= e <= 971 /\ (lo <= F2Q f <= hi)%Q).

(** Where the results of the three shapes of arithmetic lie, with
    [N = dpi] and [u = 2^-53]: [int(c * dpi)], [round(c * dpi)] and
    [int(c * dpi + r)]. *)
Definition within_times (vc : Q) (n z : Z) : Prop :=
  (vc * (inject_Z n * (1 - u53)) * (1 - u53) - 1 < inject_Z z /\
   inject_Z z <= vc * (inject_Z n * (1 + u53)) * (1 + u53))%Q.

Definition within_round (vc : Q) (n z : Z) : Prop :=
  (vc * (inject_Z n * (1 - u53)) * (1 - u53) - (1 # 2) <= inject_Z z /\
   inject_Z z <= vc * (inject_Z n * (1 + u53)) * (1 + u53) + (1 # 2))%Q.

Definition within_times_plus (vc : Q) (n r z : Z) : Prop :=
  ((vc * (inject_Z n * (1 - u53)) * (1 - u53) + inject_Z r * (1 - u53))
     * (1 - u53) - 1 < inject_Z z /\
   inject_Z z <=
   (vc * (inject_Z n * (1 + u53)) * (1 + u53) + inject_Z r * (1 + u53))
     * (1 + u53))%Q.

(** The numbers of a layout and where they lie. *)
Record layout_of (n : Z) (wd ht x0 r1 r2 x2 y0 y1 y2 : Z) : Prop := {
  lay_cell : cell_size n = OK (wd, ht);
  lay_gap1 : gap1 n = OK r1;
  lay_gap2 : gap2 n = OK r2;
  lay_xcords : xcords n = OK [x0; 3 * n + r1; x2];
  lay_ycords : ycords n = OK [y0; y1; y2];
  lay_wd : within_times (5 # 2) n wd;
  lay_ht : within_times (7 # 2) n ht;
  lay_x0 : within_times (1 # 2) n x0;
  lay_r1 : within_round (5764607523034235 # 576460752303423488) n r1;
  lay_r2 : within_round (5764607523034235 # 288230376151711744) n r2;
  lay_x2 : within_times_plus (11 # 2) n r2 x2;
  lay_y0 : within_times (1 # 4) n y0;
  lay_y1 : within_times_plus (15 # 4) n r1 y1;
  lay_y2 : within_times_plus (29 # 4) n r2 y2
}.

(** Two pasted images of size [wd x ht], given by their top-left corners,
    do not overlap: one lies entirely left of, or entirely above, the
    other. *)
Definition rect_disjoint (a b : Z * Z) (wd ht : Z) : Prop :=
  fst a + wd <= fst b \/ fst b + wd <= fst a \/
  snd a + ht <= snd b \/ snd b + ht <= snd a.

(** [exact_float f k j]: the float f is positive, normal, and stands for
    exactly [k / 2^j]. *)
Definition exact_float (f : float) (k j : Z) : Prop :=
  exists m e, pos_float f m e /\ e <= - j /\ Zpos m = k * 2 ^ (- j - e).

(** The literal [3.0], and the table X as the specification writes it,
    every entry in floats:
    [[int(0.5*dpi), int(3.0*dpi + round(0.01*dpi)),
      int(5.5*dpi + round(0.02*dpi))]]. The code has the int product
    [3 * dpi] in the middle entry; the table Y of the specification is
    [ycords] as it stands. *)
Definition f_3_0 : float := literal 30 1.

Definition xcords_as_specified (dpi : Z) : result (list Z) :=
  x0 <- (x <- mul_int f_0_5 dpi ;; to_int x) ;;
  x1 <- (a <- mul_int f_3_0 dpi ;; r <- gap1 dpi ;;
         s <- add_int a r ;; to_int s) ;;
  x2 <- (a <- mul_int f_5_5 dpi ;; r <- gap2 dpi ;;
         s <- add_int a r ;; to_int s) ;;
  OK [x0; x1; x2].

(** [n / k] rounded to the nearest integer, a tie going to the even one:
    what [round(n / k)] is in exact arithmetic. *)
Definition round_half_even_div (n k : Z) : Z :=
  let q := n / k in
  let r := n mod k in
  match 2 * r ?= k with
  | Lt => q
  | Gt => q + 1
  | Eq => if Z.even q then q else q + 1
  end.


(* ===================================================================== *)
(** * The rest of the program: the output name, logging and the table *)
(* ===================================================================== *)

(** The "select output file" block of [parse_arguments]: the path [o]
    that is tested and kept, from [args.output]. *)
Definition output_file (out : option string) : string :=
  match out with
  | None => "output.pdf"
  | Some out => if endswith out ".pdf" then out else (out ++ ".pdf")%string
  end.

(** The namespace with another [--output]. *)
Definition with_output (ns : Namespace) (out : option string) : Namespace :=
  {| ns_folder := ns_folder ns; ns_output := out;
     ns_excluded := ns_excluded ns; ns_dpi := ns_dpi ns;
     ns_verbose := ns_verbose ns; ns_quiet := ns_quiet ns |}.

(** The argument dict with another list of excluded prefixes. *)
Definition with_excluded (a : arguments) (prefixes : list string) : arguments :=
  {| folder := folder a; output := output a; excluded := prefixes;
     dpi := dpi a; verb := verb a |}.

(** The levels of [logging] that the program names. *)
Definition logging_CRITICAL : Z := 50.
Definition logging_INFO : Z := 20.
Definition logging_DEBUG : Z := 10.

(** The dict [verbosity] of [parse_arguments], its items in the order they
    are written. *)
Definition verbosity : list (Z * Z) :=
  [(0, logging_CRITICAL); (1, logging_INFO); (2, logging_DEBUG)].

(** [d[k]] for a dict d with int keys, given by its items; [None] is
    Python's [KeyError]. *)
Fixpoint dict_getitem (d : list (Z * Z)) (k : Z) : option Z :=
  match d with
  | [] => None
  | (k', v) :: d' => if k =? k' then Some v else dict_getitem d' k
  end.

(** The level that [parse_arguments] hands to [logging.basicConfig]:
    [verbosity[a['verb']]]. *)
Definition basicConfig_level (a : arguments) : option Z :=
  dict_getitem verbosity (verb a).

(** A byte that continues a code point in the encoding of a [str]:
    [10xxxxxx]. *)
Definition is_continuation (c : ascii) : bool :=
  let n := N_of_ascii c in (128 <=? n)%N && (n <? 192)%N.

(** [len(s)] for a [str]: the number of its code points, one for each byte
    that does not continue one. *)
Fixpoint len (s : string) : nat :=
  match s with
  | EmptyString => O
  | String c s' => if is_continuation c then len s' else S (len s')
  end.

(** [' ' * n] *)
Fixpoint spaces (n : nat) : string :=
  match n with
  | O => EmptyString
  | S n' => String " " (spaces n')
  end.

(** [f"{s:{width}}"] for a [str] s and a width of at least 1: the format
    specification is the width alone, so s is aligned to the left and
    padded with spaces up to [width] code points; a longer s is kept
    whole. *)
Definition format_width (s : string) (width : nat) : string :=
  (s ++ spaces (width - len s))%string.

(** [max(iterable)] for lengths; an empty iterable raises [ValueError]. *)
Definition max_of (l : list nat) : result nat :=
  match l with
  | [] => Raise ValueError
  | x :: l' => OK (fold_left Nat.max l' x)
  end.

(** Whether [except ValueError] catches an exception: [ValueError]
    itself and [UnicodeEncodeError], which derives from it. *)
Definition is_ValueError (e : exception) : bool :=
  match e with
  | ValueError | UnicodeEncodeError => true
  | _ => false
  end.

(** [print(line)] for each line in turn, on a standard output that
    [write] stands for ([UnicodeEncodeError] when its encoding has not
    the characters of the line): the lines written, and how the prints
    ended. A print writes its line or raises; the first that raises ends
    them. *)
Fixpoint print_all (write : string -> result unit) (lines : list string)
  : list string * result unit :=
  match lines with
  | [] => ([], OK tt)
  | line :: rest =>
      match write line with
      | OK _ => let r := print_all write rest in (line :: fst r, snd r)
      | Raise e => ([], Raise e)
      end
  end.

(** The lines of the table for a width [mlen] of the name column: the
    header, then one row for each rejection record. *)
Definition table_lines (mlen : nat) (excluded_files : list (string * string))
  : list string :=
  (format_width "Excluded file name" mlen ++ "|Reason")%string
  :: map (fun r => (format_width (fst r) mlen ++ "|" ++ snd r)%string)
       excluded_files.

(** The body of the [try] that ends [list_files]: the lines it writes
    and how it ends. Nothing is printed before [max] has returned. *)
Definition print_table (write : string -> result unit)
    (excluded_files : list (string * string)) : list string * result unit :=
  match max_of (map (fun i => len (fst i)) excluded_files) with
  | Raise e => ([], Raise e)
  | OK mlen =>
      let mlen := if (18 <? mlen)%nat then mlen else 18%nat in
      print_all write (table_lines mlen excluded_files)
  end.

(** [try: ... except ValueError: pass]: the lines written, and how the
    statement ends. *)
Definition rejection_table (write : string -> result unit)
    (excluded_files : list (string * string)) : list string * result unit :=
  let r := print_table write excluded_files in
  (fst r,
   match snd r with
   | OK u => OK u
   | Raise e => if is_ValueError e then OK tt else Raise e
   end).

(** The two worlds answer alike on everything [list_files] asks about
    the entries of the folder, but possibly on [Image.open] of an entry
    that is excluded or is not a file. *)
Definition same_for_list_files (lower : string -> string) (w1 w2 : World)
    (args : arguments) : Prop :=
  listdir w1 (folder args) = listdir w2 (folder args) /\
  (forall fn, isfile w1 fn = isfile w2 fn) /\
  (forall img, Image_verify w1 img = Image_verify w2 img) /\
  (forall img sz, Image_resize w1 img sz = Image_resize w2 img sz) /\
  (forall files,
      any (fun i => startswith (lower files) i) (excluded args) = false ->
      isfile w1 (path_join (folder args) files) = true ->
      Image_open w1 (path_join (folder args) files) =
      Image_open w2 (path_join (folder args) files)).

(** A rectangle of size [wd x ht] with its top-left corner at [xy] lies
    on a page of size [page]. *)
Definition rect_inside (xy : Z * Z) (wd ht : Z) (page : Z * Z) : Prop :=
  0 <= fst xy /\ fst xy + wd <= fst page /\
  0 <= snd xy /\ snd xy + ht <= snd page.

(** [subsequence l l']: l is l' with some elements left out, the others
    in their order. *)
Inductive subsequence {A : Type} : list A -> list A -> Prop :=
| sub_nil : subsequence [] []
| sub_skip (x : A) (l l' : list A) : subsequence l l' -> subsequence l (x :: l')
| sub_keep (x : A) (l l' : list A) :
    subsequence l l' -> subsequence (x :: l) (x :: l').

(** The command line, the page and the document of the scenario at
    [dpi = 100], and the world of the scenario with an [Image.open] that
    would take the sub-folder [old] for an image. *)
Definition scenario_namespace (d : Z) : Namespace :=
  {| ns_folder := "cards"; ns_output := None; ns_excluded := [];
     ns_dpi := d; ns_verbose := false; ns_quiet := false |}.

Definition scenario_page : Canvas :=
  {| cv_mode := "RGB"; cv_size := (850, 1100); cv_color := "white";
     cv_pasted := [(Scenario.a_png, (50, 25)); (Scenario.c_jpg, (301, 25))] |}.

Definition scenario_document : Document :=
  {| doc_path := "output.pdf"; doc_resolution := 100;
     doc_pages := [scenario_page] |}.

Definition world_opening_old : World :=
  {| listdir := listdir Scenario.world;
     isfile := isfile Scenario.world;
     isdir := isdir Scenario.world;
     Image_open := fun fn =>
       if (fn =? "cards/old")%string then
         OK {| im_file := fn; im_size := (1, 1) |}
       else Image_open Scenario.world fn;
     Image_verify := Image_verify Scenario.world;
     Image_resize := Image_resize Scenario.world;
     Image_storage := Image_storage Scenario.world;
     Image_save := Image_save Scenario.world |}.

(* ===================================================================== *)
(** * Proofs *)
(* ===================================================================== *)

(** ** The error monad and the loops *)

Lemma bind_OK {A B : Type} (c : result A) (k : A -> result B) (b : B) :
  bind c k = OK b -> exists a, c = OK a /\ k a = OK b.
Proof.
  destruct c as [a | e]; simpl; intros H; [exists a; split; auto | discriminate].
Qed.

Lemma for_each_app {A S : Type} (body : A -> S -> result S) (l1 l2 : list A) (st : S) :
  for_each body (l1 ++ l2) st = bind (for_each body l1 st) (for_each body l2).
Proof.
  revert st; induction l1 as [| x l1 IH]; intros st; simpl; [reflexivity |].
  destruct (body x st) as [st' | e]; simpl; [apply IH | reflexivity].
Qed.

(** ** [sorted] sorts *)

Lemma ascii_compare_trans (a b c : ascii) (o : comparison) :
  Ascii.compare a b = o -> Ascii.compare b c = o -> Ascii.compare a c = o.
Proof.
  unfold Ascii.compare; destruct o; intros H1 H2.
  - apply N.compare_eq_iff in H1, H2. apply N.compare_eq_iff. congruence.
  - rewrite N.compare_lt_iff in *. lia.
  - rewrite N.compare_gt_iff in *. lia.
Qed.

Lemma str_compare_lt_trans (a b c : string) :
  String.compare a b = Lt -> String.compare b c = Lt -> String.compare a c = Lt.
Proof.
  revert b c; induction a as [| x a IH]; intros [| y b] [| z c]; simpl;
    try discriminate; auto.
  destruct (Ascii.compare x y) eqn:Hxy; try discriminate;
    destruct (Ascii.compare y z) eqn:Hyz; try discriminate; intros H1 H2.
  - rewrite (ascii_compare_trans _ _ _ _ Hxy Hyz). eauto.
  - apply Ascii.compare_eq_iff in Hxy; subst. rewrite Hyz. reflexivity.
  - apply Ascii.compare_eq_iff in Hyz; subst. rewrite Hxy. reflexivity.
  - rewrite (ascii_compare_trans _ _ _ _ Hxy Hyz). reflexivity.
Qed.

Lemma str_le_trans (a b c : string) : str_le a b -> str_le b c -> str_le a c.
Proof.
  unfold str_le, String.leb.
  destruct (String.compare a b) eqn:Hab; try discriminate;
    destruct (String.compare b c) eqn:Hbc; try discriminate; intros _ _.
  - apply String.compare_eq_iff in Hab, Hbc; subst.
    destruct (String.compare c c) eqn:Hcc; auto.
    pose proof (String.compare_antisym c c) as H. rewrite Hcc in H. discriminate.
  - apply String.compare_eq_iff in Hab; subst. now rewrite Hbc.
  - apply String.compare_eq_iff in Hbc; subst. now rewrite Hab.
  - now rewrite (str_compare_lt_trans _ _ _ Hab Hbc).
Qed.

Lemma str_le_total (a b : string) : str_le a b \/ str_le b a.
Proof. apply String.leb_total. Qed.

Lemma insert_sorted_perm (x : string) (l : list string) :
  Permutation (insert_sorted x l) (x :: l).
Proof.
  induction l as [| y l IH]; simpl; [reflexivity |].
  destruct (x <=? y)%string; [reflexivity |].
  rewrite IH. apply perm_swap.
Qed.

Lemma sorted_perm (l : list string) : Permutation (sorted l) l.
Proof.
  induction l as [| x l IH]; simpl; [reflexivity |].
  rewrite insert_sorted_perm. now constructor.
Qed.

Lemma insert_sorted_strongly (x : string) (l : list string) :
  StronglySorted str_le l -> StronglySorted str_le (insert_sorted x l).
Proof.
  induction l as [| y l IH]; intros Hs; simpl.
  - repeat constructor.
  - destruct (x <=? y)%string eqn:Hxy.
    + constructor; [assumption |].
      inversion Hs as [| ? ? Hs' Hall]; subst. constructor; [exact Hxy |].
      eapply Forall_impl; [| exact Hall]. intros z Hz.
      eapply str_le_trans; [exact Hxy | exact Hz].
    + inversion Hs as [| ? ? Hs' Hall]; subst. constructor; [auto |].
      assert (Hyx : str_le y x).
      { destruct (str_le_total x y) as [H | H]; [unfold str_le in H; congruence | exact H]. }
      eapply Permutation_Forall; [symmetry; apply insert_sorted_perm |].
      constructor; assumption.
Qed.

Lemma sorted_strongly (l : list string) : StronglySorted str_le (sorted l).
Proof.
  induction l as [| x l IH]; simpl; [constructor | now apply insert_sorted_strongly].
Qed.

Lemma strongly_sorted_filter (p : string -> bool) (l : list string) :
  StronglySorted str_le l -> StronglySorted str_le (filter p l).
Proof.
  induction 1 as [| x l Hs IH Hall]; simpl; [constructor |].
  destruct (p x); [| exact IH].
  constructor; [exact IH |].
  rewrite Forall_forall in *. intros y Hy. apply Hall.
  apply filter_In in Hy. tauto.
Qed.

(** ** [list_files]: one verdict per directory entry *)

Section ListFiles.

Variable lower : string -> string.
Variable w : World.
Variable args : arguments.

Lemma list_files_step_verdict files allfiles excluded_files :
  list_files_step lower w args files (allfiles, excluded_files) =
  OK (allfiles ++ accepted_of (entry_verdict lower w args files),
      excluded_files ++ rejected_of files (entry_verdict lower w args files)).
Proof.
  unfold list_files_step, entry_verdict.
  destruct (any _ (excluded args)); simpl; [now rewrite app_nil_r |].
  destruct (isfile w _); simpl; [| now rewrite app_nil_r].
  destruct (load_image w args _); simpl; now rewrite app_nil_r.
Qed.

Lemma for_each_verdict l allfiles excluded_files :
  for_each (list_files_step lower w args) l (allfiles, excluded_files) =
  OK (allfiles ++ flat_map (fun f => accepted_of (entry_verdict lower w args f)) l,
      excluded_files ++ flat_map (fun f => rejected_of f (entry_verdict lower w args f)) l).
Proof.
  revert allfiles excluded_files.
  induction l as [| f l IH]; intros allfiles excluded_files;
    cbn [for_each flat_map].
  - now rewrite !app_nil_r.
  - rewrite list_files_step_verdict. cbn [bind]. rewrite IH.
    now rewrite <- !app_assoc.
Qed.

Lemma list_files_run_verdict :
  list_files_run lower w args =
  OK (flat_map (fun f => accepted_of (entry_verdict lower w args f))
        (sorted (listdir w (folder args))),
      flat_map (fun f => rejected_of f (entry_verdict lower w args f))
        (sorted (listdir w (folder args)))).
Proof. unfold list_files_run. now rewrite for_each_verdict. Qed.

Lemma rejected_names l :
  map fst (flat_map (fun f => rejected_of f (entry_verdict lower w args f)) l) =
  filter (fun f => negb (is_accepted (entry_verdict lower w args f))) l.
Proof.
  induction l as [| f l IH]; cbn [flat_map filter]; [reflexivity |].
  rewrite map_app, IH. destruct (entry_verdict lower w args f); reflexivity.
Qed.

Lemma accepted_provenance l :
  Forall2 (fun name img =>
             load_image w args (path_join (folder args) name) = OK img)
    (filter (fun f => is_accepted (entry_verdict lower w args f)) l)
    (flat_map (fun f => accepted_of (entry_verdict lower w args f)) l).
Proof.
  induction l as [| f l IH]; simpl; [constructor |].
  destruct (entry_verdict lower w args f) as [img | reason] eqn:Hv; simpl; [| exact IH].
  constructor; [| exact IH].
  unfold entry_verdict in Hv.
  destruct (any _ (excluded args)); [discriminate |].
  destruct (negb _); [discriminate |].
  destruct (load_image w args _); [congruence | discriminate].
Qed.

Lemma rejected_reasons l :
  Forall (fun r : string * string => In (snd r) reasons)
    (flat_map (fun f => rejected_of f (entry_verdict lower w args f)) l).
Proof.
  induction l as [| f l IH]; simpl; [constructor |].
  apply Forall_app; split; [| exact IH].
  unfold entry_verdict, reasons.
  destruct (any _ (excluded args));
    [constructor; [simpl; auto | constructor] |].
  destruct (negb _); [constructor; [simpl; auto | constructor] |].
  destruct (load_image w args _); simpl;
    [constructor | constructor; [simpl; auto | constructor]].
Qed.

Lemma rejected_in_flat_map files reason l :
  In files l -> entry_verdict lower w args files = Rejected reason ->
  In (files, reason) (flat_map (fun f => rejected_of f (entry_verdict lower w args f)) l).
Proof.
  intros Hin Hv. apply in_flat_map. exists files. split; [assumption |].
  rewrite Hv. simpl. auto.
Qed.

End ListFiles.

Lemma filter_partition_perm {A : Type} (p : A -> bool) (l : list A) :
  Permutation (filter p l ++ filter (fun x => negb (p x)) l) l.
Proof.
  induction l as [| x l IH]; simpl; [reflexivity |].
  destruct (p x); simpl.
  - now constructor.
  - rewrite <- Permutation_middle. now constructor.
Qed.

(** C3. For every directory listing, [list_files] puts every entry in
    exactly one of the accepted sequence and the rejection list, the reason
    of a rejection being one of the three; the two lists together are a
    rearrangement of the entries (nothing twice, nothing left out) and each
    is in sorted-name order. *)
Theorem list_files_partitions_entries (lower : string -> string) (w : World)
    (args : arguments) :
  exists allfiles excluded_files accepted_names,
    list_files_run lower w args = OK (allfiles, excluded_files) /\
    list_files lower w args = OK allfiles /\
    Forall2 (fun name img =>
               load_image w args (path_join (folder args) name) = OK img)
      accepted_names allfiles /\
    Permutation (accepted_names ++ map fst excluded_files)
      (listdir w (folder args)) /\
    StronglySorted str_le accepted_names /\
    StronglySorted str_le (map fst excluded_files) /\
    Forall (fun r : string * string => In (snd r) reasons) excluded_files.
Proof.
  set (entries := sorted (listdir w (folder args))).
  exists (flat_map (fun f => accepted_of (entry_verdict lower w args f)) entries),
         (flat_map (fun f => rejected_of f (entry_verdict lower w args f)) entries),
         (filter (fun f => is_accepted (entry_verdict lower w args f)) entries).
  rewrite rejected_names.
  repeat split.
  - apply list_files_run_verdict.
  - unfold list_files. now rewrite list_files_run_verdict.
  - apply accepted_provenance.
  - rewrite filter_partition_perm. apply sorted_perm.
  - apply strongly_sorted_filter, sorted_strongly.
  - apply strongly_sorted_filter, sorted_strongly.
  - apply rejected_reasons.
Qed.

(** C8. When opening, verifying or resizing one file raises, no exception
    leaves [list_files]: the round of the loop ends normally with the record
    [(files, "is not a valid image")] appended, the loop goes on with the
    entries that follow, and the whole call returns with that record in its
    rejection list. *)
Theorem per_file_failure_is_absorbed (lower : string -> string) (w : World)
    (args : arguments) (files : string) (e : exception) :
  any (fun i => startswith (lower files) i) (excluded args) = false ->
  isfile w (path_join (folder args) files) = true ->
  load_image w args (path_join (folder args) files) = Raise e ->
  In files (listdir w (folder args)) ->
  (forall st,
      list_files_step lower w args files st =
      OK (fst st, snd st ++ [(files, "is not a valid image")])) /\
  (forall after st,
      for_each (list_files_step lower w args) (files :: after) st =
      for_each (list_files_step lower w args) after
        (fst st, snd st ++ [(files, "is not a valid image")])) /\
  exists allfiles excluded_files,
    list_files_run lower w args = OK (allfiles, excluded_files) /\
    list_files lower w args = OK allfiles /\
    In (files, "is not a valid image") excluded_files.
Proof.
  intros Hex Hfile Hload Hin.
  assert (Hv : entry_verdict lower w args files = Rejected "is not a valid image").
  { unfold entry_verdict. now rewrite Hex, Hfile, Hload. }
  assert (Hstep : forall st,
             list_files_step lower w args files st =
             OK (fst st, snd st ++ [(files, "is not a valid image")])).
  { intros [a x]. rewrite list_files_step_verdict, Hv. simpl.
    now rewrite app_nil_r. }
  split; [exact Hstep |]. split.
  - intros after st. cbn [for_each]. now rewrite Hstep.
  - eexists _, _. split; [apply list_files_run_verdict |]. split.
    + unfold list_files. now rewrite list_files_run_verdict.
    + apply rejected_in_flat_map; [| exact Hv].
      apply (Permutation_in _ (Permutation_sym (sorted_perm _))). exact Hin.
Qed.

Lemma per_file_failure_is_absorbed_witness :
  (forall st,
      list_files_step Scenario.lower Scenario.world (Scenario.args 100) "b.png" st =
      OK (fst st, snd st ++ [("b.png", "is not a valid image")])) /\
  (forall after st,
      for_each (list_files_step Scenario.lower Scenario.world (Scenario.args 100))
        ("b.png" :: after) st =
      for_each (list_files_step Scenario.lower Scenario.world (Scenario.args 100))
        after (fst st, snd st ++ [("b.png", "is not a valid image")])) /\
  exists allfiles excluded_files,
    list_files_run Scenario.lower Scenario.world (Scenario.args 100) =
      OK (allfiles, excluded_files) /\
    list_files Scenario.lower Scenario.world (Scenario.args 100) = OK allfiles /\
    In ("b.png", "is not a valid image") excluded_files.
Proof.
  apply (per_file_failure_is_absorbed Scenario.lower Scenario.world
           (Scenario.args 100) "b.png" OSError).
  - reflexivity.
  - reflexivity.
  - reflexivity.
  - simpl. tauto.
Defined.

Lemma scenario_resize_gives_size : resize_gives_size Scenario.world.
Proof.
  intros img sz img'. simpl. unfold Scenario.resize.
  destruct (_ || _); [discriminate |].
  destruct (_ || _); [discriminate |]. intros H. injection H as <-. reflexivity.
Qed.

(** ** Exclusion *)

(** The loop body rejects an entry as excluded exactly when one of the
    configured prefixes, as it was typed, is a prefix of the lower-cased
    entry name. *)
Lemma excluded_iff_prefix_of_lowered_name (lower : string -> string)
    (w : World) (args : arguments) (files : string)
    (st : list Image * list (string * string)) :
  list_files_step lower w args files st =
    OK (fst st, snd st ++ [(files, "is in excluded list")])
  <-> exists i, In i (excluded args) /\ String.prefix i (lower files) = true.
Proof.
  destruct st as [a x]. rewrite list_files_step_verdict.
  unfold entry_verdict, any, startswith. rewrite <- existsb_exists.
  destruct (existsb _ (excluded args)); simpl.
  - rewrite app_nil_r. tauto.
  - split; [| discriminate]. intros H.
    destruct (negb _).
    + simpl in H. injection H as _ H. apply app_inv_head in H. discriminate.
    + destruct (load_image w args _); simpl in H; injection H as H1 H2.
      * apply (f_equal (@List.length _)) in H2.
        rewrite app_nil_r, length_app in H2. simpl in H2. lia.
      * apply app_inv_head in H2. discriminate.
Qed.

(** C5, on the code. A prefix typed in lower case excludes [IMG_skip.png];
    the same prefix typed in upper case does not: the entry name is
    lower-cased before the comparison and the prefix is not, so the file is
    accepted. *)
Theorem uppercase_prefix_excludes_nothing :
  list_files_run Scenario.lower CaseScenario.world
    (CaseScenario.args ["img_skip"]) =
    OK ([], [("IMG_skip.png", "is in excluded list")]) /\
  list_files_run Scenario.lower CaseScenario.world
    (CaseScenario.args ["IMG_SKIP"]) =
    OK ([CaseScenario.img], []) /\
  list_files_run Scenario.lower CaseScenario.world
    (CaseScenario.args ["IMG_skip"]) =
    OK ([CaseScenario.img], []).
Proof. repeat split; vm_compute; reflexivity. Qed.

(** ** The document writer *)

Lemma generate_images_nil (w : World) (args : arguments)
    (pages : list Canvas) :
  generate_images w [] args = OK pages -> pages = [].
Proof.
  unfold generate_images. simpl.
  destruct (xcords (dpi args)); simpl; [| discriminate].
  destruct (ycords (dpi args)); simpl; [| discriminate].
  congruence.
Qed.

(** C9. With no accepted image the page sequence is empty, and the saving
    step raises ([IndexError] at [generated_images[0]]) before anything is
    handed to [save]: the run ends with an exception at the caller and no
    document. *)
Theorem empty_output_fails (lower : string -> string) (w : World)
    (ns : Namespace) (args : arguments) :
  parse_arguments w ns = OK args ->
  list_files lower w args = OK [] ->
  save_document w [] args = Raise IndexError /\
  (forall pages, generate_images w [] args = OK pages ->
                 save_document w pages args = Raise IndexError) /\
  exists e, main lower w ns = Raise e.
Proof.
  intros Hparse Hlist. split; [reflexivity |]. split.
  - intros pages H. apply generate_images_nil in H. now subst.
  - unfold main. rewrite Hparse. cbn [bind]. rewrite Hlist. cbn [bind].
    destruct (generate_images w [] args) as [pages | e] eqn:Hgen.
    + apply generate_images_nil in Hgen. subst. exists IndexError. reflexivity.
    + exists e. reflexivity.
Qed.

Lemma empty_output_fails_witness :
  save_document Scenario.world [] (Scenario.args 0) = Raise IndexError /\
  (forall pages,
      generate_images Scenario.world [] (Scenario.args 0) = OK pages ->
                 save_document Scenario.world pages (Scenario.args 0)
                 = Raise IndexError) /\
  exists e,
    main Scenario.lower Scenario.world
      {| ns_folder := "cards"; ns_output := None; ns_excluded := [];
         ns_dpi := 0; ns_verbose := false; ns_quiet := false |} = Raise e.
Proof.
  apply (empty_output_fails Scenario.lower Scenario.world
           {| ns_folder := "cards"; ns_output := None; ns_excluded := [];
              ns_dpi := 0; ns_verbose := false; ns_quiet := false |}
           (Scenario.args 0)).
  - reflexivity.
  - vm_compute. reflexivity.
Defined.

(** ** The worked scenario *)

(** C6, as the specification states it, fails: at [dpi = 100] the second
    image is not pasted at [(320, 25)]. *)
Lemma scenario_second_image_not_at_320 :
  ~ (exists page,
        generate_images Scenario.world [Scenario.a_png; Scenario.c_jpg]
          (Scenario.args 100) = OK [page] /\
        cv_pasted page =
          [(Scenario.a_png, (50, 25)); (Scenario.c_jpg, (320, 25))]).
Proof.
  intros (page & Hgen & Hpasted).
  vm_compute in Hgen. injection Hgen as <-. discriminate Hpasted.
Qed.

(** C6, amended. In the scenario with [dpi = 100] the accepted images are
    [a.png] then [c.jpg]; the composition gives one white page of
    850 x 1100 pixels, with [a.png] pasted at [(50, 25)] and [c.jpg] at
    [(301, 25)], the middle column being [3 * 100 + round(.01 * 100)]. *)
Theorem scenario_layout :
  list_files_run Scenario.lower Scenario.world (Scenario.args 100) =
    OK ([Scenario.a_png; Scenario.c_jpg],
        [("b.png", "is not a valid image"); ("b.txt", "is not a valid image");
         ("old", "is not a file")]) /\
  generate_images Scenario.world [Scenario.a_png; Scenario.c_jpg]
    (Scenario.args 100) =
    OK [ {| cv_mode := "RGB"; cv_size := (850, 1100); cv_color := "white";
            cv_pasted := [(Scenario.a_png, (50, 25));
                          (Scenario.c_jpg, (301, 25))] |} ].
Proof. split; vm_compute; reflexivity. Qed.

(** ** [generate_images]: the pages and the pastes *)

Lemma neg_floor_div_9 (n : nat) :
  - (- Z.of_nat n / 9) = Z.of_nat (pages_needed n).
Proof.
  unfold pages_needed. rewrite Nat2Z.inj_div, Nat2Z.inj_add. simpl Z.of_nat.
  Z.div_mod_to_equations. lia.
Qed.

Lemma pages_needed_is_ceiling (n : nat) :
  (9 * pages_needed n < n + 9 /\ n <= 9 * pages_needed n)%nat.
Proof.
  unfold pages_needed.
  pose proof (Nat.div_mod_eq (n + 8) 9) as H.
  pose proof (Nat.mod_upper_bound (n + 8) 9). lia.
Qed.

Lemma getitem_nat {A : Type} (l : list A) (k : nat) (a : A) :
  nth_error l k = Some a -> getitem l (Z.of_nat k) = OK a.
Proof.
  intros H. unfold getitem.
  assert (Hk : (k < List.length l)%nat) by (apply nth_error_Some; congruence).
  destruct (Z.of_nat k <? 0) eqn:E1; [apply Z.ltb_lt in E1; lia |].
  rewrite E1. simpl.
  destruct (Z.of_nat (List.length l) <=? Z.of_nat k) eqn:E2;
    [apply Z.leb_le in E2; lia |].
  now rewrite Nat2Z.id, H.
Qed.

Lemma getitem_nil {A : Type} (i : Z) : getitem (@nil A) i = Raise IndexError.
Proof.
  unfold getitem. simpl.
  destruct (i <? 0) eqn:E; simpl.
  - rewrite Z.add_0_r, E. reflexivity.
  - rewrite E. simpl. destruct (0 <=? i) eqn:E2; [reflexivity |].
    apply Z.ltb_ge in E. apply Z.leb_gt in E2. lia.
Qed.

Lemma set_nth_length {A : Type} (l : list A) (i : nat) (v : A) :
  List.length (set_nth l i v) = List.length l.
Proof.
  revert i; induction l as [| a l IH]; intros [| i]; simpl; auto.
Qed.

Lemma nth_error_set_nth {A : Type} (l : list A) (i j : nat) (v : A) :
  (i < List.length l)%nat ->
  nth_error (set_nth l i v) j = if (j =? i)%nat then Some v else nth_error l j.
Proof.
  revert i j; induction l as [| a l IH]; intros [| i] [| j] Hi; simpl in *;
    try lia; auto.
  apply IH. lia.
Qed.

Lemma for_each_range_snoc {S : Type} (body : Z -> S -> result S) (k : nat) (st : S) :
  for_each body (range (Z.of_nat (Datatypes.S k))) st =
  bind (for_each body (range (Z.of_nat k)) st) (body (Z.of_nat k)).
Proof.
  unfold range. rewrite !Nat2Z.id, seq_S, map_app, for_each_app. simpl.
  destruct (for_each body _ st) as [st' | e]; simpl; [| reflexivity].
  destruct (body (Z.of_nat k) st'); reflexivity.
Qed.

Lemma new_backgrounds_snoc (w : World) (args : arguments) (k : nat) :
  new_backgrounds w args (Z.of_nat (S k)) =
  (acc <- new_backgrounds w args (Z.of_nat k) ;;
   c <- new_background w args (Z.of_nat k) ;; OK (acc ++ [c])).
Proof. unfold new_backgrounds. now rewrite for_each_range_snoc. Qed.

Lemma new_backgrounds_OK (w : World) (args : arguments) (c : Canvas) (k : nat) :
  (forall j, (j < k)%nat -> new_background w args (Z.of_nat j) = OK c) ->
  new_backgrounds w args (Z.of_nat k) = OK (repeat c k).
Proof.
  induction k as [| k IH]; intros Hc; [reflexivity |].
  rewrite new_backgrounds_snoc, IH by (intros j Hj; apply Hc; lia).
  cbn [bind]. rewrite Hc by lia. cbn [bind].
  f_equal. symmetry. apply repeat_cons.
Qed.

(** When the first [Image.new] raises, the list comprehension raises. *)
Lemma new_backgrounds_Raise (w : World) (args : arguments) (e : exception)
    (k : nat) :
  new_background w args 0 = Raise e ->
  new_backgrounds w args (Z.of_nat (S k)) = Raise e.
Proof.
  intros He. induction k as [| k IH].
  - unfold new_backgrounds, range. simpl. now rewrite He.
  - now rewrite new_backgrounds_snoc, IH.
Qed.

Lemma new_backgrounds_inv (w : World) (args : arguments) (k : nat)
    (bgs : list Canvas) :
  new_backgrounds w args (Z.of_nat k) = OK bgs ->
  forall j, (j < k)%nat -> exists c, new_background w args (Z.of_nat j) = OK c.
Proof.
  revert bgs. induction k as [| k IH]; intros bgs H j Hj; [lia |].
  rewrite new_backgrounds_snoc in H.
  apply bind_OK in H. destruct H as (acc & Hacc & H).
  apply bind_OK in H. destruct H as (c & Hc & _).
  destruct (Nat.eq_dec j k) as [-> | Hne]; [eauto |].
  apply (IH acc Hacc). lia.
Qed.

Lemma nth_error_combine {A B : Type} (l1 : list A) (l2 : list B) (m : nat) :
  nth_error (combine l1 l2) m =
  match nth_error l1 m, nth_error l2 m with
  | Some a, Some b => Some (a, b)
  | _, _ => None
  end.
Proof.
  revert l2 m; induction l1 as [| a l1 IH]; intros [| b l2] [| m]; simpl; auto.
  destruct (nth_error l1 m); reflexivity.
Qed.

Lemma firstn_succ_snoc {A : Type} (l : list A) (m : nat) (a : A) :
  nth_error l m = Some a -> firstn (S m) l = firstn m l ++ [a].
Proof.
  revert m; induction l as [| b l IH]; intros [| m] H; simpl in *;
    try discriminate.
  - congruence.
  - f_equal. now apply IH.
Qed.

Lemma nth_error_cells (xs ys : list Z) (j : nat) :
  (j < 9)%nat -> nth_error (cells xs ys) j = Some (cell_position xs ys j).
Proof.
  intros Hj. unfold cells.
  rewrite nth_error_map, nth_error_seq.
  destruct (Nat.ltb_spec j 9); [reflexivity | lia].
Qed.

Lemma length_page_content (fileslist : list Image) (xs ys : list Z) (p : nat) :
  (List.length (page_content fileslist xs ys p) <= 9)%nat.
Proof.
  unfold page_content. rewrite length_combine. unfold cells.
  rewrite length_map, length_seq. lia.
Qed.

Lemma nth_error_page_content (fileslist : list Image) (xs ys : list Z)
    (k : nat) (img : Image) :
  nth_error fileslist k = Some img ->
  nth_error (page_content fileslist xs ys (k / 9)) (k mod 9) =
  Some (img, cell_position xs ys (k mod 9)).
Proof.
  intros H. unfold page_content.
  rewrite nth_error_combine, nth_error_skipn.
  rewrite <- (Nat.div_mod_eq k 9), H.
  rewrite nth_error_cells; [reflexivity | apply Nat.mod_upper_bound; lia].
Qed.

Lemma nth_error_pages_after (fileslist : list Image) (sz : Z * Z)
    (xs ys : list Z) (k p : nat) :
  (p < pages_needed (List.length fileslist))%nat ->
  nth_error (pages_after fileslist sz xs ys k) p =
  Some (page_with sz (firstn (k - 9 * p) (page_content fileslist xs ys p))).
Proof.
  intros Hp. unfold pages_after.
  rewrite nth_error_map, nth_error_seq.
  destruct (Nat.ltb_spec p (pages_needed (List.length fileslist)));
    [reflexivity | lia].
Qed.

Lemma length_pages_after (fileslist : list Image) (sz : Z * Z)
    (xs ys : list Z) (k : nat) :
  List.length (pages_after fileslist sz xs ys k) =
  pages_needed (List.length fileslist).
Proof. unfold pages_after. now rewrite length_map, length_seq. Qed.

Lemma pages_after_0 (fileslist : list Image) (sz : Z * Z) (xs ys : list Z) :
  pages_after fileslist sz xs ys 0 =
  repeat (blank_page sz) (pages_needed (List.length fileslist)).
Proof.
  unfold pages_after.
  rewrite (map_ext _ (fun _ => blank_page sz)) by (intros; reflexivity).
  generalize (pages_needed (List.length fileslist)) as n.
  intros n. generalize 0%nat as a. induction n as [| n IH]; intros a; simpl.
  - reflexivity.
  - f_equal. apply IH.
Qed.

Lemma pages_after_all (fileslist : list Image) (sz : Z * Z) (xs ys : list Z) :
  pages_after fileslist sz xs ys (List.length fileslist) =
  map (fun p => page_with sz (page_content fileslist xs ys p))
    (seq 0 (pages_needed (List.length fileslist))).
Proof.
  unfold pages_after. apply map_ext. intros p. f_equal.
  apply firstn_all2. unfold page_content.
  rewrite length_combine, length_skipn. lia.
Qed.

(** One round of the pasting loop, at index k. *)
Lemma paste_step_pages_after (fileslist : list Image) (sz : Z * Z)
    (xs ys : list Z) (k : nat) :
  List.length xs = 3%nat -> List.length ys = 3%nat ->
  (k < List.length fileslist)%nat ->
  paste_step fileslist xs ys (Z.of_nat k) (pages_after fileslist sz xs ys k) =
  OK (pages_after fileslist sz xs ys (S k)).
Proof.
  intros Hxs Hys Hk.
  destruct (nth_error fileslist k) as [img |] eqn:Himg;
    [| apply nth_error_None in Himg; lia].
  pose proof (pages_needed_is_ceiling (List.length fileslist)) as [_ Hceil].
  pose proof (Nat.div_mod_eq k 9) as Hdm.
  pose proof (Nat.mod_upper_bound k 9 ltac:(lia)) as Hm9.
  assert (Hp : (k / 9 < pages_needed (List.length fileslist))%nat) by lia.
  assert (Hcol : ((k mod 9) mod 3 = k mod 3)%nat).
  { pose proof (Nat.div_mod_eq (k mod 9) 3). pose proof (Nat.div_mod_eq k 3).
    pose proof (Nat.mod_upper_bound (k mod 9) 3 ltac:(lia)).
    pose proof (Nat.mod_upper_bound k 3 ltac:(lia)). lia. }
  assert (Hrow : ((k mod 9) / 3 < 3)%nat).
  { apply Nat.Div0.div_lt_upper_bound. lia. }
  unfold paste_step.
  replace (Z.of_nat k mod 3) with (Z.of_nat (k mod 3))
    by (rewrite Nat2Z.inj_mod; reflexivity).
  replace ((Z.of_nat k mod 9) / 3) with (Z.of_nat ((k mod 9) / 3))
    by (rewrite Nat2Z.inj_div, Nat2Z.inj_mod; reflexivity).
  replace (Z.of_nat k / 9) with (Z.of_nat (k / 9))
    by (rewrite Nat2Z.inj_div; reflexivity).
  rewrite (getitem_nat xs (k mod 3) (nth (k mod 3) xs 0)).
  2:{ apply nth_error_nth'. pose proof (Nat.mod_upper_bound k 3 ltac:(lia)). lia. }
  cbn [bind].
  rewrite (getitem_nat ys ((k mod 9) / 3) (nth ((k mod 9) / 3) ys 0)).
  2:{ apply nth_error_nth'. lia. }
  cbn [bind].
  rewrite (getitem_nat _ _ _ (nth_error_pages_after fileslist sz xs ys k _ Hp)).
  cbn [bind].
  rewrite (getitem_nat _ _ _ Himg). cbn [bind]. rewrite Nat2Z.id.
  f_equal. apply nth_error_ext. intros j.
  rewrite nth_error_set_nth by (rewrite length_pages_after; exact Hp).
  destruct (Nat.eqb_spec j (k / 9)) as [-> | Hj].
  - rewrite nth_error_pages_after by exact Hp.
    f_equal. unfold paste, page_with.
    cbn [cv_mode cv_size cv_color cv_pasted]. f_equal.
    replace (k - 9 * (k / 9))%nat with (k mod 9)%nat by lia.
    replace (S k - 9 * (k / 9))%nat with (S (k mod 9)) by lia.
    rewrite (firstn_succ_snoc _ _ _ (nth_error_page_content _ xs ys _ _ Himg)).
    unfold cell_position. now rewrite Hcol.
  - destruct (Nat.ltb_spec j (pages_needed (List.length fileslist))) as [Hlt | Hge].
    + rewrite !nth_error_pages_after by exact Hlt. f_equal. f_equal.
      destruct (Nat.ltb_spec k (9 * j)) as [Hlow | Hhigh].
      * replace (S k - 9 * j)%nat with 0%nat by lia.
        replace (k - 9 * j)%nat with 0%nat by lia. reflexivity.
      * pose proof (length_page_content fileslist xs ys j).
        rewrite !firstn_all2 by lia. reflexivity.
    + transitivity (@None Canvas); [| symmetry];
        apply nth_error_None; rewrite length_pages_after; exact Hge.
Qed.

Lemma paste_loop (fileslist : list Image) (sz : Z * Z) (xs ys : list Z) (k : nat) :
  List.length xs = 3%nat -> List.length ys = 3%nat ->
  (k <= List.length fileslist)%nat ->
  for_each (paste_step fileslist xs ys) (range (Z.of_nat k))
    (pages_after fileslist sz xs ys 0) =
  OK (pages_after fileslist sz xs ys k).
Proof.
  intros Hxs Hys. induction k as [| k IH]; intros Hk; [reflexivity |].
  rewrite for_each_range_snoc, IH by lia. cbn [bind].
  apply paste_step_pages_after; auto.
Qed.

(** ** Binary64 arithmetic: what [SpecFloat] computes on positive numbers *)

Lemma digits2_pos_bounds (p : positive) :
  2 ^ (Zpos (digits2_pos p) - 1) <= Zpos p < 2 ^ Zpos (digits2_pos p).
Proof.
  induction p as [p IH | p IH |]; simpl digits2_pos.
  - rewrite Pos2Z.inj_succ, (Pos2Z.inj_xI p).
    replace (Z.succ (Zpos (digits2_pos p)) - 1) with (Z.succ (Zpos (digits2_pos p) - 1)) by lia.
    rewrite !Z.pow_succ_r by lia. lia.
  - rewrite Pos2Z.inj_succ, (Pos2Z.inj_xO p).
    replace (Z.succ (Zpos (digits2_pos p)) - 1) with (Z.succ (Zpos (digits2_pos p) - 1)) by lia.
    rewrite !Z.pow_succ_r by lia. lia.
  - simpl. lia.
Qed.

Lemma pow2_pos (n : Z) : 0 <= n -> 0 < 2 ^ n.
Proof. intros. apply Z.pow_pos_nonneg; lia. Qed.

Lemma pow2_lt_inv (a b : Z) : 0 <= b -> 2 ^ a < 2 ^ b -> a < b.
Proof.
  intros Hb H. destruct (Z.lt_ge_cases a b) as [| Hge]; [assumption |].
  pose proof (Z.pow_le_mono_r 2 b a ltac:(lia) Hge). lia.
Qed.

(** The number of digits is the only d with [2^(d-1) <= m < 2^d]. *)
Lemma digits_unique (p : positive) (d : Z) :
  0 < d -> 2 ^ (d - 1) <= Zpos p < 2 ^ d -> Zpos (digits2_pos p) = d.
Proof.
  intros Hd [Hlo Hhi]. destruct (digits2_pos_bounds p) as [Hlo' Hhi'].
  assert (d - 1 < Zpos (digits2_pos p)) by (apply pow2_lt_inv; lia).
  assert (Zpos (digits2_pos p) - 1 < d) by (apply pow2_lt_inv; lia).
  lia.
Qed.

Lemma shr_1_nonneg (m : Z) (r s : bool) :
  0 <= m ->
  shr_1 (Build_shr_record m r s) = Build_shr_record (m / 2) (Z.odd m) (r || s).
Proof.
  intros Hm. destruct m as [| [p | p |] |]; simpl shr_1; try lia; f_equal.
  - rewrite (Pos2Z.inj_xI p). apply (Z.div_unique _ _ _ 1); lia.
  - rewrite (Pos2Z.inj_xO p). apply (Z.div_unique _ _ _ 0); lia.
Qed.

Lemma mod_pow2_succ (m n : Z) :
  0 <= n ->
  m mod 2 ^ (n + 1) = m mod 2 ^ n + 2 ^ n * ((m / 2 ^ n) mod 2).
Proof.
  intros Hn. pose proof (pow2_pos n Hn) as Hp.
  rewrite Z.pow_add_r by lia. change (2 ^ 1) with 2.
  rewrite Z.rem_mul_r by lia. reflexivity.
Qed.

Lemma shr_state_step (m n : Z) :
  0 <= m -> 0 <= n -> shr_1 (shr_state m n) = shr_state m (n + 1).
Proof.
  intros Hm Hn. unfold shr_state.
  destruct (Z.eqb_spec (n + 1) 0) as [| _]; [lia |].
  replace (n + 1 - 1) with n by lia.
  destruct (Z.eqb_spec n 0) as [-> | Hn0].
  - rewrite shr_1_nonneg by assumption. simpl. f_equal.
    + now rewrite Z.div_1_r.
    + now rewrite Z.mod_1_r.
  - pose proof (pow2_pos n Hn) as Hp. pose proof (pow2_pos (n - 1) ltac:(lia)) as Hp1.
    rewrite shr_1_nonneg by (apply Z.div_pos; lia). f_equal.
    + rewrite Z.pow_add_r by lia. change (2 ^ 1) with 2.
      rewrite Z.div_div by lia. reflexivity.
    + replace n with (n - 1 + 1) at 3 by lia.
      rewrite mod_pow2_succ by lia.
      pose proof (Z.mod_pos_bound m (2 ^ (n - 1)) Hp1) as Hb.
      rewrite (Zmod_odd (m / 2 ^ (n - 1))).
      destruct (Z.odd (m / 2 ^ (n - 1)));
        destruct (Z.eqb_spec (m mod 2 ^ (n - 1)) 0) as [E0 | E0]; simpl;
        symmetry.
      * apply negb_true_iff, Z.eqb_neq. nia.
      * apply negb_true_iff, Z.eqb_neq. nia.
      * apply negb_false_iff, Z.eqb_eq. nia.
      * apply negb_true_iff, Z.eqb_neq. nia.
Qed.

Lemma iter_pos_shr_state (m : Z) (p : positive) (n : Z) :
  0 <= m -> 0 <= n ->
  iter_pos shr_1 p (shr_state m n) = shr_state m (n + Zpos p).
Proof.
  intros Hm. revert n. induction p as [p IH | p IH |]; intros n Hn; simpl iter_pos.
  - rewrite shr_state_step, !IH by lia. f_equal. lia.
  - rewrite !IH by lia. f_equal. lia.
  - now apply shr_state_step.
Qed.

(** Rounding the shifted record to nearest-even is [rne_shift]. *)
Lemma round_shr_state (m n : Z) :
  0 <= m -> 0 <= n ->
  round_nearest_even (shr_m (shr_state m n)) (loc_of_shr_record (shr_state m n))
  = rne_shift m n.
Proof.
  intros Hm Hn. unfold shr_state, rne_shift.
  destruct (Z.eqb_spec n 0) as [-> | Hn0].
  - simpl. rewrite Z.mod_1_r, Z.div_1_r. reflexivity.
  - pose proof (pow2_pos (n - 1) ltac:(lia)) as Hp1.
    pose proof (Z.mod_pos_bound m (2 ^ (n - 1)) Hp1) as Hb.
    pose proof (Z.mod_pos_bound (m / 2 ^ (n - 1)) 2 ltac:(lia)) as Hb2.
    assert (Hpow : 2 ^ n = 2 * 2 ^ (n - 1)).
    { replace n with (n - 1 + 1) at 1 by lia.
      rewrite Z.pow_add_r by lia. change (2 ^ 1) with 2. lia. }
    assert (Hmod : m mod 2 ^ n = m mod 2 ^ (n - 1)
                                 + 2 ^ (n - 1) * ((m / 2 ^ (n - 1)) mod 2)).
    { replace n with (n - 1 + 1) at 1 by lia. apply mod_pow2_succ. lia. }
    rewrite (Zmod_odd (m / 2 ^ (n - 1))) in Hmod.
    destruct (Z.odd (m / 2 ^ (n - 1)));
      destruct (Z.eqb_spec (m mod 2 ^ (n - 1)) 0) as [E0 | E0];
      cbn [shr_m shr_r shr_s loc_of_shr_record round_nearest_even negb].
    + replace (2 * (m mod 2 ^ n) ?= 2 ^ n) with Eq
        by (symmetry; apply Z.compare_eq_iff; lia).
      reflexivity.
    + replace (2 * (m mod 2 ^ n) ?= 2 ^ n) with Gt
        by (symmetry; apply Z.compare_gt_iff; lia).
      reflexivity.
    + replace (2 * (m mod 2 ^ n) ?= 2 ^ n) with Lt
        by (symmetry; apply Z.compare_lt_iff; lia).
      reflexivity.
    + replace (2 * (m mod 2 ^ n) ?= 2 ^ n) with Lt
        by (symmetry; apply Z.compare_lt_iff; lia).
      reflexivity.
Qed.

Lemma rne_shift_bounds (m n : Z) :
  0 <= m -> 0 <= n ->
  m / 2 ^ n <= rne_shift m n <= m / 2 ^ n + 1 /\
  2 * m <= 2 * (2 ^ n * rne_shift m n) + 2 ^ n /\
  2 * (2 ^ n * rne_shift m n) <= 2 * m + 2 ^ n.
Proof.
  intros Hm Hn. unfold rne_shift.
  pose proof (pow2_pos n Hn) as Hp.
  pose proof (Z.div_mod m (2 ^ n) ltac:(lia)) as Hdm.
  pose proof (Z.mod_pos_bound m (2 ^ n) Hp) as Hb.
  destruct (Z.compare_spec (2 * (m mod 2 ^ n)) (2 ^ n)) as [E | E | E].
  - destruct (Z.even (m / 2 ^ n)); nia.
  - nia.
  - nia.
Qed.

Lemma rne_shift_exact (m n : Z) :
  0 <= n -> m mod 2 ^ n = 0 -> rne_shift m n = m / 2 ^ n.
Proof.
  intros Hn H. unfold rne_shift. rewrite H.
  pose proof (pow2_pos n Hn).
  replace (2 * 0 ?= 2 ^ n) with Lt by (symmetry; apply Z.compare_lt_iff; lia).
  reflexivity.
Qed.

(** The first [shr_fexp] of [binary_round_aux], off the subnormal range. *)
Lemma shr_fexp_normal (m : positive) (e : Z) :
  0 <= Zpos (digits2_pos m) - 53 ->
  -1074 <= e + (Zpos (digits2_pos m) - 53) ->
  shr_fexp prec emax (Zpos m) e loc_Exact =
  (shr_state (Zpos m) (Zpos (digits2_pos m) - 53),
   e + (Zpos (digits2_pos m) - 53)).
Proof.
  intros Hn He. unfold shr_fexp, fexp, emin, prec, emax, Zdigits2.
  cbn [shr_record_of_loc].
  replace (Z.max (Zpos (digits2_pos m) + e - 53) (3 - 1024 - 53) - e)
    with (Zpos (digits2_pos m) - 53) by lia.
  destruct (Zpos (digits2_pos m) - 53) as [| p | p] eqn:E; cbn [shr].
  - rewrite Z.add_0_r. reflexivity.
  - change (Build_shr_record (Zpos m) false false) with (shr_state (Zpos m) 0).
    rewrite iter_pos_shr_state by lia. reflexivity.
  - lia.
Qed.

(** [binary_round_aux] on a positive mantissa of at least 53 digits, off
    the subnormal range: the mantissa is cut to 53 digits with
    round-to-nearest-even, and renormalised if that reached [2^53]. *)
Lemma binary_round_aux_pos (m : positive) (e : Z) :
  let n := Zpos (digits2_pos m) - 53 in
  let m2 := rne_shift (Zpos m) n in
  0 <= n -> -1074 <= e + n ->
  2 ^ 52 <= m2 <= 2 ^ 53 /\
  binary_round_aux prec emax false (Zpos m) e loc_Exact =
    if m2 <? 2 ^ 53 then
      if e + n <=? 971 then S754_finite false (Z.to_pos m2) (e + n)
      else S754_infinity false
    else
      if e + n + 1 <=? 971 then S754_finite false (Z.to_pos (2 ^ 52)) (e + n + 1)
      else S754_infinity false.
Proof.
  intros n m2 Hn He.
  destruct (digits2_pos_bounds m) as [Hlo Hhi].
  destruct (rne_shift_bounds (Zpos m) n ltac:(lia) Hn) as [[Hq1 Hq2] _].
  fold m2 in Hq1, Hq2.
  assert (Hq : 2 ^ 52 <= Zpos m / 2 ^ n < 2 ^ 53).
  { pose proof (pow2_pos n Hn) as Hp. split.
    - apply Z.div_le_lower_bound; [lia |].
      rewrite <- Z.pow_add_r by lia.
      replace (n + 52) with (Zpos (digits2_pos m) - 1) by (unfold n; lia).
      exact Hlo.
    - apply Z.div_lt_upper_bound; [lia |].
      rewrite <- Z.pow_add_r by lia.
      replace (n + 53) with (Zpos (digits2_pos m)) by (unfold n; lia).
      exact Hhi. }
  assert (Hm2 : 2 ^ 52 <= m2 <= 2 ^ 53) by lia.
  split; [exact Hm2 |].
  unfold binary_round_aux.
  rewrite shr_fexp_normal by (fold n; lia). fold n.
  rewrite round_shr_state by lia. fold m2.
  assert (Hpos : m2 = Zpos (Z.to_pos m2)) by (rewrite Z2Pos.id; lia).
  destruct (Z.ltb_spec m2 (2 ^ 53)) as [Hlt | Hge].
  - assert (Hd : Zpos (digits2_pos (Z.to_pos m2)) = 53).
    { apply digits_unique; [lia |]. rewrite <- Hpos. simpl (53 - 1). lia. }
    rewrite Hpos at 1. rewrite shr_fexp_normal by (rewrite Hd; lia).
    rewrite Hd. change (53 - 53) with 0. rewrite Z.add_0_r.
    unfold shr_state. cbn [Z.eqb shr_m]. unfold prec, emax.
    change (1024 - 53) with 971. reflexivity.
  - assert (E : m2 = 2 ^ 53) by lia.
    rewrite E.
    change (2 ^ 53) with (Zpos (Z.to_pos (2 ^ 53))) at 1.
    rewrite shr_fexp_normal by (vm_compute digits2_pos; lia).
    change (Zpos (digits2_pos (Z.to_pos (2 ^ 53))) - 53) with 1.
    change (shr_m (shr_state (Zpos (Z.to_pos (2 ^ 53))) 1)) with (Zpos (Z.to_pos (2 ^ 52))).
    unfold prec, emax. change (1024 - 53) with 971. reflexivity.
Qed.

(** ** Binary64 arithmetic: error bounds over the rationals *)

Section Binary64Q.

Local Open Scope Q_scope.

Lemma bpow_pos (e : Z) : 0 < 2 ^ e.
Proof. apply Qpower_0_lt. reflexivity. Qed.

Lemma bpow_add (a b : Z) : 2 ^ (a + b) == 2 ^ a * 2 ^ b.
Proof. apply Qpower_plus. discriminate. Qed.

Lemma bpow_Z (n : Z) : (0 <= n)%Z -> inject_Z (2 ^ n) == 2 ^ n.
Proof. intros Hn. now rewrite Zpower_Qpower. Qed.

Lemma bpow_le (a b : Z) : (a <= b)%Z -> 2 ^ a <= 2 ^ b.
Proof. intros H. apply Qpower_le_compat_l; [exact H | discriminate]. Qed.

Lemma Q_scale_le (a b k : Q) : 0 < k -> a <= b -> a * k <= b * k.
Proof. intros Hk H. apply Qmult_le_compat_r; [exact H | lra]. Qed.

Lemma F2Q_pos (m : positive) (e : Z) :
  F2Q (S754_finite false m e) == inject_Z (Zpos m) * 2 ^ e.
Proof. unfold F2Q. ring. Qed.

Lemma binary_round_aux_Q (m : positive) (e : Z) :
  (0 <= Zpos (digits2_pos m) - 53)%Z ->
  (-1074 <= e + (Zpos (digits2_pos m) - 53))%Z ->
  rounds_to (inject_Z (Zpos m) * 2 ^ e)
    (binary_round_aux prec emax false (Zpos m) e loc_Exact)
    (e + (Zpos (digits2_pos m) - 53)).
Proof.
  intros Hn He.
  set (n := (Zpos (digits2_pos m) - 53)%Z) in *.
  destruct (binary_round_aux_pos m e Hn He) as [Hm2 Heq].
  fold n in Hm2, Heq. rewrite Heq. clear Heq.
  set (m2 := rne_shift (Zpos m) n) in *.
  destruct (rne_shift_bounds (Zpos m) n ltac:(lia) Hn) as (_ & Hlo & Hhi).
  fold m2 in Hlo, Hhi.
  destruct (digits2_pos_bounds m) as [Hd _].
  assert (Hp : (2 ^ n * 2 ^ 52 <= Zpos m)%Z).
  { rewrite <- Z.pow_add_r by lia.
    replace (n + 52)%Z with (Zpos (digits2_pos m) - 1)%Z by (unfold n; lia).
    exact Hd. }
  pose proof (pow2_pos n Hn) as Hpn.
  (* the rounded mantissa, scaled back, is within 2^-53 of the mantissa *)
  assert (Hval : inject_Z (Zpos m) * (1 - u53) <= inject_Z (2 ^ n * m2)
                 <= inject_Z (Zpos m) * (1 + u53)).
  { assert (H1 : (2 ^ 53 * Zpos m <= 2 ^ 53 * (2 ^ n * m2) + Zpos m)%Z) by lia.
    assert (H2 : (2 ^ 53 * (2 ^ n * m2) <= 2 ^ 53 * Zpos m + Zpos m)%Z) by lia.
    rewrite Zle_Qle in H1, H2.
    rewrite inject_Z_plus, !inject_Z_mult in H1.
    rewrite inject_Z_plus, !inject_Z_mult in H2.
    rewrite inject_Z_mult. unfold u53.
    change (inject_Z (2 ^ 53)) with (9007199254740992 # 1) in H1, H2.
    lra. }
  assert (Hx : 2 ^ (e + n + 52) <= inject_Z (Zpos m) * 2 ^ e).
  { replace (e + n + 52)%Z with (e + (n + 52))%Z by lia.
    rewrite bpow_add, <- (bpow_Z (n + 52)) by lia.
    rewrite (Qmult_comm (2 ^ e)). apply Q_scale_le; [apply bpow_pos |].
    rewrite <- Zle_Qle. rewrite Z.pow_add_r by lia. exact Hp. }
  assert (Hm2e : inject_Z m2 * 2 ^ (e + n) == inject_Z (2 ^ n * m2) * 2 ^ e).
  { rewrite bpow_add, inject_Z_mult, (bpow_Z n) by lia. ring. }
  pose proof (bpow_pos e) as Hke.
  assert (Hfin : inject_Z (Zpos m) * 2 ^ e * (1 - u53) <= inject_Z m2 * 2 ^ (e + n)
                 <= inject_Z (Zpos m) * 2 ^ e * (1 + u53)).
  { rewrite Hm2e. destruct Hval as [Ha Hb].
    apply (Q_scale_le _ _ (2 ^ e) Hke) in Ha, Hb. split; lra. }
  destruct (Z.ltb_spec m2 (2 ^ 53)) as [Hlt | Hge].
  - destruct (Z.leb_spec (e + n) 971) as [Hle | Hgt].
    + right. exists (Z.to_pos m2), (e + n)%Z. split; [| split].
      * split; [reflexivity |]. rewrite Z2Pos.id by lia. lia.
      * lia.
      * rewrite F2Q_pos, Z2Pos.id by lia. exact Hfin.
    + left. split; [reflexivity |].
      eapply Qle_trans; [| exact Hx]. apply bpow_le. lia.
  - destruct (Z.leb_spec (e + n + 1) 971) as [Hle | Hgt].
    + right. exists (Z.to_pos (2 ^ 52)), (e + n + 1)%Z. split; [| split].
      * split; [reflexivity |]. vm_compute. split; [discriminate | reflexivity].
      * lia.
      * rewrite F2Q_pos.
        assert (E : m2 = (2 ^ 53)%Z) by lia.
        rewrite E in Hfin.
        assert (Hsame : inject_Z (Zpos (Z.to_pos (2 ^ 52))) * 2 ^ (e + n + 1)
                        == inject_Z (2 ^ 53) * 2 ^ (e + n)).
        { rewrite (bpow_add (e + n) 1).
          change (inject_Z (Zpos (Z.to_pos (2 ^ 52)))) with (4503599627370496 # 1).
          change (inject_Z (2 ^ 53)) with (9007199254740992 # 1).
          change (2 ^ 1) with (2 # 1). ring. }
        rewrite Hsame. exact Hfin.
    + left. split; [reflexivity |].
      eapply Qle_trans; [| exact Hx]. apply bpow_le. lia.
Qed.

Lemma rounds_to_compat (x x' : Q) (f : float) (lo lo' : Z) :
  x == x' -> (lo' <= lo)%Z -> rounds_to x f lo -> rounds_to x' f lo'.
Proof.
  intros Hx Hlo [[Hf Hbig] | (m & e & Hf & He & Hb)].
  - left. split; [exact Hf |]. now rewrite <- Hx.
  - right. exists m, e. split; [exact Hf |]. split; [lia |].
    now rewrite <- Hx.
Qed.

Lemma pos_iter_xO (m k : positive) :
  Zpos (Pos.iter xO m k) = (Zpos m * 2 ^ Zpos k)%Z.
Proof.
  induction k as [| k IH] using Pos.peano_ind.
  - simpl. lia.
  - rewrite Pos.iter_succ, Pos2Z.inj_succ, Z.pow_succ_r by lia.
    rewrite (Pos2Z.inj_xO (Pos.iter xO m k)), IH. lia.
Qed.

Lemma digits_shift (m : positive) (k : positive) :
  Zpos (digits2_pos (Pos.iter xO m k)) = (Zpos (digits2_pos m) + Zpos k)%Z.
Proof.
  apply digits_unique; [lia |]. rewrite pos_iter_xO.
  destruct (digits2_pos_bounds m) as [Hlo Hhi].
  replace (Zpos (digits2_pos m) + Zpos k - 1)%Z
    with (Zpos (digits2_pos m) - 1 + Zpos k)%Z by lia.
  rewrite !Z.pow_add_r by lia.
  pose proof (pow2_pos (Zpos k) ltac:(lia)). nia.
Qed.

(** [shl_align] towards a smaller exponent keeps the value. *)
Lemma shl_align_value (m : positive) (e e' : Z) :
  (e' <= e)%Z ->
  snd (shl_align m e e') = e' /\
  Zpos (fst (shl_align m e e')) = (Zpos m * 2 ^ (e - e'))%Z.
Proof.
  intros H. unfold shl_align.
  destruct (e' - e)%Z as [| k | k] eqn:E; simpl fst; simpl snd.
  - replace (e - e')%Z with 0%Z by lia. split; lia.
  - lia.
  - rewrite pos_iter_xO. replace (e - e')%Z with (Zpos k) by lia. split; lia.
Qed.

(** [binary_round], which first aligns a short mantissa to 53 bits. *)
Lemma binary_round_Q (p : positive) (e : Z) :
  (-1074 <= e + (Zpos (digits2_pos p) - 53))%Z ->
  rounds_to (inject_Z (Zpos p) * 2 ^ e) (binary_round prec emax false p e)
    (e + (Zpos (digits2_pos p) - 53)).
Proof.
  intros He. unfold binary_round, fexp, emin. unfold prec at 1 2, emax at 1.
  replace (Z.max (Zpos (digits2_pos p) + e - 53) (3 - 1024 - 53))
    with (e + (Zpos (digits2_pos p) - 53))%Z by lia.
  unfold shl_align.
  destruct (e + (Zpos (digits2_pos p) - 53) - e)%Z as [| k | k] eqn:E.
  - apply binary_round_aux_Q; lia.
  - apply binary_round_aux_Q; lia.
  - pose proof (digits_shift p k) as Hd.
    eapply rounds_to_compat;
      [| | apply (binary_round_aux_Q (Pos.iter xO p k)); rewrite Hd; lia].
    + rewrite pos_iter_xO, inject_Z_mult, (bpow_Z (Zpos k)) by lia.
      replace e with ((e + (Zpos (digits2_pos p) - 53)) + Zpos k)%Z at 2 by lia.
      rewrite (bpow_add _ (Zpos k)). ring.
    + rewrite Hd. lia.
Qed.

(** [float(n)] for a positive int. *)
Lemma of_int_Q (n : Z) :
  (1 <= n)%Z ->
  (of_int n = Raise OverflowError /\ 2 ^ 1023 <= inject_Z n) \/
  (exists f m e, of_int n = OK f /\ pos_float f m e /\ (-52 <= e <= 971)%Z /\
      inject_Z n * (1 - u53) <= F2Q f <= inject_Z n * (1 + u53)).
Proof.
  intros Hn. destruct n as [| p | p]; try lia.
  unfold of_int. cbn [binary_normalize].
  assert (H : rounds_to (inject_Z (Zpos p)) (binary_round prec emax false p 0) (-52)).
  { eapply rounds_to_compat; [| | apply binary_round_Q].
    - change (2 ^ 0) with 1. ring.
    - lia.
    - lia. }
  destruct H as [[Hf Hbig] | (m & e & Hf & He & Hb)].
  - left. rewrite Hf. split; [reflexivity | exact Hbig].
  - right. exists (binary_round prec emax false p 0), m, e.
    destruct Hf as [Hf Hm]. rewrite Hf. repeat split; auto; try lia;
      rewrite <- Hf; apply Hb.
Qed.

(** [x * y] for two positive normal floats. *)
Lemma mul_Q (x y : float) (mx my : positive) (ex ey : Z) :
  pos_float x mx ex -> pos_float y my ey -> (-1126 <= ex + ey)%Z ->
  rounds_to (F2Q x * F2Q y) (mul x y) (ex + ey + 52).
Proof.
  intros [-> Hmx] [-> Hmy] He. unfold mul, SFmul. cbn [xorb].
  assert (Hd : (105 <= Zpos (digits2_pos (mx * my)))%Z).
  { destruct (digits2_pos_bounds (mx * my)) as [_ Hhi].
    rewrite Pos2Z.inj_mul in Hhi.
    assert (104 < Zpos (digits2_pos (mx * my)))%Z; [| lia].
    apply pow2_lt_inv; [lia |].
    change (2 ^ 104)%Z with (2 ^ 52 * 2 ^ 52)%Z. nia. }
  eapply rounds_to_compat; [| | apply binary_round_aux_Q; lia].
  - rewrite !F2Q_pos, Pos2Z.inj_mul, inject_Z_mult, bpow_add. ring.
  - lia.
Qed.

(** [x + y] for two positive normal floats. *)
Lemma add_Q (x y : float) (mx my : positive) (ex ey : Z) :
  pos_float x mx ex -> pos_float y my ey ->
  (-1074 <= ex)%Z -> (-1074 <= ey)%Z ->
  rounds_to (F2Q x + F2Q y) (add x y) (Z.min ex ey).
Proof.
  intros [-> Hmx] [-> Hmy] Hex Hey. unfold add, SFadd. cbn [cond_Zopp].
  set (ez := Z.min ex ey).
  destruct (shl_align_value mx ex ez ltac:(lia)) as [_ Hx].
  destruct (shl_align_value my ey ez ltac:(lia)) as [_ Hy].
  set (ax := fst (shl_align mx ex ez)) in *.
  set (ay := fst (shl_align my ey ez)) in *.
  change (Zpos ax + Zpos ay)%Z with (Zpos (ax + ay)). cbn [binary_normalize].
  pose proof (pow2_pos (ex - ez) ltac:(lia)) as Hpx.
  pose proof (pow2_pos (ey - ez) ltac:(lia)) as Hpy.
  assert (Hd : (53 <= Zpos (digits2_pos (ax + ay)))%Z).
  { destruct (digits2_pos_bounds (ax + ay)) as [_ Hhi].
    rewrite Pos2Z.inj_add, Hx, Hy in Hhi.
    assert (52 < Zpos (digits2_pos (ax + ay)))%Z; [| lia].
    apply pow2_lt_inv; [lia |]. nia. }
  eapply rounds_to_compat; [| | apply binary_round_Q; lia].
  - rewrite !F2Q_pos, Pos2Z.inj_add, inject_Z_plus, Hx, Hy, !inject_Z_mult.
    rewrite (bpow_Z (ex - ez)), (bpow_Z (ey - ez)) by lia.
    assert (Eex : 2 ^ ex == 2 ^ (ex - ez) * 2 ^ ez).
    { rewrite <- bpow_add. now replace (ex - ez + ez)%Z with ex by lia. }
    assert (Eey : 2 ^ ey == 2 ^ (ey - ez) * 2 ^ ez).
    { rewrite <- bpow_add. now replace (ey - ez + ez)%Z with ey by lia. }
    rewrite Eex, Eey. ring.
  - lia.
Qed.

Lemma bpow_neg_inv (p : positive) : 2 ^ Zneg p * 2 ^ Zpos p == 1.
Proof. rewrite <- bpow_add. now replace (Zneg p + Zpos p)%Z with 0%Z by lia. Qed.

Lemma Q_unscale (a k k' : Q) : k' * k == 1 -> a * k * k' == a.
Proof. intros H. rewrite <- Qmult_assoc, (Qmult_comm k k'), H. ring. Qed.

Lemma F2Q_nonneg (f : float) (m : positive) (e : Z) :
  pos_float f m e -> 0 < F2Q f.
Proof.
  intros [-> _]. rewrite F2Q_pos.
  apply Qmult_lt_0_compat; [| apply bpow_pos].
  change 0 with (inject_Z 0). rewrite <- Zlt_Qlt. lia.
Qed.

(** [int(f)] of a positive normal float is its floor. *)
Lemma to_int_Q (f : float) (m : positive) (e : Z) :
  pos_float f m e ->
  exists z, to_int f = OK z /\ inject_Z z <= F2Q f /\ F2Q f < inject_Z z + 1.
Proof.
  intros [-> Hm]. cbn [to_int cond_Zopp]. eexists. split; [reflexivity |].
  rewrite F2Q_pos. destruct e as [| p | p]; cbn [magnitude_trunc].
  - change (2 ^ 0) with 1. split; lra.
  - rewrite inject_Z_mult, (bpow_Z (Zpos p)) by lia. split; lra.
  - pose proof (pow2_pos (Zpos p) ltac:(lia)) as Hp.
    pose proof (Z.div_mod (Zpos m) (2 ^ Zpos p) ltac:(lia)) as Hdm.
    pose proof (Z.mod_pos_bound (Zpos m) (2 ^ Zpos p) Hp) as Hb.
    set (z := (Zpos m / 2 ^ Zpos p)%Z) in *.
    assert (H1 : (z * 2 ^ Zpos p <= Zpos m)%Z) by lia.
    assert (H2 : (Zpos m < (z + 1) * 2 ^ Zpos p)%Z) by lia.
    rewrite Zle_Qle, inject_Z_mult, (bpow_Z (Zpos p)) in H1 by lia.
    rewrite Zlt_Qlt, inject_Z_mult, inject_Z_plus, (bpow_Z (Zpos p)) in H2 by lia.
    pose proof (bpow_pos (Zneg p)) as Hk.
    apply (Q_scale_le _ _ _ Hk) in H1.
    apply (Qmult_lt_compat_r _ _ _ Hk) in H2.
    rewrite (Q_unscale _ _ _ (bpow_neg_inv p)) in H1.
    rewrite (Q_unscale _ _ _ (bpow_neg_inv p)) in H2.
    split; [exact H1 | exact H2].
Qed.

(** [round(f)] of a positive normal float is within one half of it. *)
Lemma round_Q (f : float) (m : positive) (e : Z) :
  pos_float f m e ->
  exists z, round f = OK z /\
    F2Q f - (1 # 2) <= inject_Z z /\ inject_Z z <= F2Q f + (1 # 2).
Proof.
  intros [-> Hm]. cbn [round cond_Zopp]. eexists. split; [reflexivity |].
  rewrite F2Q_pos. destruct e as [| p | p]; cbn [magnitude_round].
  - change (2 ^ 0) with 1. split; lra.
  - rewrite inject_Z_mult, (bpow_Z (Zpos p)) by lia. split; lra.
  - pose proof (pow2_pos (Zpos p) ltac:(lia)) as Hp.
    destruct (rne_shift_bounds (Zpos m) (Zpos p) ltac:(lia) ltac:(lia))
      as (_ & Hlo & Hhi).
    set (z := rne_shift (Zpos m) (Zpos p)) in *.
    assert (H1 : (2 * Zpos m <= (2 * z + 1) * 2 ^ Zpos p)%Z) by lia.
    assert (H2 : (2 * z * 2 ^ Zpos p <= (2 * Zpos m + 2 ^ Zpos p))%Z) by lia.
    rewrite Zle_Qle, !inject_Z_mult, inject_Z_plus, !inject_Z_mult,
      (bpow_Z (Zpos p)) in H1 by lia.
    rewrite Zle_Qle, !inject_Z_mult, inject_Z_plus, !inject_Z_mult,
      (bpow_Z (Zpos p)) in H2 by lia.
    pose proof (bpow_pos (Zneg p)) as Hk.
    apply (Q_scale_le _ _ _ Hk) in H1, H2.
    rewrite (Q_unscale _ _ _ (bpow_neg_inv p)) in H1.
    rewrite (Q_unscale _ _ _ (bpow_neg_inv p)) in H2.
    pose proof (bpow_neg_inv p) as Hinv.
    change (inject_Z 2) with 2 in H1, H2. change (inject_Z 1) with 1 in H1.
    assert (E2 : (2 * inject_Z (Zpos m) + 2 ^ Zpos p) * 2 ^ Zneg p
                 == 2 * (inject_Z (Zpos m) * 2 ^ Zneg p) + 1).
    { rewrite Qmult_plus_distr_l, (Qmult_comm (2 ^ Zpos p)), Hinv. ring. }
    rewrite E2 in H2.
    assert (E1 : 2 * inject_Z (Zpos m) * 2 ^ Zneg p
                 == 2 * (inject_Z (Zpos m) * 2 ^ Zneg p)) by ring.
    rewrite E1 in H1.
    split; lra.
Qed.

Lemma near_of_rounds (x lo hi : Q) (f : float) (e0 e0' : Z) :
  rounds_to x f e0 -> (e0' <= e0)%Z -> 0 <= lo -> lo <= x -> x <= hi ->
  near (lo * (1 - u53)) (hi * (1 + u53)) f e0'.
Proof.
  intros [[Hf Hbig] | (m & e & Hf & He & Hb)] He0 Hlo Hx1 Hx2.
  - left. split; [exact Hf |]. rewrite (bpow_Z 1023) by lia.
    unfold u53. lra.
  - right. exists m, e. split; [exact Hf |]. split; [lia |].
    unfold u53 in *. lra.
Qed.

Lemma mul_near (c D : float) (vc lo hi : Q) (mc mD : positive) (ec eD : Z) :
  pos_float c mc ec -> F2Q c == vc ->
  pos_float D mD eD -> (-1126 <= ec + eD)%Z ->
  0 <= lo -> lo <= F2Q D -> F2Q D <= hi ->
  near (vc * lo * (1 - u53)) (vc * hi * (1 + u53)) (mul c D) (ec + eD + 52).
Proof.
  intros Hc Hvc HD He Hlo H1 H2.
  pose proof (F2Q_nonneg c mc ec Hc) as Hcpos. rewrite Hvc in Hcpos.
  eapply near_of_rounds.
  - eapply rounds_to_compat; [| | exact (mul_Q c D mc mD ec eD Hc HD He)].
    + rewrite Hvc. reflexivity.
    + apply Z.le_refl.
  - lia.
  - apply Qmult_le_0_compat; lra.
  - apply Qmult_le_l; assumption.
  - apply Qmult_le_l; assumption.
Qed.

Lemma add_near (P R : float) (lo1 hi1 lo2 hi2 : Q) (e1 : Z)
    (mR : positive) (eR : Z) :
  near lo1 hi1 P e1 -> pos_float R mR eR ->
  lo2 <= F2Q R -> F2Q R <= hi2 ->
  (-1074 <= e1)%Z -> (-1074 <= eR)%Z -> 0 <= lo1 -> 0 <= lo2 ->
  near ((lo1 + lo2) * (1 - u53)) ((hi1 + hi2) * (1 + u53)) (add P R)
    (Z.min e1 eR).
Proof.
  intros [[-> Hbig] | (m & e & HP & He & Hb)] HR H1 H2 He1 HeR Hlo1 Hlo2.
  - left. destruct HR as [-> _]. split; [reflexivity |].
    assert (Hbig0 : 0 <= inject_Z (2 ^ 1023)).
    { change 0 with (inject_Z 0). rewrite <- Zle_Qle.
      apply Z.pow_nonneg. lia. }
    unfold u53. lra.
  - eapply near_of_rounds.
    + exact (add_Q P R m mR e eR HP HR ltac:(lia) HeR).
    + lia.
    + lra.
    + lra.
    + lra.
Qed.

Lemma add_zero (P : float) (lo hi : Q) (e0 : Z) :
  near lo hi P e0 -> add P (S754_zero false) = P.
Proof.
  intros [[-> _] | (m & e & [-> _] & _)]; reflexivity.
Qed.

Lemma to_int_near (lo hi : Q) (f : float) (e0 : Z) :
  near lo hi f e0 ->
  (to_int f = Raise OverflowError /\ inject_Z (2 ^ 1023) <= hi) \/
  (exists z, to_int f = OK z /\ lo - 1 < inject_Z z /\ inject_Z z <= hi).
Proof.
  intros [[-> Hbig] | (m & e & Hf & He & Hb)].
  - left. split; [reflexivity | exact Hbig].
  - right. destruct (to_int_Q f m e Hf) as (z & Hz & Hz1 & Hz2).
    exists z. split; [exact Hz |]. split; lra.
Qed.

Lemma round_near (lo hi : Q) (f : float) (e0 : Z) :
  near lo hi f e0 ->
  (round f = Raise OverflowError /\ inject_Z (2 ^ 1023) <= hi) \/
  (exists z, round f = OK z /\
     lo - (1 # 2) <= inject_Z z /\ inject_Z z <= hi + (1 # 2)).
Proof.
  intros [[-> Hbig] | (m & e & Hf & He & Hb)].
  - left. split; [reflexivity | exact Hbig].
  - right. destruct (round_Q f m e Hf) as (z & Hz & Hz1 & Hz2).
    exists z. split; [exact Hz |]. split; lra.
Qed.

(** *** The three shapes of arithmetic in the program *)

Section OnAConvertedDpi.

(** [D] is [float(dpi)], for a [dpi] whose rational value is [N]. *)
Variables (D : float) (mD : positive) (eD : Z) (N : Q).
Hypothesis HD : pos_float D mD eD.
Hypothesis HeD : (-52 <= eD)%Z.
Hypothesis HN : 0 <= N.
Hypothesis HDlo : N * (1 - u53) <= F2Q D.
Hypothesis HDhi : F2Q D <= N * (1 + u53).

(** A positive normal literal [c] of value [vc]. *)
Variables (c : float) (mc : positive) (ec : Z) (vc : Q).
Hypothesis Hc : pos_float c mc ec.
Hypothesis Hec : (-100 <= ec)%Z.
Hypothesis Hvc : F2Q c == vc.

Lemma times_near : near (vc * (N * (1 - u53)) * (1 - u53)) (vc * (N * (1 + u53)) * (1 + u53)) (mul c D) (-152).
Proof.
  destruct (mul_near c D vc (N * (1 - u53)) (N * (1 + u53)) mc mD ec eD
              Hc Hvc HD ltac:(lia) ltac:(unfold u53; lra) HDlo HDhi)
    as [H | (m & e & Hf & He & Hb)].
  - left. exact H.
  - right. exists m, e. split; [exact Hf |]. split; [lia | exact Hb].
Qed.

Lemma times_lo_nonneg : 0 <= (vc * (N * (1 - u53)) * (1 - u53)).
Proof.
  pose proof (F2Q_nonneg c mc ec Hc) as Hcpos. rewrite Hvc in Hcpos.
  repeat apply Qmult_le_0_compat; unfold u53; lra.
Qed.

Lemma times_lo_le_hi : (vc * (N * (1 - u53)) * (1 - u53)) <= (vc * (N * (1 + u53)) * (1 + u53)).
Proof.
  pose proof (F2Q_nonneg c mc ec Hc) as Hcpos. rewrite Hvc in Hcpos.
  apply Qle_trans with (vc * (N * (1 + u53)) * (1 - u53)).
  - apply Qmult_le_compat_r; [| unfold u53; lra].
    apply Qmult_le_l; [exact Hcpos | unfold u53; lra].
  - assert (0 <= vc * (N * (1 + u53))).
    { apply Qmult_le_0_compat; [lra |].
      apply Qmult_le_0_compat; unfold u53; lra. }
    unfold u53 in *. lra.
Qed.

(** [int(c * dpi)] *)
Lemma int_times :
  (to_int (mul c D) = Raise OverflowError /\ inject_Z (2 ^ 1023) <= (vc * (N * (1 + u53)) * (1 + u53))) \/
  (exists z, to_int (mul c D) = OK z /\
     (vc * (N * (1 - u53)) * (1 - u53)) - 1 < inject_Z z /\ inject_Z z <= (vc * (N * (1 + u53)) * (1 + u53))).
Proof. exact (to_int_near _ _ _ _ times_near). Qed.

(** [round(c * dpi)] *)
Lemma round_times :
  (round (mul c D) = Raise OverflowError /\ inject_Z (2 ^ 1023) <= (vc * (N * (1 + u53)) * (1 + u53))) \/
  (exists z, round (mul c D) = OK z /\
     (vc * (N * (1 - u53)) * (1 - u53)) - (1 # 2) <= inject_Z z /\ inject_Z z <= (vc * (N * (1 + u53)) * (1 + u53)) + (1 # 2)).
Proof. exact (round_near _ _ _ _ times_near). Qed.

(** [int(c * dpi + r)] for an int [r >= 0] *)
Lemma int_times_plus (r : Z) :
  (0 <= r)%Z ->
  (exists e, (s <- add_int (mul c D) r ;; to_int s) = Raise e /\
     (inject_Z (2 ^ 1023) <= inject_Z r \/
      inject_Z (2 ^ 1023) <= ((vc * (N * (1 + u53)) * (1 + u53)) + inject_Z r * (1 + u53)) * (1 + u53))) \/
  (exists z, (s <- add_int (mul c D) r ;; to_int s) = OK z /\
     ((vc * (N * (1 - u53)) * (1 - u53)) + inject_Z r * (1 - u53)) * (1 - u53) - 1 < inject_Z z /\
     inject_Z z <= ((vc * (N * (1 + u53)) * (1 + u53)) + inject_Z r * (1 + u53)) * (1 + u53)).
Proof.
  intros Hr. pose proof times_near as Hnear.
  pose proof times_lo_nonneg as Hlo0. pose proof times_lo_le_hi as Hlh.
  assert (Hbig0 : 0 <= inject_Z (2 ^ 1023)).
  { change 0 with (inject_Z 0). rewrite <- Zle_Qle.
    apply Z.pow_nonneg. lia. }
  destruct (Z.eq_dec r 0) as [-> | Hr0].
  - (* r = 0: the sum is the product itself *)
    unfold add_int. change (of_int 0) with (OK (S754_zero false)).
    cbn [bind]. rewrite (add_zero _ _ _ _ Hnear).
    change (inject_Z 0) with 0.
    destruct (to_int_near _ _ _ _ Hnear) as [[Hz Hbig] | (z & Hz & Hz1 & Hz2)].
    + left. exists OverflowError. split; [exact Hz |]. right.
      unfold u53 in *. lra.
    + right. exists z. split; [exact Hz |]. unfold u53 in *. split; lra.
  - destruct (of_int_Q r ltac:(lia))
      as [[HR Hbig] | (R & mR & eR & HR & HRf & HeR & HRlo & HRhi)].
    + left. exists OverflowError. unfold add_int. rewrite HR.
      split; [reflexivity |]. left. rewrite <- (bpow_Z 1023) in Hbig by lia.
      exact Hbig.
    + unfold add_int. rewrite HR. cbn [bind].
      assert (Hrq : 0 <= inject_Z r).
      { change 0 with (inject_Z 0). rewrite <- Zle_Qle. exact Hr. }
      pose proof (add_near (mul c D) R (vc * (N * (1 - u53)) * (1 - u53)) (vc * (N * (1 + u53)) * (1 + u53)) (inject_Z r * (1 - u53))
                    (inject_Z r * (1 + u53)) (-152) mR eR Hnear HRf
                    HRlo HRhi ltac:(lia) ltac:(lia) Hlo0
                    ltac:(unfold u53; lra)) as Hsum.
      destruct (to_int_near _ _ _ _ Hsum) as [[Hz Hbig] | (z & Hz & Hz1 & Hz2)].
      * left. exists OverflowError. split; [exact Hz |]. right. exact Hbig.
      * right. exists z. split; [exact Hz |]. split; assumption.
Qed.

End OnAConvertedDpi.

(** *** The literals of the source as binary64 numbers *)

Ltac literal_value :=
  split; [split; [vm_compute; reflexivity
                 | vm_compute; split; [discriminate | reflexivity]]
         | vm_compute; reflexivity].

Lemma f_2_5_value : pos_float f_2_5 5629499534213120 (-51) /\ F2Q f_2_5 == 5 # 2.
Proof. literal_value. Qed.

Lemma f_3_5_value : pos_float f_3_5 7881299347898368 (-51) /\ F2Q f_3_5 == 7 # 2.
Proof. literal_value. Qed.

Lemma f_8_5_value : pos_float f_8_5 4785074604081152 (-49) /\ F2Q f_8_5 == 17 # 2.
Proof. literal_value. Qed.

Lemma f_0_5_value : pos_float f_0_5 4503599627370496 (-53) /\ F2Q f_0_5 == 1 # 2.
Proof. literal_value. Qed.

Lemma f_5_5_value : pos_float f_5_5 6192449487634432 (-50) /\ F2Q f_5_5 == 11 # 2.
Proof. literal_value. Qed.

Lemma f_0_25_value : pos_float f_0_25 4503599627370496 (-54) /\ F2Q f_0_25 == 1 # 4.
Proof. literal_value. Qed.

Lemma f_3_75_value : pos_float f_3_75 8444249301319680 (-51) /\ F2Q f_3_75 == 15 # 4.
Proof. literal_value. Qed.

Lemma f_7_25_value : pos_float f_7_25 8162774324609024 (-50) /\ F2Q f_7_25 == 29 # 4.
Proof. literal_value. Qed.

Lemma f_0_01_value : pos_float f_0_01 5764607523034235 (-59) /\ F2Q f_0_01 == 5764607523034235 # 576460752303423488.
Proof. literal_value. Qed.

Lemma f_0_02_value : pos_float f_0_02 5764607523034235 (-58) /\ F2Q f_0_02 == 5764607523034235 # 288230376151711744.
Proof. literal_value. Qed.

(** *** The layout numbers of a [dpi] *)

Lemma big_1023 : inject_Z (2 ^ 1023) == 16 * inject_Z (2 ^ 1019).
Proof.
  change (2 ^ 1023)%Z with (16 * 2 ^ 1019)%Z. rewrite inject_Z_mult.
  reflexivity.
Qed.

Lemma nonneg_of_Q (z : Z) (q : Q) : q <= inject_Z z -> -1 < q -> (0 <= z)%Z.
Proof.
  intros H1 H2. assert (H : inject_Z (-1) < inject_Z z).
  { change (inject_Z (-1)) with (-1). lra. }
  rewrite <- Zlt_Qlt in H. lia.
Qed.

(** For a [dpi] of at least 1, the sizes and the two coordinate tables
    are computed, with the bounds of [layout_of], as soon as [dpi] is
    below [2^1019] or none of the three computations raises. *)
Lemma layout_analysis (n : Z) :
  (1 <= n)%Z ->
  (n < 2 ^ 1019)%Z \/
  ((exists s, cell_size n = OK s) /\ (exists xs, xcords n = OK xs) /\
   (exists ys, ycords n = OK ys)) ->
  exists wd ht x0 r1 r2 x2 y0 y1 y2,
    layout_of n wd ht x0 r1 r2 x2 y0 y1 y2.
Proof.
  intros Hn Hcase.
  assert (HN : 1 <= inject_Z n).
  { change 1 with (inject_Z 1). now rewrite <- Zle_Qle. }
  pose proof big_1023 as Hbig.
  assert (HP19 : 0 < inject_Z (2 ^ 1019)).
  { change 0 with (inject_Z 0). rewrite <- Zlt_Qlt.
    apply Z.pow_pos_nonneg; lia. }
  assert (Hsmall : (n < 2 ^ 1019)%Z -> inject_Z n < inject_Z (2 ^ 1019)).
  { intros H. now rewrite <- Zlt_Qlt. }
  destruct (of_int_Q n Hn)
    as [[HofD HNbig] | (D & mD & eD & HofD & HD & HeD & HDlo & HDhi)].
  { (* float(dpi) overflows *)
    exfalso. destruct Hcase as [Hlt | ([s Hs] & _)].
    - apply Hsmall in Hlt. rewrite <- (bpow_Z 1023) in HNbig by lia. lra.
    - unfold cell_size, mul_int in Hs. rewrite HofD in Hs. discriminate Hs. }
  pose proof (int_times D mD eD (inject_Z n) HD ltac:(lia) ltac:(lra) HDlo HDhi)
    as Hint.
  pose proof (round_times D mD eD (inject_Z n) HD ltac:(lia) ltac:(lra) HDlo HDhi)
    as Hround.
  pose proof (int_times_plus D mD eD (inject_Z n) HD ltac:(lia) ltac:(lra) HDlo HDhi)
    as Hplus.
  destruct f_2_5_value as [L25 V25]. destruct f_3_5_value as [L35 V35].
  destruct f_0_5_value as [L05 V05]. destruct f_5_5_value as [L55 V55].
  destruct f_0_25_value as [L025 V025]. destruct f_3_75_value as [L375 V375].
  destruct f_7_25_value as [L725 V725]. destruct f_0_01_value as [L001 V001].
  destruct f_0_02_value as [L002 V002].
  assert (Hcell : cell_size n =
            (w <- to_int (mul f_2_5 D) ;; h <- to_int (mul f_3_5 D) ;; OK (w, h))).
  { unfold cell_size, mul_int. now rewrite HofD. }
  assert (Hg1 : gap1 n = round (mul f_0_01 D)).
  { unfold gap1, mul_int. now rewrite HofD. }
  assert (Hg2 : gap2 n = round (mul f_0_02 D)).
  { unfold gap2, mul_int. now rewrite HofD. }
  assert (Hxs : xcords n =
            (x0 <- to_int (mul f_0_5 D) ;;
             x1 <- (r <- gap1 n ;; OK (3 * n + r)%Z) ;;
             x2 <- (r <- gap2 n ;; s <- add_int (mul f_5_5 D) r ;; to_int s) ;;
             OK [x0; x1; x2])).
  { unfold xcords, mul_int. now rewrite HofD. }
  assert (Hys : ycords n =
            (y0 <- to_int (mul f_0_25 D) ;;
             y1 <- (r <- gap1 n ;; s <- add_int (mul f_3_75 D) r ;; to_int s) ;;
             y2 <- (r <- gap2 n ;; s <- add_int (mul f_7_25 D) r ;; to_int s) ;;
             OK [y0; y1; y2])).
  { unfold ycords, mul_int. now rewrite HofD. }
  (* the width and the height of a cell *)
  destruct (Hint _ _ _ _ L25 ltac:(lia) V25) as [[E B] | (wd & Ewd & Bwd)].
  { exfalso. destruct Hcase as [Hlt | ([s Hs] & _)].
    - apply Hsmall in Hlt. unfold u53 in *. lra.
    - rewrite Hcell, E in Hs. discriminate Hs. }
  destruct (Hint _ _ _ _ L35 ltac:(lia) V35) as [[E B] | (ht & Eht & Bht)].
  { exfalso. destruct Hcase as [Hlt | ([s Hs] & _)].
    - apply Hsmall in Hlt. unfold u53 in *. lra.
    - rewrite Hcell, Ewd, E in Hs. discriminate Hs. }
  (* the two gaps *)
  destruct (Hround _ _ _ _ L001 ltac:(lia) V001) as [[E B] | (r1 & Er1 & Br1)].
  { exfalso. destruct Hcase as [Hlt | (_ & _ & [ys Hy])].
    - apply Hsmall in Hlt. unfold u53 in *. lra.
    - rewrite Hys, Hg1, E in Hy.
      destruct (to_int (mul f_0_25 D)); discriminate Hy. }
  destruct (Hround _ _ _ _ L002 ltac:(lia) V002) as [[E B] | (r2 & Er2 & Br2)].
  { exfalso. destruct Hcase as [Hlt | (_ & _ & [ys Hy])].
    - apply Hsmall in Hlt. unfold u53 in *. lra.
    - rewrite Hys, Hg1, Hg2, Er1, E in Hy.
      destruct (to_int (mul f_0_25 D)); [| discriminate Hy]. cbn [bind] in Hy.
      destruct (bind (add_int _ r1) _); discriminate Hy. }
  assert (Hr1 : (0 <= r1)%Z).
  { apply (nonneg_of_Q _ _ (proj1 Br1)). unfold u53. lra. }
  assert (Hr2 : (0 <= r2)%Z).
  { apply (nonneg_of_Q _ _ (proj1 Br2)). unfold u53. lra. }
  rewrite <- Hg1 in Er1. rewrite <- Hg2 in Er2.
  rewrite Er1, Er2 in Hxs, Hys. cbn [bind] in Hxs, Hys.
  (* the columns *)
  destruct (Hint _ _ _ _ L05 ltac:(lia) V05) as [[E B] | (x0 & Ex0 & Bx0)].
  { exfalso. destruct Hcase as [Hlt | (_ & [xs Hx] & _)].
    - apply Hsmall in Hlt. unfold u53 in *. lra.
    - rewrite Hxs, E in Hx. discriminate Hx. }
  destruct (Hplus _ _ _ _ L55 ltac:(lia) V55 r2 Hr2)
    as [(e & E & B) | (x2 & Ex2 & Bx2)].
  { exfalso. destruct Hcase as [Hlt | (_ & [xs Hx] & _)].
    - apply Hsmall in Hlt. unfold u53 in *. destruct B; lra.
    - rewrite Hxs, Ex0, E in Hx. discriminate Hx. }
  (* the rows *)
  destruct (Hint _ _ _ _ L025 ltac:(lia) V025) as [[E B] | (y0 & Ey0 & By0)].
  { exfalso. destruct Hcase as [Hlt | (_ & _ & [ys Hy])].
    - apply Hsmall in Hlt. unfold u53 in *. lra.
    - rewrite Hys, E in Hy. discriminate Hy. }
  destruct (Hplus _ _ _ _ L375 ltac:(lia) V375 r1 Hr1)
    as [(e & E & B) | (y1 & Ey1 & By1)].
  { exfalso. destruct Hcase as [Hlt | (_ & _ & [ys Hy])].
    - apply Hsmall in Hlt. unfold u53 in *. destruct B; lra.
    - rewrite Hys, Ey0, E in Hy. discriminate Hy. }
  destruct (Hplus _ _ _ _ L725 ltac:(lia) V725 r2 Hr2)
    as [(e & E & B) | (y2 & Ey2 & By2)].
  { exfalso. destruct Hcase as [Hlt | (_ & _ & [ys Hy])].
    - apply Hsmall in Hlt. unfold u53 in *. destruct B; lra.
    - rewrite Hys, Ey0, Ey1, E in Hy. discriminate Hy. }
  exists wd, ht, x0, r1, r2, x2, y0, y1, y2.
  constructor; try assumption.
  - rewrite Hcell, Ewd, Eht. reflexivity.
  - rewrite Hxs, Ex0, Ex2. reflexivity.
  - rewrite Hys, Ey0, Ey1, Ey2. reflexivity.
Qed.

Lemma page_size_analysis (n : Z) :
  (1 <= n)%Z ->
  (n < 2 ^ 1019)%Z \/ (exists s, page_size n = OK s) ->
  exists pw, page_size n = OK (pw, (11 * n)%Z) /\ within_times (17 # 2) n pw.
Proof.
  intros Hn Hcase.
  assert (HN : 1 <= inject_Z n).
  { change 1 with (inject_Z 1). now rewrite <- Zle_Qle. }
  pose proof big_1023 as Hbig.
  assert (HP19 : 0 < inject_Z (2 ^ 1019)).
  { change 0 with (inject_Z 0). rewrite <- Zlt_Qlt.
    apply Z.pow_pos_nonneg; lia. }
  assert (Hsmall : (n < 2 ^ 1019)%Z -> inject_Z n < inject_Z (2 ^ 1019)).
  { intros H. now rewrite <- Zlt_Qlt. }
  destruct (of_int_Q n Hn)
    as [[HofD HNbig] | (D & mD & eD & HofD & HD & HeD & HDlo & HDhi)].
  { exfalso. destruct Hcase as [Hlt | [s Hs]].
    - apply Hsmall in Hlt. rewrite <- (bpow_Z 1023) in HNbig by lia. lra.
    - unfold page_size, mul_int in Hs. rewrite HofD in Hs. discriminate Hs. }
  assert (Hpage : page_size n =
            (w <- to_int (mul f_8_5 D) ;; OK (w, (11 * n)%Z))).
  { unfold page_size, mul_int. now rewrite HofD. }
  destruct f_8_5_value as [L85 V85].
  destruct (int_times D mD eD (inject_Z n) HD ltac:(lia) ltac:(lra) HDlo HDhi
              _ _ _ _ L85 ltac:(lia) V85) as [[E B] | (pw & Epw & Bpw)].
  { exfalso. destruct Hcase as [Hlt | [s Hs]].
    - apply Hsmall in Hlt. unfold u53 in *. lra.
    - rewrite Hpage, E in Hs. discriminate Hs. }
  exists pw. split; [| exact Bpw]. rewrite Hpage, Epw. reflexivity.
Qed.

(** From [dpi = 1000] on, the gap [round(.01 * dpi)] outweighs every
    rounding error: each pitch is at least the side of the cell. *)
Lemma pitch_of_layout (n wd ht x0 r1 r2 x2 y0 y1 y2 : Z) :
  (1000 <= n)%Z ->
  layout_of n wd ht x0 r1 r2 x2 y0 y1 y2 ->
  (1 <= wd /\ 1 <= ht /\
   x0 + wd <= 3 * n + r1 /\ (3 * n + r1) + wd <= x2 /\
   y0 + ht <= y1 /\ y1 + ht <= y2)%Z.
Proof.
  intros Hn [_ _ _ _ _ [W1 W2] [H1 H2] [X01 X02] [R11 R12] [R21 R22]
               [X21 X22] [Y01 Y02] [Y11 Y12] [Y21 Y22]].
  assert (HN : 1000 <= inject_Z n).
  { change 1000 with (inject_Z 1000). now rewrite <- Zle_Qle. }
  unfold u53 in *.
  repeat split; apply Z.lt_succ_r; unfold Z.succ; rewrite Zlt_Qlt;
    rewrite ?inject_Z_plus, ?inject_Z_mult;
    change (inject_Z 1) with 1; change (inject_Z 3) with 3; lra.
Qed.

End Binary64Q.

Lemma xcords_shape (n : Z) (xs : list Z) :
  xcords n = OK xs -> exists x0 x1 x2, xs = [x0; x1; x2].
Proof.
  unfold xcords. intros H.
  apply bind_OK in H. destruct H as (x0 & _ & H).
  apply bind_OK in H. destruct H as (x1 & _ & H).
  apply bind_OK in H. destruct H as (x2 & _ & H).
  exists x0, x1, x2. congruence.
Qed.

Lemma ycords_shape (n : Z) (ys : list Z) :
  ycords n = OK ys -> exists y0 y1 y2, ys = [y0; y1; y2].
Proof.
  unfold ycords. intros H.
  apply bind_OK in H. destruct H as (y0 & _ & H).
  apply bind_OK in H. destruct H as (y1 & _ & H).
  apply bind_OK in H. destruct H as (y2 & _ & H).
  exists y0, y1, y2. congruence.
Qed.


(** ** [generate_images], characterised *)

Lemma new_background_inv (w : World) (args : arguments) (i : Z) (c : Canvas) :
  new_background w args i = OK c ->
  exists sz, page_size (dpi args) = OK sz /\ c = blank_page sz /\
             0 <= fst sz <= INT_MAX /\ 0 <= snd sz <= INT_MAX /\
             Image_storage w i "RGB" sz = OK tt.
Proof.
  unfold new_background, Image_new. intros H.
  apply bind_OK in H. destruct H as (sz & Hsz & H).
  exists sz. split; [exact Hsz |].
  destruct (fst sz <? 0) eqn:E1; [discriminate H |].
  destruct (snd sz <? 0) eqn:E2; [discriminate H |].
  destruct (INT_MAX <? fst sz) eqn:E3; [discriminate H |].
  destruct (INT_MAX <? snd sz) eqn:E4; [discriminate H |].
  cbn [orb] in H.
  destruct (Image_storage w i "RGB" sz) as [[] |]; [| discriminate H].
  cbn [bind] in H. injection H as <-.
  apply Z.ltb_ge in E1, E2, E3, E4. auto.
Qed.

Lemma new_background_OK (w : World) (args : arguments) (i : Z) (sz : Z * Z) :
  page_size (dpi args) = OK sz ->
  0 <= fst sz <= INT_MAX -> 0 <= snd sz <= INT_MAX ->
  Image_storage w i "RGB" sz = OK tt ->
  new_background w args i = OK (blank_page sz).
Proof.
  intros Hsz [H1 H3] [H2 H4] Hst.
  unfold new_background, Image_new. rewrite Hsz. cbn [bind].
  apply Z.ltb_ge in H1, H2, H3, H4. rewrite H1, H2, H3, H4. cbn [orb].
  now rewrite Hst.
Qed.

Lemma generate_images_OK (w : World) (fileslist : list Image)
    (args : arguments) (sz : Z * Z) (xs ys : list Z) :
  (forall j, (j < pages_needed (List.length fileslist))%nat ->
             new_background w args (Z.of_nat j) = OK (blank_page sz)) ->
  xcords (dpi args) = OK xs ->
  ycords (dpi args) = OK ys ->
  new_backgrounds w args (- (- Z.of_nat (List.length fileslist) / 9)) =
    OK (repeat (blank_page sz) (pages_needed (List.length fileslist))) /\
  generate_images w fileslist args =
    OK (map (fun p => page_with sz (page_content fileslist xs ys p))
          (seq 0 (pages_needed (List.length fileslist)))).
Proof.
  intros Hbg Hxs Hys.
  assert (Hnew : new_backgrounds w args
                   (- (- Z.of_nat (List.length fileslist) / 9)) =
                 OK (repeat (blank_page sz) (pages_needed (List.length fileslist)))).
  { rewrite neg_floor_div_9. now apply new_backgrounds_OK. }
  split; [exact Hnew |].
  unfold generate_images. rewrite Hnew, Hxs, Hys. cbn [bind].
  destruct (xcords_shape _ _ Hxs) as (x0 & x1 & x2 & ->).
  destruct (ycords_shape _ _ Hys) as (y0 & y1 & y2 & ->).
  rewrite <- (pages_after_0 fileslist sz [x0; x1; x2] [y0; y1; y2]).
  rewrite paste_loop by (simpl; lia).
  now rewrite pages_after_all.
Qed.

Lemma pages_needed_pos (n : nat) : (0 < n)%nat -> (0 < pages_needed n)%nat.
Proof. pose proof (pages_needed_is_ceiling n). lia. Qed.

Lemma generate_images_inv (w : World) (fileslist : list Image)
    (args : arguments) (pages : list Canvas) :
  generate_images w fileslist args = OK pages ->
  exists sz xs ys,
    (fileslist <> [] ->
     page_size (dpi args) = OK sz /\
     0 <= fst sz <= INT_MAX /\ 0 <= snd sz <= INT_MAX) /\
    xcords (dpi args) = OK xs /\ ycords (dpi args) = OK ys /\
    new_backgrounds w args (- (- Z.of_nat (List.length fileslist) / 9)) =
      OK (repeat (blank_page sz) (pages_needed (List.length fileslist))) /\
    pages = map (fun p => page_with sz (page_content fileslist xs ys p))
              (seq 0 (pages_needed (List.length fileslist))).
Proof.
  intros Hgen. pose proof Hgen as H. unfold generate_images in H.
  apply bind_OK in H. destruct H as (bgs & Hbgs & H).
  apply bind_OK in H. destruct H as (xs & Hxs & H).
  apply bind_OK in H. destruct H as (ys & Hys & _).
  rewrite neg_floor_div_9 in Hbgs.
  pose proof (new_backgrounds_inv _ _ _ _ Hbgs) as Hcalls.
  assert (Hsz : exists sz,
             (fileslist <> [] ->
              page_size (dpi args) = OK sz /\
              0 <= fst sz <= INT_MAX /\ 0 <= snd sz <= INT_MAX) /\
             forall j, (j < pages_needed (List.length fileslist))%nat ->
                       new_background w args (Z.of_nat j) = OK (blank_page sz)).
  { destruct fileslist as [| img l].
    - exists (0, 0). split; [congruence |]. intros j Hj.
      unfold pages_needed in Hj. cbn in Hj. lia.
    - destruct (Hcalls 0%nat) as [c0 Hc0].
      { apply pages_needed_pos. cbn [List.length]. lia. }
      destruct (new_background_inv _ _ _ _ Hc0) as (sz & Hp & _ & Hf & Hs & _).
      exists sz. split; [auto |]. intros j Hj.
      destruct (Hcalls j Hj) as [c Hc]. rewrite Hc.
      destruct (new_background_inv _ _ _ _ Hc) as (sz' & Hp' & -> & _).
      congruence. }
  destruct Hsz as (sz & Hpage & Hall).
  destruct (generate_images_OK w fileslist args sz xs ys Hall Hxs Hys)
    as [Hnew Hok].
  exists sz, xs, ys. repeat split; auto; try apply Hpage; auto; congruence.
Qed.


(** Every paste of a page is the paste of one image of the list: the one
    at index [9 * p + j] for the j-th paste of page p. *)
Lemma pastes_come_from_the_list (fileslist : list Image) (xs ys : list Z)
    (p j : nat) (img : Image) (xy : Z * Z) :
  nth_error (page_content fileslist xs ys p) j = Some (img, xy) ->
  (j < 9)%nat /\ nth_error fileslist (9 * p + j) = Some img /\
  xy = cell_position xs ys j.
Proof.
  unfold page_content. rewrite nth_error_combine, nth_error_skipn.
  destruct (nth_error fileslist (9 * p + j)) as [img' |]; [| discriminate].
  destruct (nth_error (cells xs ys) j) as [xy' |] eqn:Hc; [| discriminate].
  intros H. injection H as <- <-.
  assert (Hj : (j < 9)%nat).
  { assert (H9 : List.length (cells xs ys) = 9%nat)
      by (unfold cells; now rewrite length_map, length_seq).
    rewrite <- H9. apply nth_error_Some. congruence. }
  rewrite (nth_error_cells xs ys j Hj) in Hc. injection Hc as <-. auto.
Qed.

Section PositiveSizes.

Local Open Scope Q_scope.

Lemma positive_of_within_times (vc : Q) (n z : Z) :
  (1 <= n)%Z -> 2 <= vc -> within_times vc n z -> (1 <= z)%Z.
Proof.
  intros Hn Hvc [Hlo _].
  assert (HN : 1 <= inject_Z n).
  { change 1 with (inject_Z 1). now rewrite <- Zle_Qle. }
  assert (H : vc * (1 * (1 - u53)) <= vc * (inject_Z n * (1 - u53))).
  { apply Qmult_le_l; [lra |]. unfold u53. lra. }
  assert (H' : 2 * ((1 - u53) * (1 - u53)) <= vc * (1 * (1 - u53)) * (1 - u53)).
  { setoid_replace (vc * (1 * (1 - u53)) * (1 - u53))
      with (vc * ((1 - u53) * (1 - u53))) by ring.
    apply Qmult_le_compat_r; [exact Hvc | unfold u53; lra]. }
  assert (Hz : inject_Z 0 < inject_Z z).
  { change (inject_Z 0) with 0.
    assert (vc * (1 * (1 - u53)) * (1 - u53)
            <= vc * (inject_Z n * (1 - u53)) * (1 - u53)).
    { apply Qmult_le_compat_r; [exact H | unfold u53; lra]. }
    unfold u53 in *. lra. }
  rewrite <- Zlt_Qlt in Hz. lia.
Qed.

End PositiveSizes.

(** Below [2^1019] nothing overflows: the sizes and both tables are
    computed, and the sizes are positive. *)
Lemma layout_succeeds (d : Z) :
  1 <= d < 2 ^ 1019 ->
  exists wd ht pw xs ys,
    cell_size d = OK (wd, ht) /\ 1 <= wd /\ 1 <= ht /\
    page_size d = OK (pw, 11 * d) /\ 1 <= pw /\
    xcords d = OK xs /\ ycords d = OK ys.
Proof.
  intros [Hd1 Hd2].
  destruct (layout_analysis d Hd1 (or_introl Hd2))
    as (wd & ht & x0 & r1 & r2 & x2 & y0 & y1 & y2 & Hlay).
  destruct (page_size_analysis d Hd1 (or_introl Hd2)) as (pw & Hpage & Hpw).
  destruct Hlay as [Hc _ _ Hx Hy Hwd Hht _ _ _ _ _ _ _].
  exists wd, ht, pw, [x0; 3 * d + r1; x2], [y0; y1; y2].
  repeat split; auto.
  - apply (positive_of_within_times (5 # 2) d); [exact Hd1 | | exact Hwd].
    unfold Qle. simpl. lia.
  - apply (positive_of_within_times (7 # 2) d); [exact Hd1 | | exact Hht].
    unfold Qle. simpl. lia.
  - apply (positive_of_within_times (17 # 2) d); [exact Hd1 | | exact Hpw].
    unfold Qle. simpl. lia.
Qed.

(** ** A [dpi] that is not positive *)

Lemma binary_round_aux_sign (s : bool) (m e : Z) (l : location) :
  match binary_round_aux prec emax s m e l with
  | S754_zero s' | S754_infinity s' | S754_finite s' _ _ => s' = s
  | S754_nan => True
  end.
Proof.
  unfold binary_round_aux.
  destruct (shr_fexp prec emax m e l) as [mrs' e'].
  destruct (shr_fexp prec emax _ e' loc_Exact) as [mrs'' e''].
  destruct (shr_m mrs''); [reflexivity | | exact I].
  destruct (e'' <=? emax - prec); reflexivity.
Qed.

Lemma magnitude_trunc_nonneg (m : positive) (e : Z) : 0 <= magnitude_trunc m e.
Proof.
  destruct e as [| p | p]; cbn [magnitude_trunc].
  - lia.
  - apply Z.mul_nonneg_nonneg; [lia |]. apply Z.pow_nonneg. lia.
  - apply Z.div_pos; [lia |]. apply Z.pow_pos_nonneg; lia.
Qed.

(** [int(c * dpi)] is not positive when [dpi] is not. *)
Lemma to_int_times_nonpositive (mc : positive) (ec : Z) (d z : Z) :
  d <= 0 ->
  (x <- mul_int (S754_finite false mc ec) d ;; to_int x) = OK z ->
  z <= 0.
Proof.
  intros Hd. unfold mul_int, of_int.
  destruct d as [| p | p]; [| lia |].
  - cbn. intros H. injection H as <-. lia.
  - cbn [binary_normalize]. unfold binary_round.
    destruct (shl_align p 0 _) as [mz ez].
    pose proof (binary_round_aux_sign true (Zpos mz) ez loc_Exact) as Hs.
    destruct (binary_round_aux prec emax true (Zpos mz) ez loc_Exact)
      as [s | s | | s mx ex]; cbn [bind]; try discriminate.
    + subst s. cbn. intros H. injection H as <-. lia.
    + subst s. unfold mul, SFmul. cbn [xorb].
      pose proof (binary_round_aux_sign true (Zpos (mc * mx)) (ec + ex) loc_Exact)
        as Hs.
      destruct (binary_round_aux prec emax true (Zpos (mc * mx)) (ec + ex) loc_Exact)
        as [s | s | | s m' e']; cbn [to_int]; try discriminate.
      * intros H. injection H as <-. lia.
      * subst s. cbn [cond_Zopp]. intros H. injection H as <-.
        pose proof (magnitude_trunc_nonneg m' e'). lia.
Qed.

Lemma cell_size_nonpositive (d wd ht : Z) :
  d <= 0 -> cell_size d = OK (wd, ht) -> wd <= 0 /\ ht <= 0.
Proof.
  intros Hd H. unfold cell_size in H.
  destruct f_2_5_value as [[E25 _] _]. destruct f_3_5_value as [[E35 _] _].
  rewrite E25, E35 in H.
  apply bind_OK in H. destruct H as (w' & Hw & H).
  apply bind_OK in H. destruct H as (h' & Hh & H).
  injection H as <- <-.
  split; eapply to_int_times_nonpositive; eauto.
Qed.

Lemma load_image_nonpositive (w : World) (args : arguments) (fn : string) :
  dpi args <= 0 -> resize_refuses_empty w ->
  exists e, load_image w args fn = Raise e.
Proof.
  intros Hd Hres. unfold load_image.
  destruct (Image_open w fn) as [img | e]; [| eexists; reflexivity].
  cbn [bind].
  destruct (Image_verify w img) as [[] | e]; [| eexists; reflexivity].
  cbn [bind].
  destruct (cell_size (dpi args)) as [[wd ht] | e] eqn:Hc;
    [| eexists; reflexivity].
  cbn [bind]. apply Hres.
  destruct (cell_size_nonpositive _ _ _ Hd Hc). cbn [fst snd]. lia.
Qed.

Lemma parse_arguments_dpi (w : World) (ns : Namespace) (args : arguments) :
  parse_arguments w ns = OK args -> dpi args = ns_dpi ns.
Proof.
  unfold parse_arguments.
  destruct (isfile w _); [discriminate |].
  destruct (negb _); [discriminate |].
  intros H. injection H as <-. reflexivity.
Qed.

(** The two checks of [parse_arguments] do not look at [--dpi]. *)
Lemma parse_arguments_ignores_dpi (w : World) (ns : Namespace) (d : Z)
    (e : exception) :
  parse_arguments w ns = Raise e -> parse_arguments w (with_dpi ns d) = Raise e.
Proof.
  unfold parse_arguments, with_dpi. cbn [ns_output ns_folder folder].
  destruct (isfile w _); [auto |].
  destruct (negb _); [auto | discriminate].
Qed.

(** C10. A [dpi <= 0] passes [parse_arguments]: whatever it raises, it
    raises as well with the default [dpi], and when it returns the dict has
    that [dpi]. Then, Pillow's [resize] refusing a size with a side below
    one pixel, [list_files] accepts nothing: every entry that is not
    excluded and is a file is recorded as "is not a valid image", the
    failure being absorbed by the [except] of the loop. *)
Theorem nonpositive_dpi_rejects_every_image (lower : string -> string)
    (w : World) (ns : Namespace) :
  ns_dpi ns <= 0 ->
  resize_refuses_empty w ->
  (forall e, parse_arguments w ns = Raise e ->
             parse_arguments w (with_dpi ns 1000) = Raise e) /\
  (forall args,
      parse_arguments w ns = OK args ->
      dpi args = ns_dpi ns /\
      exists excluded_files,
        list_files_run lower w args = OK ([], excluded_files) /\
        list_files lower w args = OK [] /\
        forall files,
          In files (listdir w (folder args)) ->
          any (fun i => startswith (lower files) i) (excluded args) = false ->
          isfile w (path_join (folder args) files) = true ->
          In (files, "is not a valid image") excluded_files).
Proof.
  intros Hd Hres. split.
  - intros e. apply parse_arguments_ignores_dpi.
  - intros args Hparse.
    pose proof (parse_arguments_dpi _ _ _ Hparse) as Hdpi.
    split; [exact Hdpi |].
    assert (Hd' : dpi args <= 0) by lia.
    assert (Hrej : forall files,
               is_accepted (entry_verdict lower w args files) = false).
    { intros files. unfold entry_verdict.
      destruct (any _ (excluded args)); [reflexivity |].
      destruct (negb _); [reflexivity |].
      destruct (load_image_nonpositive w args (path_join (folder args) files)
                  Hd' Hres) as [e ->].
      reflexivity. }
    assert (Hnone : forall l,
               flat_map (fun f => accepted_of (entry_verdict lower w args f)) l = []).
    { induction l as [| f l IH]; [reflexivity |]. cbn [flat_map].
      rewrite IH, app_nil_r. specialize (Hrej f).
      destruct (entry_verdict lower w args f); [discriminate | reflexivity]. }
    eexists. split; [| split].
    + rewrite list_files_run_verdict, Hnone. reflexivity.
    + unfold list_files. rewrite list_files_run_verdict, Hnone. reflexivity.
    + intros files Hin Hex Hfile.
      apply rejected_in_flat_map.
      * apply (Permutation_in _ (Permutation_sym (sorted_perm _))). exact Hin.
      * unfold entry_verdict. rewrite Hex, Hfile. cbn [negb].
        destruct (load_image_nonpositive w args (path_join (folder args) files)
                    Hd' Hres) as [e ->].
        reflexivity.
Qed.

Lemma scenario_resize_refuses_empty : resize_refuses_empty Scenario.world.
Proof.
  intros img sz Hsz. simpl. unfold Scenario.resize.
  destruct (fst sz <? 1) eqn:E1; [eexists; reflexivity |].
  destruct (snd sz <? 1) eqn:E2; [eexists; reflexivity |].
  apply Z.ltb_ge in E1, E2. lia.
Qed.

Lemma nonpositive_dpi_rejects_every_image_witness :
  (forall e,
      parse_arguments Scenario.world
        {| ns_folder := "cards"; ns_output := None; ns_excluded := [];
         ns_dpi := -300; ns_verbose := false; ns_quiet := false |} = Raise e ->
      parse_arguments Scenario.world
        (with_dpi
           {| ns_folder := "cards"; ns_output := None; ns_excluded := [];
              ns_dpi := -300; ns_verbose := false; ns_quiet := false |} 1000) = Raise e) /\
  (forall args,
      parse_arguments Scenario.world
        {| ns_folder := "cards"; ns_output := None; ns_excluded := [];
         ns_dpi := -300; ns_verbose := false; ns_quiet := false |} = OK args ->
      dpi args = -300 /\
      exists excluded_files,
        list_files_run Scenario.lower Scenario.world args
          = OK ([], excluded_files) /\
        list_files Scenario.lower Scenario.world args = OK [] /\
        forall files,
          In files (listdir Scenario.world (folder args)) ->
          any (fun i => startswith (Scenario.lower files) i) (excluded args)
            = false ->
          isfile Scenario.world (path_join (folder args) files) = true ->
          In (files, "is not a valid image") excluded_files).
Proof.
  apply (nonpositive_dpi_rejects_every_image Scenario.lower Scenario.world
           {| ns_folder := "cards"; ns_output := None; ns_excluded := [];
              ns_dpi := -300; ns_verbose := false; ns_quiet := false |}).
  - simpl. lia.
  - exact scenario_resize_refuses_empty.
Defined.

Example nonpositive_dpi_scenario :
  list_files_run Scenario.lower Scenario.world (Scenario.args (-300)) =
    OK ([], [("a.png", "is not a valid image"); ("b.png", "is not a valid image");
             ("b.txt", "is not a valid image"); ("c.jpg", "is not a valid image");
             ("old", "is not a file")]) /\
  list_files_run Scenario.lower Scenario.world (Scenario.args 0) =
    OK ([], [("a.png", "is not a valid image"); ("b.png", "is not a valid image");
             ("b.txt", "is not a valid image"); ("c.jpg", "is not a valid image");
             ("old", "is not a file")]).
Proof. split; vm_compute; reflexivity. Qed.

(** ** Binary64 arithmetic: when nothing is rounded *)

Lemma digits_scaled (m : positive) (k a : Z) :
  0 < k -> 0 <= a -> Zpos m = k * 2 ^ a ->
  Zpos (digits2_pos m) = Zpos (digits2_pos (Z.to_pos k)) + a.
Proof.
  intros Hk Ha Hm. apply digits_unique; [lia |].
  destruct (digits2_pos_bounds (Z.to_pos k)) as [Hlo Hhi].
  rewrite Z2Pos.id in Hlo, Hhi by lia. rewrite Hm.
  replace (Zpos (digits2_pos (Z.to_pos k)) + a - 1)
    with (Zpos (digits2_pos (Z.to_pos k)) - 1 + a) by lia.
  rewrite !Z.pow_add_r by lia.
  pose proof (pow2_pos a Ha). nia.
Qed.

Lemma digits_le_53 (k : Z) :
  0 < k < 2 ^ 53 -> Zpos (digits2_pos (Z.to_pos k)) <= 53.
Proof.
  intros [Hk1 Hk2].
  destruct (digits2_pos_bounds (Z.to_pos k)) as [Hlo _].
  rewrite Z2Pos.id in Hlo by lia.
  assert (Zpos (digits2_pos (Z.to_pos k)) - 1 < 53); [| lia].
  apply pow2_lt_inv; lia.
Qed.

(** A mantissa [k * 2^a] with [k < 2^53] is cut to 53 bits without loss. *)
Lemma binary_round_aux_exact (m : positive) (e k a : Z) :
  0 < k < 2 ^ 53 -> 0 <= a -> Zpos m = k * 2 ^ a ->
  53 <= Zpos (digits2_pos m) ->
  -1074 <= e + (Zpos (digits2_pos m) - 53) <= 971 ->
  let n := Zpos (digits2_pos m) - 53 in
  n <= a /\
  2 ^ 52 <= k * 2 ^ (a - n) < 2 ^ 53 /\
  binary_round_aux prec emax false (Zpos m) e loc_Exact =
    S754_finite false (Z.to_pos (k * 2 ^ (a - n))) (e + n).
Proof.
  intros Hk Ha Hm Hd He n.
  pose proof (digits_scaled m k a ltac:(lia) Ha Hm) as Hdig.
  pose proof (digits_le_53 k Hk) as Hdk.
  assert (Hna : n <= a) by (unfold n; lia).
  assert (Hn : 0 <= n) by (unfold n; lia).
  pose proof (pow2_pos n Hn) as Hpn.
  assert (Hsplit : Zpos m = k * 2 ^ (a - n) * 2 ^ n).
  { rewrite Hm, <- Z.mul_assoc, <- Z.pow_add_r by lia.
    now replace (a - n + n) with a by lia. }
  assert (Hmod : Zpos m mod 2 ^ n = 0).
  { rewrite Hsplit. apply Z.mod_mul. lia. }
  assert (Hdiv : Zpos m / 2 ^ n = k * 2 ^ (a - n)).
  { rewrite Hsplit. apply Z.div_mul. lia. }
  destruct (binary_round_aux_pos m e Hn ltac:(fold n; lia)) as [Hm2 Heq].
  fold n in Hm2, Heq. rewrite rne_shift_exact in Hm2, Heq by assumption.
  rewrite Hdiv in Hm2, Heq.
  assert (Hlt : k * 2 ^ (a - n) < 2 ^ 53).
  { destruct (digits2_pos_bounds m) as [_ Hhi].
    rewrite Hsplit in Hhi.
    replace (Zpos (digits2_pos m)) with (53 + n) in Hhi by (unfold n; lia).
    rewrite Z.pow_add_r in Hhi by lia. nia. }
  split; [exact Hna |]. split; [lia |].
  rewrite Heq.
  destruct (Z.ltb_spec (k * 2 ^ (a - n)) (2 ^ 53)); [| lia].
  destruct (Z.leb_spec (e + n) 971); [reflexivity | lia].
Qed.

Lemma exact_float_pos (f : float) (k j : Z) : exact_float f k j -> 0 < k.
Proof.
  intros (m & e & [_ Hm] & He & Hk).
  pose proof (pow2_pos (- j - e) ltac:(lia)). nia.
Qed.

(** [float(n)] is n itself below [2^53]. *)
Lemma of_int_exact (n : Z) :
  1 <= n < 2 ^ 53 -> exists f, of_int n = OK f /\ exact_float f n 0.
Proof.
  intros [Hn1 Hn2]. destruct n as [| p | p]; try lia.
  unfold of_int. cbn [binary_normalize]. unfold binary_round, fexp, emin.
  unfold prec at 1 2, emax at 1.
  pose proof (digits_le_53 (Zpos p) ltac:(lia)) as Hd. cbn [Z.to_pos] in Hd.
  replace (Z.max (Zpos (digits2_pos p) + 0 - 53) (3 - 1024 - 53))
    with (Zpos (digits2_pos p) - 53) by lia.
  set (a := 53 - Zpos (digits2_pos p)).
  assert (Hal : fst (shl_align p 0 (Zpos (digits2_pos p) - 53)) =
                Z.to_pos (Zpos p * 2 ^ a) /\
                snd (shl_align p 0 (Zpos (digits2_pos p) - 53)) = - a).
  { destruct (shl_align_value p 0 (Zpos (digits2_pos p) - 53) ltac:(lia))
      as [H1 H2].
    split.
    - replace (0 - (Zpos (digits2_pos p) - 53)) with a in H2 by (unfold a; lia).
      rewrite <- H2. reflexivity.
    - unfold a. unfold shl_align in *.
      destruct (Zpos (digits2_pos p) - 53 - 0) eqn:E; cbn [snd] in *; lia. }
  destruct (shl_align p 0 (Zpos (digits2_pos p) - 53)) as [mz ez].
  cbn [fst snd] in Hal. destruct Hal as [-> ->].
  pose proof (pow2_pos a ltac:(unfold a; lia)) as Hpa.
  assert (Hmz : Zpos (Z.to_pos (Zpos p * 2 ^ a)) = Zpos p * 2 ^ a)
    by (rewrite Z2Pos.id; lia).
  pose proof (digits_scaled _ (Zpos p) a ltac:(lia) ltac:(unfold a; lia) Hmz)
    as Hdig.
  cbn [Z.to_pos] in Hdig.
  destruct (binary_round_aux_exact (Z.to_pos (Zpos p * 2 ^ a)) (- a) (Zpos p) a
              ltac:(lia) ltac:(unfold a; lia) Hmz ltac:(unfold a in *; lia)
              ltac:(unfold a in *; lia)) as (_ & Hb & Heq).
  rewrite Hdig in Hb, Heq.
  replace (Zpos (digits2_pos p) + a - 53) with 0 in Hb, Heq by (unfold a; lia).
  rewrite Z.sub_0_r, Z.add_0_r in *.
  rewrite Heq. eexists. split; [reflexivity |].
  exists (Z.to_pos (Zpos p * 2 ^ a)), (- a).
  split; [split; [reflexivity | rewrite Hmz; exact Hb] |].
  split; [unfold a; lia |].
  rewrite Hmz. f_equal. f_equal. lia.
Qed.

Lemma exact_float_exponent (f : float) (m : positive) (e k j : Z) :
  pos_float f m e -> e <= - j -> Zpos m = k * 2 ^ (- j - e) ->
  0 < k /\ - j - 52 <= e.
Proof.
  intros [_ Hm] He Hk.
  pose proof (pow2_pos (- j - e) ltac:(lia)) as Hp.
  assert (Hk0 : 0 < k) by nia. split; [exact Hk0 |].
  assert (- j - e < 53); [| lia].
  apply pow2_lt_inv; [lia |]. nia.
Qed.

(** The product of two exact floats is exact when it fits in 53 bits. *)
Lemma mul_exact (x y : float) (kx jx ky jy : Z) :
  exact_float x kx jx -> exact_float y ky jy ->
  0 <= jx <= 100 -> 0 <= jy <= 100 -> kx * ky < 2 ^ 53 ->
  exact_float (mul x y) (kx * ky) (jx + jy).
Proof.
  intros (mx & ex & Hx & Hex & Hmx) (my & ey & Hy & Hey & Hmy) Hjx Hjy Hk.
  destruct (exact_float_exponent _ _ _ _ _ Hx Hex Hmx) as [Hkx Hex'].
  destruct (exact_float_exponent _ _ _ _ _ Hy Hey Hmy) as [Hky Hey'].
  destruct Hx as [-> Hbx]. destruct Hy as [-> Hby].
  unfold mul, SFmul. cbn [xorb].
  set (a := (- jx - ex) + (- jy - ey)).
  assert (Hm : Zpos (mx * my) = kx * ky * 2 ^ a).
  { rewrite Pos2Z.inj_mul, Hmx, Hmy. unfold a.
    rewrite Z.pow_add_r by lia. ring. }
  assert (Hd : 105 <= Zpos (digits2_pos (mx * my)) <= 106).
  { destruct (digits2_pos_bounds (mx * my)) as [Hlo Hhi].
    rewrite Pos2Z.inj_mul in Hlo, Hhi. split.
    - assert (104 < Zpos (digits2_pos (mx * my))); [| lia].
      apply pow2_lt_inv; [lia |].
      change (2 ^ 104) with (2 ^ 52 * 2 ^ 52). nia.
    - assert (Zpos (digits2_pos (mx * my)) - 1 < 106); [| lia].
      apply pow2_lt_inv; [lia |].
      change (2 ^ 106) with (2 ^ 53 * 2 ^ 53). nia. }
  destruct (binary_round_aux_exact (mx * my) (ex + ey) (kx * ky) a
              ltac:(nia) ltac:(unfold a; lia) Hm ltac:(lia) ltac:(lia))
    as (Hna & Hb & Heq).
  rewrite Heq.
  set (n := Zpos (digits2_pos (mx * my)) - 53) in *.
  exists (Z.to_pos (kx * ky * 2 ^ (a - n))), (ex + ey + n).
  split; [split; [reflexivity | rewrite Z2Pos.id by lia; exact Hb] |].
  split; [unfold a in Hna; lia |].
  rewrite Z2Pos.id by lia. f_equal. f_equal. unfold a. lia.
Qed.

(** The sum of two exact floats is exact when it fits in 53 bits. *)
Lemma add_exact (x y : float) (kx jx ky jy : Z) :
  exact_float x kx jx -> exact_float y ky jy ->
  0 <= jx <= 100 -> 0 <= jy <= 100 ->
  kx * 2 ^ (Z.max jx jy - jx) + ky * 2 ^ (Z.max jx jy - jy) < 2 ^ 53 ->
  exact_float (add x y)
    (kx * 2 ^ (Z.max jx jy - jx) + ky * 2 ^ (Z.max jx jy - jy)) (Z.max jx jy).
Proof.
  intros (mx & ex & Hx & Hex & Hmx) (my & ey & Hy & Hey & Hmy) Hjx Hjy Hk.
  destruct (exact_float_exponent _ _ _ _ _ Hx Hex Hmx) as [Hkx Hex'].
  destruct (exact_float_exponent _ _ _ _ _ Hy Hey Hmy) as [Hky Hey'].
  destruct Hx as [-> Hbx]. destruct Hy as [-> Hby].
  unfold add, SFadd. cbn [cond_Zopp].
  set (j := Z.max jx jy) in *. set (ez := Z.min ex ey).
  destruct (shl_align_value mx ex ez ltac:(lia)) as [_ Hax].
  destruct (shl_align_value my ey ez ltac:(lia)) as [_ Hay].
  set (ax := fst (shl_align mx ex ez)) in *.
  set (ay := fst (shl_align my ey ez)) in *.
  change (Zpos ax + Zpos ay) with (Zpos (ax + ay)). cbn [binary_normalize].
  set (K := kx * 2 ^ (j - jx) + ky * 2 ^ (j - jy)) in *.
  set (a := - j - ez).
  assert (Ha : 0 <= a) by (unfold a, j, ez; lia).
  assert (Hm : Zpos (ax + ay) = K * 2 ^ a).
  { rewrite Pos2Z.inj_add, Hax, Hay, Hmx, Hmy. unfold K, a.
    rewrite Z.mul_add_distr_r, <- !Z.mul_assoc, <- !Z.pow_add_r
      by (unfold j, ez; lia).
    f_equal; f_equal; f_equal; lia. }
  pose proof (pow2_pos (ex - ez) ltac:(unfold ez; lia)) as Hpx.
  pose proof (pow2_pos (ey - ez) ltac:(unfold ez; lia)) as Hpy.
  pose proof (pow2_pos (j - jx) ltac:(unfold j; lia)) as Hqx.
  pose proof (pow2_pos (j - jy) ltac:(unfold j; lia)) as Hqy.
  assert (HK : 0 < K < 2 ^ 53) by (unfold K; nia).
  assert (Hd : 53 <= Zpos (digits2_pos (ax + ay)) <= 106).
  { pose proof (digits_scaled _ K a ltac:(lia) Ha Hm) as Hdig.
    pose proof (digits_le_53 K HK) as Hdk.
    destruct (digits2_pos_bounds (ax + ay)) as [_ Hhi].
    rewrite Pos2Z.inj_add, Hax, Hay in Hhi. split.
    - assert (52 < Zpos (digits2_pos (ax + ay))); [| lia].
      apply pow2_lt_inv; [lia |]. nia.
    - unfold a, j, ez in *. lia. }
  unfold binary_round, fexp, emin. unfold prec at 1 2, emax at 1.
  replace (Z.max (Zpos (digits2_pos (ax + ay)) + ez - 53) (3 - 1024 - 53))
    with (ez + (Zpos (digits2_pos (ax + ay)) - 53)) by (unfold ez; lia).
  unfold shl_align.
  destruct (ez + (Zpos (digits2_pos (ax + ay)) - 53) - ez) as [| q | q] eqn:E;
    try lia.
  - destruct (binary_round_aux_exact (ax + ay) ez K a HK Ha Hm ltac:(lia)
                ltac:(unfold ez; lia)) as (Hna & Hb & Heq).
    rewrite Heq. set (n := Zpos (digits2_pos (ax + ay)) - 53) in *.
    exists (Z.to_pos (K * 2 ^ (a - n))), (ez + n).
    split; [split; [reflexivity | rewrite Z2Pos.id by lia; exact Hb] |].
    split; [unfold a in Hna; lia |].
    rewrite Z2Pos.id by lia. f_equal. f_equal. unfold a. lia.
  - destruct (binary_round_aux_exact (ax + ay) ez K a HK Ha Hm ltac:(lia)
                ltac:(unfold ez; lia)) as (Hna & Hb & Heq).
    rewrite Heq. set (n := Zpos (digits2_pos (ax + ay)) - 53) in *.
    exists (Z.to_pos (K * 2 ^ (a - n))), (ez + n).
    split; [split; [reflexivity | rewrite Z2Pos.id by lia; exact Hb] |].
    split; [unfold a in Hna; lia |].
    rewrite Z2Pos.id by lia. f_equal. f_equal. unfold a. lia.
Qed.

(** [int] of an exact float is the integer quotient. *)
Lemma to_int_exact (f : float) (k j : Z) :
  exact_float f k j -> 0 <= j -> to_int f = OK (k / 2 ^ j).
Proof.
  intros (m & e & [-> Hb] & He & Hm) Hj. cbn [to_int cond_Zopp]. f_equal.
  pose proof (pow2_pos j Hj) as Hpj.
  destruct e as [| p | p]; cbn [magnitude_trunc]; try lia.
  - assert (j = 0) by lia. subst j. rewrite Hm.
    change (2 ^ (- 0 - 0)) with 1. change (2 ^ 0) with 1.
    rewrite Z.mul_1_r, Z.div_1_r. reflexivity.
  - assert (E : 2 ^ Zpos p = 2 ^ j * 2 ^ (- j - Zneg p)).
    { rewrite <- Z.pow_add_r by lia. f_equal. lia. }
    pose proof (pow2_pos (- j - Zneg p) ltac:(lia)).
    rewrite Hm, E. apply Z.div_mul_cancel_r; lia.
Qed.

Lemma rne_shift_scale (k j a : Z) :
  0 <= j -> 0 <= a -> rne_shift (k * 2 ^ a) (j + a) = rne_shift k j.
Proof.
  intros Hj Ha. unfold rne_shift.
  pose proof (pow2_pos j Hj) as Hpj. pose proof (pow2_pos a Ha) as Hpa.
  rewrite (Z.pow_add_r 2 j a) by lia.
  rewrite Z.div_mul_cancel_r by lia.
  rewrite Z.mul_mod_distr_r by lia.
  replace (2 * (k mod 2 ^ j * 2 ^ a) ?= 2 ^ j * 2 ^ a)
    with (2 * (k mod 2 ^ j) ?= 2 ^ j); [reflexivity |].
  destruct (Z.compare_spec (2 * (k mod 2 ^ j)) (2 ^ j)) as [E | E | E];
    symmetry.
  - apply Z.compare_eq_iff. nia.
  - apply Z.compare_lt_iff. nia.
  - apply Z.compare_gt_iff. nia.
Qed.

(** [round] of an exact float is the exact rounding to nearest-even. *)
Lemma round_exact (f : float) (k j : Z) :
  exact_float f k j -> 0 <= j -> round f = OK (rne_shift k j).
Proof.
  intros (m & e & [-> Hb] & He & Hm) Hj. cbn [round cond_Zopp]. f_equal.
  destruct e as [| p | p]; cbn [magnitude_round]; try lia.
  - assert (j = 0) by lia. subst j. rewrite Hm.
    change (2 ^ (- 0 - 0)) with 1. rewrite Z.mul_1_r.
    unfold rne_shift. change (2 ^ 0) with 1.
    rewrite Z.mod_1_r, Z.div_1_r. reflexivity.
  - rewrite Hm. replace (Zpos p) with (j + (- j - Zneg p)) by lia.
    apply rne_shift_scale; lia.
Qed.

Lemma rne_shift_near (m n t : Z) :
  0 <= n -> 2 * Z.abs (m - t * 2 ^ n) < 2 ^ n -> rne_shift m n = t.
Proof.
  intros Hn H. unfold rne_shift.
  pose proof (pow2_pos n Hn) as Hp.
  destruct (Z.le_gt_cases (t * 2 ^ n) m) as [Hle | Hgt].
  - assert (Hq : m / 2 ^ n = t).
    { symmetry. apply (Z.div_unique m (2 ^ n) t (m - t * 2 ^ n)); lia. }
    assert (Hr : m mod 2 ^ n = m - t * 2 ^ n).
    { symmetry. apply (Z.mod_unique m (2 ^ n) t (m - t * 2 ^ n)); lia. }
    rewrite Hq, Hr.
    replace (2 * (m - t * 2 ^ n) ?= 2 ^ n) with Lt
      by (symmetry; apply Z.compare_lt_iff; lia).
    reflexivity.
  - assert (Hq : m / 2 ^ n = t - 1).
    { symmetry. apply (Z.div_unique m (2 ^ n) (t - 1) (m - (t - 1) * 2 ^ n)); lia. }
    assert (Hr : m mod 2 ^ n = m - (t - 1) * 2 ^ n).
    { symmetry. apply (Z.mod_unique m (2 ^ n) (t - 1) (m - (t - 1) * 2 ^ n)); lia. }
    rewrite Hq, Hr.
    replace (2 * (m - (t - 1) * 2 ^ n) ?= 2 ^ n) with Gt
      by (symmetry; apply Z.compare_gt_iff; lia).
    lia.
Qed.

(** A product that falls within less than half a unit in the last place of
    the float [(2 * q + 1) / 2] is rounded to it: this is what happens to
    [c * dpi] when [dpi] is an odd multiple of [kd / 2] and the literal [c]
    is the double next to [1 / kd]. *)
Lemma mul_tie (c D : float) (mc : positive) (ec kd delta n q : Z) :
  pos_float c mc ec -> -100 <= ec <= -54 ->
  kd * Zpos mc = 2 ^ (- ec) + delta -> 0 <= delta -> 4 * delta <= kd ->
  exact_float D n 0 ->
  2 * n = kd * (2 * q + 1) ->
  exact_float (mul c D) (2 * q + 1) 1.
Proof.
  intros [-> Hbc] Hec Hkd Hdelta Hsmall (mD & eD & HD & HeD & HmD) Hn.
  destruct (exact_float_exponent _ _ _ _ _ HD HeD HmD) as [Hn0 HeD'].
  destruct HD as [-> HbD].
  replace (- 0 - eD) with (- eD) in HmD by lia.
  unfold mul, SFmul. cbn [xorb].
  assert (Hd : 105 <= Zpos (digits2_pos (mc * mD)) <= 106).
  { destruct (digits2_pos_bounds (mc * mD)) as [Hlo Hhi].
    rewrite Pos2Z.inj_mul in Hlo, Hhi. split.
    - assert (104 < Zpos (digits2_pos (mc * mD))); [| lia].
      apply pow2_lt_inv; [lia |].
      change (2 ^ 104) with (2 ^ 52 * 2 ^ 52). nia.
    - assert (Zpos (digits2_pos (mc * mD)) - 1 < 106); [| lia].
      apply pow2_lt_inv; [lia |].
      change (2 ^ 106) with (2 ^ 53 * 2 ^ 53). nia. }
  set (ns := Zpos (digits2_pos (mc * mD)) - 53) in *.
  assert (Hns : 52 <= ns <= 53) by (unfold ns; lia).
  set (b := - ec - eD - 1 - ns).
  assert (Hb : 0 <= b) by (unfold b; lia).
  set (T := (2 * q + 1) * 2 ^ b).
  pose proof (pow2_pos ns ltac:(lia)) as Hpns.
  pose proof (pow2_pos b Hb) as Hpb.
  pose proof (pow2_pos (- eD) ltac:(lia)) as HpD.
  pose proof (pow2_pos (- ec) ltac:(lia)) as Hpc.
  (* kd * (P - T * 2^ns) = delta * mD *)
  assert (HT : kd * (T * 2 ^ ns) = Zpos mD * 2 ^ (- ec)).
  { unfold T. rewrite <- Z.mul_assoc, <- Z.pow_add_r by lia.
    replace (b + ns) with (- ec - eD - 1) by (unfold b; lia).
    rewrite HmD.
    replace (- ec) with ((- ec - eD - 1) + 1 + eD) at 2 by lia.
    assert (E1 : 2 ^ (- ec - eD - 1 + 1 + eD) * 2 ^ (- eD)
                 = 2 * 2 ^ (- ec - eD - 1)).
    { rewrite <- Z.pow_add_r by lia.
      replace (- ec - eD - 1 + 1 + eD + - eD) with (1 + (- ec - eD - 1)) by lia.
      rewrite Z.pow_add_r by lia. reflexivity. }
    nia. }
  assert (Hdiff : kd * (Zpos (mc * mD) - T * 2 ^ ns) = delta * Zpos mD).
  { rewrite Z.mul_sub_distr_l, HT, Pos2Z.inj_mul. nia. }
  assert (Hkd0 : 0 < kd) by nia.
  assert (Hnear : 2 * Z.abs (Zpos (mc * mD) - T * 2 ^ ns) < 2 ^ ns).
  { assert (0 <= Zpos (mc * mD) - T * 2 ^ ns) by nia.
    rewrite Z.abs_eq by assumption.
    assert (2 ^ 52 <= 2 ^ ns) by (apply Z.pow_le_mono_r; lia).
    nia. }
  assert (Hn1 : 0 <= Zpos (digits2_pos (mc * mD)) - 53) by lia.
  assert (Hn2 : -1074 <= ec + eD + (Zpos (digits2_pos (mc * mD)) - 53)).
  { clear - Hec HeD' Hn1. lia. }
  destruct (binary_round_aux_pos (mc * mD) (ec + eD) Hn1 Hn2) as [Hm2 Heq].
  fold ns in Hm2, Heq.
  rewrite (rne_shift_near (Zpos (mc * mD)) ns T ltac:(lia) Hnear) in Hm2, Heq.
  assert (HT53 : T < 2 ^ 53).
  { destruct (digits2_pos_bounds (mc * mD)) as [_ Hhi].
    replace (Zpos (digits2_pos (mc * mD))) with (53 + ns) in Hhi
      by (unfold ns; lia).
    rewrite Z.pow_add_r in Hhi by lia.
    assert (T * 2 ^ ns <= Zpos (mc * mD)) by nia. nia. }
  rewrite Heq.
  destruct (Z.ltb_spec T (2 ^ 53)); [| lia].
  destruct (Z.leb_spec (ec + eD + ns) 971); [| lia].
  exists (Z.to_pos T), (ec + eD + ns).
  split; [split; [reflexivity | rewrite Z2Pos.id by lia; lia] |].
  split; [lia |].
  rewrite Z2Pos.id by lia. unfold T. f_equal. f_equal. unfold b. lia.
Qed.

(** ** The sizes and the tables in closed form *)

Ltac literal_exact :=
  eexists _, _; split;
  [split; [vm_compute; reflexivity
          | vm_compute; split; [discriminate | reflexivity]]
  | split; vm_compute; [discriminate | reflexivity]].

Lemma f_2_5_exact : exact_float f_2_5 5 1.
Proof. literal_exact. Qed.

Lemma f_3_5_exact : exact_float f_3_5 7 1.
Proof. literal_exact. Qed.

Lemma f_8_5_exact : exact_float f_8_5 17 1.
Proof. literal_exact. Qed.

Lemma f_0_5_exact : exact_float f_0_5 1 1.
Proof. literal_exact. Qed.

Lemma f_5_5_exact : exact_float f_5_5 11 1.
Proof. literal_exact. Qed.

Lemma f_0_25_exact : exact_float f_0_25 1 2.
Proof. literal_exact. Qed.

Lemma f_3_75_exact : exact_float f_3_75 15 2.
Proof. literal_exact. Qed.

Lemma f_7_25_exact : exact_float f_7_25 29 2.
Proof. literal_exact. Qed.

(** [int(c * dpi)] for a literal [c = kc / 2^jc]. *)
Lemma int_times_exact (c D : float) (kc jc n : Z) :
  exact_float c kc jc -> exact_float D n 0 ->
  0 <= jc <= 100 -> kc * n < 2 ^ 53 ->
  to_int (mul c D) = OK (kc * n / 2 ^ jc).
Proof.
  intros Hc HD Hj Hk.
  pose proof (mul_exact c D kc jc n 0 Hc HD Hj ltac:(lia) Hk) as H.
  rewrite Z.add_0_r in H. apply to_int_exact; [exact H | lia].
Qed.

(** [int(c * dpi + r)] for a literal [c = kc / 2^jc] and an int [r >= 0]. *)
Lemma int_times_plus_exact (c D : float) (kc jc n r : Z) :
  exact_float c kc jc -> exact_float D n 0 ->
  0 <= jc <= 100 -> 0 <= r -> kc * n + r * 2 ^ jc < 2 ^ 53 ->
  (s <- add_int (mul c D) r ;; to_int s) = OK (kc * n / 2 ^ jc + r).
Proof.
  intros Hc HD Hj Hr Hk.
  pose proof (pow2_pos jc ltac:(lia)) as Hp.
  pose proof (exact_float_pos _ _ _ Hc) as Hkc.
  pose proof (exact_float_pos _ _ _ HD) as Hn.
  pose proof (mul_exact c D kc jc n 0 Hc HD Hj ltac:(lia) ltac:(nia)) as H.
  rewrite Z.add_0_r in H.
  destruct (Z.eq_dec r 0) as [-> | Hr0].
  - unfold add_int. change (of_int 0) with (OK (S754_zero false)). cbn [bind].
    destruct H as (m & e & [Hf Hb] & He & Hm). rewrite Hf.
    change (add (S754_finite false m e) (S754_zero false))
      with (S754_finite false m e).
    rewrite Z.add_0_r. apply to_int_exact; [| lia].
    exists m, e. repeat split; auto; lia.
  - assert (Hr53 : r < 2 ^ 53) by nia.
    destruct (of_int_exact r ltac:(lia)) as (R & HR & HRe).
    unfold add_int. rewrite HR. cbn [bind].
    pose proof (add_exact (mul c D) R (kc * n) jc r 0 H HRe Hj ltac:(lia)) as Hs.
    replace (Z.max jc 0) with jc in Hs by lia.
    replace (jc - jc) with 0 in Hs by lia. rewrite Z.sub_0_r in Hs.
    change (2 ^ 0) with 1 in Hs. rewrite Z.mul_1_r in Hs.
    rewrite (to_int_exact _ _ _ (Hs Hk)) by lia.
    f_equal. apply Z.div_add. lia.
Qed.

Lemma rne_shift_odd_half (q : Z) :
  rne_shift (2 * q + 1) 1 = if Z.even q then q else q + 1.
Proof.
  unfold rne_shift. change (2 ^ 1) with 2.
  assert (Hq : (2 * q + 1) / 2 = q)
    by (symmetry; apply (Z.div_unique _ _ _ 1); lia).
  assert (Hr : (2 * q + 1) mod 2 = 1)
    by (symmetry; apply (Z.mod_unique _ _ q 1); lia).
  rewrite Hq, Hr. reflexivity.
Qed.

Section Gaps.

Local Open Scope Q_scope.

(** [round(.01 * dpi)] is [dpi / 100] rounded half to even, below
    [2^47]. *)
Lemma gap1_closed (n : Z) :
  (1 <= n < 2 ^ 47)%Z -> gap1 n = OK (round_half_even_div n 100).
Proof.
  intros [Hn1 Hn2].
  destruct (of_int_exact n ltac:(lia)) as (D & HofD & HDe).
  destruct (of_int_Q n Hn1)
    as [[E _] | (D' & mD & eD & HofD' & HD & HeD & HDlo & HDhi)];
    [congruence |].
  assert (D' = D) by congruence. subst D'.
  unfold gap1, mul_int. rewrite HofD. cbn [bind].
  unfold round_half_even_div.
  pose proof (Z.div_mod n 100 ltac:(lia)) as Hdm.
  pose proof (Z.mod_pos_bound n 100 ltac:(lia)) as Hs.
  set (q := (n / 100)%Z) in *. set (s := (n mod 100)%Z) in *.
  destruct f_0_01_value as [L001 V001].
  destruct (Z.compare_spec (2 * s) 100) as [Etie | Hlt | Hgt].
  - (* a tie: the product is exactly q + 1/2 *)
    pose proof (mul_tie f_0_01 D _ (-59) 100 12 n q L001 ltac:(lia)
                  ltac:(vm_compute; reflexivity) ltac:(lia) ltac:(lia) HDe
                  ltac:(lia)) as Hex.
    rewrite (round_exact _ _ _ Hex) by lia. f_equal. apply rne_shift_odd_half.
  - destruct (round_times D mD eD (inject_Z n) HD ltac:(lia)
                ltac:(change 0 with (inject_Z 0); rewrite <- Zle_Qle; lia)
                HDlo HDhi _ _ _ _ L001 ltac:(lia) V001)
      as [[E B] | (r & Er & B1 & B2)].
    + exfalso. rewrite Zlt_Qlt in Hn2.
      assert (0 < inject_Z n)
        by (change 0 with (inject_Z 0); rewrite <- Zlt_Qlt; lia).
      assert (Hbig : inject_Z (2 ^ 47) * 2 < inject_Z (2 ^ 1023)).
      { change 2 with (inject_Z 2) at 1.
        rewrite <- inject_Z_mult, <- Zlt_Qlt. vm_compute. reflexivity. }
      unfold u53 in *. lra.
    + rewrite Er. f_equal.
      assert (HN : inject_Z n == 100 * inject_Z q + inject_Z s).
      { rewrite Hdm at 1. rewrite inject_Z_plus, inject_Z_mult. reflexivity. }
      assert (Hs1 : 0 <= inject_Z s <= 49).
      { split; [change 0 with (inject_Z 0) | change 49 with (inject_Z 49)];
          rewrite <- Zle_Qle; lia. }
      assert (Hn47 : inject_Z n < 140737488355328).
      { change 140737488355328 with (inject_Z (2 ^ 47)). now rewrite <- Zlt_Qlt. }
      assert (Ha : inject_Z r < inject_Z (q + 1)).
      { rewrite inject_Z_plus. change (inject_Z 1) with 1. unfold u53 in *. lra. }
      assert (Hb : inject_Z q < inject_Z (r + 1)).
      { rewrite inject_Z_plus. change (inject_Z 1) with 1. unfold u53 in *. lra. }
      rewrite <- Zlt_Qlt in Ha, Hb. lia.
  - destruct (round_times D mD eD (inject_Z n) HD ltac:(lia)
                ltac:(change 0 with (inject_Z 0); rewrite <- Zle_Qle; lia)
                HDlo HDhi _ _ _ _ L001 ltac:(lia) V001)
      as [[E B] | (r & Er & B1 & B2)].
    + exfalso. rewrite Zlt_Qlt in Hn2.
      assert (0 < inject_Z n)
        by (change 0 with (inject_Z 0); rewrite <- Zlt_Qlt; lia).
      assert (Hbig : inject_Z (2 ^ 47) * 2 < inject_Z (2 ^ 1023)).
      { change 2 with (inject_Z 2) at 1.
        rewrite <- inject_Z_mult, <- Zlt_Qlt. vm_compute. reflexivity. }
      unfold u53 in *. lra.
    + rewrite Er. f_equal.
      assert (HN : inject_Z n == 100 * inject_Z q + inject_Z s).
      { rewrite Hdm at 1. rewrite inject_Z_plus, inject_Z_mult. reflexivity. }
      assert (Hs1 : 51 <= inject_Z s <= 99).
      { split; [change 51 with (inject_Z 51) | change 99 with (inject_Z 99)];
          rewrite <- Zle_Qle; lia. }
      assert (Hn47 : inject_Z n < 140737488355328).
      { change 140737488355328 with (inject_Z (2 ^ 47)). now rewrite <- Zlt_Qlt. }
      assert (Ha : inject_Z r < inject_Z (q + 2)).
      { rewrite inject_Z_plus. change (inject_Z 2) with 2. unfold u53 in *. lra. }
      assert (Hb : inject_Z q < inject_Z r).
      { unfold u53 in *. lra. }
      rewrite <- Zlt_Qlt in Ha, Hb. lia.
Qed.

(** [round(.02 * dpi)] is [dpi / 50] rounded half to even, below
    [2^47]. *)
Lemma gap2_closed (n : Z) :
  (1 <= n < 2 ^ 47)%Z -> gap2 n = OK (round_half_even_div n 50).
Proof.
  intros [Hn1 Hn2].
  destruct (of_int_exact n ltac:(lia)) as (D & HofD & HDe).
  destruct (of_int_Q n Hn1)
    as [[E _] | (D' & mD & eD & HofD' & HD & HeD & HDlo & HDhi)];
    [congruence |].
  assert (D' = D) by congruence. subst D'.
  unfold gap2, mul_int. rewrite HofD. cbn [bind].
  unfold round_half_even_div.
  pose proof (Z.div_mod n 50 ltac:(lia)) as Hdm.
  pose proof (Z.mod_pos_bound n 50 ltac:(lia)) as Hs.
  set (q := (n / 50)%Z) in *. set (s := (n mod 50)%Z) in *.
  destruct f_0_02_value as [L002 V002].
  destruct (Z.compare_spec (2 * s) 50) as [Etie | Hlt | Hgt].
  - (* a tie: the product is exactly q + 1/2 *)
    pose proof (mul_tie f_0_02 D _ (-58) 50 6 n q L002 ltac:(lia)
                  ltac:(vm_compute; reflexivity) ltac:(lia) ltac:(lia) HDe
                  ltac:(lia)) as Hex.
    rewrite (round_exact _ _ _ Hex) by lia. f_equal. apply rne_shift_odd_half.
  - destruct (round_times D mD eD (inject_Z n) HD ltac:(lia)
                ltac:(change 0 with (inject_Z 0); rewrite <- Zle_Qle; lia)
                HDlo HDhi _ _ _ _ L002 ltac:(lia) V002)
      as [[E B] | (r & Er & B1 & B2)].
    + exfalso. rewrite Zlt_Qlt in Hn2.
      assert (0 < inject_Z n)
        by (change 0 with (inject_Z 0); rewrite <- Zlt_Qlt; lia).
      assert (Hbig : inject_Z (2 ^ 47) * 2 < inject_Z (2 ^ 1023)).
      { change 2 with (inject_Z 2) at 1.
        rewrite <- inject_Z_mult, <- Zlt_Qlt. vm_compute. reflexivity. }
      unfold u53 in *. lra.
    + rewrite Er. f_equal.
      assert (HN : inject_Z n == 50 * inject_Z q + inject_Z s).
      { rewrite Hdm at 1. rewrite inject_Z_plus, inject_Z_mult. reflexivity. }
      assert (Hs1 : 0 <= inject_Z s <= 24).
      { split; [change 0 with (inject_Z 0) | change 24 with (inject_Z 24)];
          rewrite <- Zle_Qle; lia. }
      assert (Hn47 : inject_Z n < 140737488355328).
      { change 140737488355328 with (inject_Z (2 ^ 47)). now rewrite <- Zlt_Qlt. }
      assert (Ha : inject_Z r < inject_Z (q + 1)).
      { rewrite inject_Z_plus. change (inject_Z 1) with 1. unfold u53 in *. lra. }
      assert (Hb : inject_Z q < inject_Z (r + 1)).
      { rewrite inject_Z_plus. change (inject_Z 1) with 1. unfold u53 in *. lra. }
      rewrite <- Zlt_Qlt in Ha, Hb. lia.
  - destruct (round_times D mD eD (inject_Z n) HD ltac:(lia)
                ltac:(change 0 with (inject_Z 0); rewrite <- Zle_Qle; lia)
                HDlo HDhi _ _ _ _ L002 ltac:(lia) V002)
      as [[E B] | (r & Er & B1 & B2)].
    + exfalso. rewrite Zlt_Qlt in Hn2.
      assert (0 < inject_Z n)
        by (change 0 with (inject_Z 0); rewrite <- Zlt_Qlt; lia).
      assert (Hbig : inject_Z (2 ^ 47) * 2 < inject_Z (2 ^ 1023)).
      { change 2 with (inject_Z 2) at 1.
        rewrite <- inject_Z_mult, <- Zlt_Qlt. vm_compute. reflexivity. }
      unfold u53 in *. lra.
    + rewrite Er. f_equal.
      assert (HN : inject_Z n == 50 * inject_Z q + inject_Z s).
      { rewrite Hdm at 1. rewrite inject_Z_plus, inject_Z_mult. reflexivity. }
      assert (Hs1 : 26 <= inject_Z s <= 49).
      { split; [change 26 with (inject_Z 26) | change 49 with (inject_Z 49)];
          rewrite <- Zle_Qle; lia. }
      assert (Hn47 : inject_Z n < 140737488355328).
      { change 140737488355328 with (inject_Z (2 ^ 47)). now rewrite <- Zlt_Qlt. }
      assert (Ha : inject_Z r < inject_Z (q + 2)).
      { rewrite inject_Z_plus. change (inject_Z 2) with 2. unfold u53 in *. lra. }
      assert (Hb : inject_Z q < inject_Z r).
      { unfold u53 in *. lra. }
      rewrite <- Zlt_Qlt in Ha, Hb. lia.
Qed.

End Gaps.

Lemma round_half_even_div_bounds (n k : Z) :
  0 <= n -> 0 < k -> 0 <= round_half_even_div n k <= n / k + 1.
Proof.
  intros Hn Hk. unfold round_half_even_div.
  pose proof (Z.div_pos n k Hn Hk).
  destruct (2 * (n mod k) ?= k); [destruct (Z.even (n / k)) | |]; lia.
Qed.

(** Below [2^47] every product and sum of the layout is exact in binary64,
    but [.01 * dpi] and [.02 * dpi], which round to the nearest integer as
    the exact quotients do: the sizes and the tables are those of exact
    arithmetic, with [int] the floor and [round] to nearest, ties to
    even. *)
Theorem tables_in_closed_form (n : Z) :
  1 <= n < 2 ^ 47 ->
  cell_size n = OK (5 * n / 2, 7 * n / 2) /\
  page_size n = OK (17 * n / 2, 11 * n) /\
  gap1 n = OK (round_half_even_div n 100) /\
  gap2 n = OK (round_half_even_div n 50) /\
  xcords n = OK [n / 2;
                 3 * n + round_half_even_div n 100;
                 11 * n / 2 + round_half_even_div n 50] /\
  ycords n = OK [n / 4;
                 15 * n / 4 + round_half_even_div n 100;
                 29 * n / 4 + round_half_even_div n 50].
Proof.
  intros Hn.
  destruct (of_int_exact n ltac:(lia)) as (D & HofD & HD).
  pose proof (gap1_closed n Hn) as Hg1.
  pose proof (gap2_closed n Hn) as Hg2.
  pose proof (round_half_even_div_bounds n 100 ltac:(lia) ltac:(lia)) as Hr1.
  pose proof (round_half_even_div_bounds n 50 ltac:(lia) ltac:(lia)) as Hr2.
  assert (Hq1 : n / 100 <= n) by (apply Z.div_le_upper_bound; lia).
  assert (Hq2 : n / 50 <= n) by (apply Z.div_le_upper_bound; lia).
  assert (H47 : 2 ^ 53 = 64 * 2 ^ 47) by reflexivity.
  set (r1 := round_half_even_div n 100) in *.
  set (r2 := round_half_even_div n 50) in *.
  pose proof (int_times_exact _ D 5 1 n f_2_5_exact HD ltac:(lia) ltac:(lia)) as E25.
  pose proof (int_times_exact _ D 7 1 n f_3_5_exact HD ltac:(lia) ltac:(lia)) as E35.
  pose proof (int_times_exact _ D 17 1 n f_8_5_exact HD ltac:(lia) ltac:(lia)) as E85.
  pose proof (int_times_exact _ D 1 1 n f_0_5_exact HD ltac:(lia) ltac:(lia)) as E05.
  pose proof (int_times_exact _ D 1 2 n f_0_25_exact HD ltac:(lia) ltac:(lia)) as E025.
  pose proof (int_times_plus_exact _ D 11 1 n r2 f_5_5_exact HD ltac:(lia)
                ltac:(lia) ltac:(change (2 ^ 1) with 2; lia)) as E55.
  pose proof (int_times_plus_exact _ D 15 2 n r1 f_3_75_exact HD ltac:(lia)
                ltac:(lia) ltac:(change (2 ^ 2) with 4; lia)) as E375.
  pose proof (int_times_plus_exact _ D 29 2 n r2 f_7_25_exact HD ltac:(lia)
                ltac:(lia) ltac:(change (2 ^ 2) with 4; lia)) as E725.
  change (2 ^ 1) with 2 in *. change (2 ^ 2) with 4 in *.
  rewrite Z.mul_1_l in E05, E025.
  repeat split.
  - unfold cell_size, mul_int. rewrite HofD. cbn [bind].
    rewrite E25, E35. reflexivity.
  - unfold page_size, mul_int. rewrite HofD. cbn [bind].
    rewrite E85. reflexivity.
  - exact Hg1.
  - exact Hg2.
  - unfold xcords. rewrite Hg1, Hg2. unfold mul_int. rewrite HofD. cbn [bind].
    rewrite E05. cbn [bind]. rewrite E55. reflexivity.
  - unfold ycords. rewrite Hg1, Hg2. unfold mul_int. rewrite HofD. cbn [bind].
    rewrite E025. cbn [bind]. rewrite E375. cbn [bind]. rewrite E725.
    reflexivity.
Qed.

(** At the ties of [round]: [dpi = 50] gives a gap of 0 and [dpi = 150] a
    gap of 2, as [round(0.5) = 0] and [round(1.5) = 2] in Python. *)
Example gaps_at_ties :
  xcords 50 = OK [25; 150; 276] /\ xcords 150 = OK [75; 452; 828] /\
  xcords 250 = OK [125; 752; 1380].
Proof. repeat split; vm_compute; reflexivity. Qed.

(** ** The cells of a page do not overlap *)

(** The gap [round(.01 * dpi)] never exceeds [round(.02 * dpi)] in exact
    arithmetic. *)
Lemma round_half_even_div_100_50 (n : Z) :
  0 <= n -> round_half_even_div n 100 <= round_half_even_div n 50.
Proof.
  intros Hn. unfold round_half_even_div.
  destruct (Z.compare_spec (2 * (n mod 100)) 100);
    destruct (Z.compare_spec (2 * (n mod 50)) 50);
    try destruct (Z.even (n / 100)); try destruct (Z.even (n / 50));
    Z.div_mod_to_equations; lia.
Qed.

(** Each pitch is at least the side of the cell: below [2^47] by the
    closed forms, from there on by the error bounds. *)
Lemma pitch_holds (n wd ht x0 x1 x2 y0 y1 y2 : Z) :
  1 <= n ->
  cell_size n = OK (wd, ht) ->
  xcords n = OK [x0; x1; x2] ->
  ycords n = OK [y0; y1; y2] ->
  1 <= wd /\ 1 <= ht /\
  x0 + wd <= x1 /\ x1 + wd <= x2 /\ y0 + ht <= y1 /\ y1 + ht <= y2.
Proof.
  intros Hn Hcell Hxs Hys.
  destruct (Z.lt_ge_cases n (2 ^ 47)) as [Hsmall | Hlarge].
  - destruct (tables_in_closed_form n (conj Hn Hsmall))
      as (Hc & _ & _ & _ & Hx & Hy).
    pose proof (round_half_even_div_100_50 n ltac:(lia)) as Hr.
    pose proof (round_half_even_div_bounds n 100 ltac:(lia) ltac:(lia)) as Hr1.
    set (r1 := round_half_even_div n 100) in *.
    set (r2 := round_half_even_div n 50) in *.
    rewrite Hcell in Hc. rewrite Hxs in Hx. rewrite Hys in Hy.
    assert (Ec : wd = 5 * n / 2 /\ ht = 7 * n / 2) by (split; congruence).
    assert (Ex : x0 = n / 2 /\ x1 = 3 * n + r1 /\ x2 = 11 * n / 2 + r2)
      by (repeat split; congruence).
    assert (Ey : y0 = n / 4 /\ y1 = 15 * n / 4 + r1 /\ y2 = 29 * n / 4 + r2)
      by (repeat split; congruence).
    clear Hc Hx Hy Hcell Hxs Hys Hsmall.
    destruct Ec as [-> ->]. destruct Ex as (-> & -> & ->).
    destruct Ey as (-> & -> & ->).
    Z.div_mod_to_equations. lia.
  - assert (Hlarge' : 1000 <= n).
    { apply Z.le_trans with (2 ^ 47); [vm_compute; discriminate | exact Hlarge]. }
    destruct (layout_analysis n Hn
                (or_intror (conj (ex_intro _ _ Hcell)
                              (conj (ex_intro _ _ Hxs) (ex_intro _ _ Hys)))))
      as (wd' & ht' & x0' & r1 & r2 & x2' & y0' & y1' & y2' & Hlay).
    pose proof (pitch_of_layout _ _ _ _ _ _ _ _ _ _ Hlarge' Hlay) as Hp.
    destruct Hlay as [Hc _ _ Hx Hy _ _ _ _ _ _ _ _ _].
    rewrite Hcell in Hc. rewrite Hxs in Hx. rewrite Hys in Hy.
    assert (Ec : wd = wd' /\ ht = ht') by (split; congruence).
    assert (Ex : x0 = x0' /\ x1 = 3 * n + r1 /\ x2 = x2')
      by (repeat split; congruence).
    assert (Ey : y0 = y0' /\ y1 = y1' /\ y2 = y2')
      by (repeat split; congruence).
    lia.
Qed.

(** C4. For every [dpi >= 1] for which the cell size and the two
    coordinate tables are computed, the horizontal pitch between
    consecutive columns is at least the image width, the vertical pitch
    between consecutive rows is at least the image height, and so no two
    of the nine image rectangles of a page overlap. *)
Theorem cells_do_not_overlap (d wd ht : Z) (xs ys : list Z) :
  1 <= d ->
  cell_size d = OK (wd, ht) ->
  xcords d = OK xs ->
  ycords d = OK ys ->
  (exists x0 x1 x2 y0 y1 y2,
      xs = [x0; x1; x2] /\ ys = [y0; y1; y2] /\
      wd <= x1 - x0 /\ wd <= x2 - x1 /\ ht <= y1 - y0 /\ ht <= y2 - y1) /\
  (forall i j : nat,
      (i < 9)%nat -> (j < 9)%nat -> i <> j ->
      rect_disjoint (cell_position xs ys i) (cell_position xs ys j) wd ht).
Proof.
  intros Hd Hcell Hxs Hys.
  destruct (xcords_shape _ _ Hxs) as (x0 & x1 & x2 & ->).
  destruct (ycords_shape _ _ Hys) as (y0 & y1 & y2 & ->).
  destruct (pitch_holds _ _ _ _ _ _ _ _ _ Hd Hcell Hxs Hys)
    as (Hwd & Hht & Hx01 & Hx12 & Hy01 & Hy12).
  split.
  - exists x0, x1, x2, y0, y1, y2. repeat split; lia.
  - intros i j Hi Hj Hij. unfold rect_disjoint, cell_position.
    pose proof (Nat.div_mod_eq i 3) as Ei.
    pose proof (Nat.div_mod_eq j 3) as Ej.
    pose proof (Nat.mod_upper_bound i 3 ltac:(lia)) as Hci.
    pose proof (Nat.mod_upper_bound j 3 ltac:(lia)) as Hcj.
    assert (Hri : (i / 3 < 3)%nat) by (apply Nat.Div0.div_lt_upper_bound; lia).
    assert (Hrj : (j / 3 < 3)%nat) by (apply Nat.Div0.div_lt_upper_bound; lia).
    assert (Hne : (i mod 3 <> j mod 3 \/ i / 3 <> j / 3)%nat) by lia.
    clear Ei Ej Hi Hj Hij.
    generalize dependent (i mod 3)%nat. generalize dependent (i / 3)%nat.
    generalize dependent (j mod 3)%nat. generalize dependent (j / 3)%nat.
    clear i j. intros rj Hrj cj Hcj ri Hri ci Hci Hne.
    destruct ci as [| [| [| ?]]]; try lia;
      destruct ri as [| [| [| ?]]]; try lia;
      destruct cj as [| [| [| ?]]]; try lia;
      destruct rj as [| [| [| ?]]]; try lia;
      cbn [nth fst snd]; lia.
Qed.

Lemma cells_do_not_overlap_witness :
  (exists x0 x1 x2 y0 y1 y2,
      [50; 301; 552] = [x0; x1; x2] /\ [25; 376; 727] = [y0; y1; y2] /\
      250 <= x1 - x0 /\ 250 <= x2 - x1 /\ 350 <= y1 - y0 /\ 350 <= y2 - y1) /\
  (forall i j : nat,
      (i < 9)%nat -> (j < 9)%nat -> i <> j ->
      rect_disjoint (cell_position [50; 301; 552] [25; 376; 727] i)
        (cell_position [50; 301; 552] [25; 376; 727] j) 250 350).
Proof.
  apply (cells_do_not_overlap 100 250 350 [50; 301; 552] [25; 376; 727]).
  - lia.
  - vm_compute. reflexivity.
  - vm_compute. reflexivity.
  - vm_compute. reflexivity.
Defined.

(* ===================================================================== *)
(** * The size of an accepted image *)
(* ===================================================================== *)

Section CellSizeQ.

Local Open Scope Q_scope.

(** [int(2.5 * dpi)] and [int(3.5 * dpi)] for a [dpi] of at least 1, when
    they are computed: within the two roundings of the product and the
    cut of [int]. *)
Lemma cell_size_analysis (n wd ht : Z) :
  (1 <= n)%Z -> cell_size n = OK (wd, ht) ->
  within_times (5 # 2) n wd /\ within_times (7 # 2) n ht.
Proof.
  intros Hn Hcell.
  assert (HN : 1 <= inject_Z n).
  { change 1 with (inject_Z 1). now rewrite <- Zle_Qle. }
  destruct (of_int_Q n Hn)
    as [[HofD _] | (D & mD & eD & HofD & HD & HeD & HDlo & HDhi)].
  { exfalso. unfold cell_size, mul_int in Hcell. rewrite HofD in Hcell.
    discriminate Hcell. }
  assert (Hc : cell_size n =
            (w <- to_int (mul f_2_5 D) ;; h <- to_int (mul f_3_5 D) ;;
             OK (w, h))).
  { unfold cell_size, mul_int. now rewrite HofD. }
  destruct f_2_5_value as [L25 V25]. destruct f_3_5_value as [L35 V35].
  destruct (int_times D mD eD (inject_Z n) HD ltac:(lia) ltac:(lra) HDlo HDhi
              _ _ _ _ L25 ltac:(lia) V25) as [[E _] | (w' & Ew & Bw)].
  { exfalso. rewrite Hc, E in Hcell. discriminate Hcell. }
  destruct (int_times D mD eD (inject_Z n) HD ltac:(lia) ltac:(lra) HDlo HDhi
              _ _ _ _ L35 ltac:(lia) V35) as [[E _] | (h' & Eh & Bh)].
  { exfalso. rewrite Hc, Ew in Hcell. cbn [bind] in Hcell.
    rewrite E in Hcell. discriminate Hcell. }
  rewrite Hc, Ew, Eh in Hcell. cbn [bind] in Hcell.
  assert (Ew' : wd = w') by congruence.
  assert (Eh' : ht = h') by congruence.
  subst wd ht. split; [exact Bw | exact Bh].
Qed.

End CellSizeQ.

(** The two sides of [cell_size], each as its own computation. *)
Lemma cell_size_sides (d wd ht : Z) :
  cell_size d = OK (wd, ht) ->
  (x <- mul_int f_2_5 d ;; to_int x) = OK wd /\
  (x <- mul_int f_3_5 d ;; to_int x) = OK ht.
Proof.
  unfold cell_size. intros H.
  apply bind_OK in H. destruct H as (w' & Hw & H).
  apply bind_OK in H. destruct H as (h' & Hh & H).
  assert (E1 : wd = w') by congruence.
  assert (E2 : ht = h') by congruence.
  subst. auto.
Qed.

(** C7. Every image that [list_files] accepts was produced by one call
    [src.resize((int(2.5 * dpi), int(3.5 * dpi)))]: the size handed to
    [resize] is computed from [dpi] alone, never from the size of [src], so
    the accepted image has exactly that size whatever the original
    dimensions (a stretch, the aspect ratio is not kept). The width is
    [int] of the binary64 product [2.5 * dpi] and the height [int] of
    [3.5 * dpi]: for a [dpi] from 1 to below [2^47] these are
    [floor(5 * dpi / 2)] and [floor(7 * dpi / 2)], and for every [dpi] of
    at least 1 they lie within the rounding errors of [2.5 * dpi] and
    [3.5 * dpi]. *)
Theorem accepted_images_have_cell_size (lower : string -> string) (w : World)
    (args : arguments) (allfiles : list Image) (img : Image) :
  resize_gives_size w ->
  list_files lower w args = OK allfiles ->
  In img allfiles ->
  exists width height name src,
    cell_size (dpi args) = OK (width, height) /\
    (x <- mul_int f_2_5 (dpi args) ;; to_int x) = OK width /\
    (x <- mul_int f_3_5 (dpi args) ;; to_int x) = OK height /\
    (1 <= dpi args < 2 ^ 47 ->
     width = 5 * dpi args / 2 /\ height = 7 * dpi args / 2) /\
    (1 <= dpi args ->
     within_times (5 # 2) (dpi args) width /\
     within_times (7 # 2) (dpi args) height) /\
    im_size img = (width, height) /\
    In name (listdir w (folder args)) /\
    Image_open w (path_join (folder args) name) = OK src /\
    Image_resize w src (width, height) = OK img.
Proof.
  intros Hsize Hrun Hin.
  unfold list_files in Hrun. rewrite list_files_run_verdict in Hrun.
  cbn [bind fst] in Hrun. injection Hrun as <-.
  apply in_flat_map in Hin. destruct Hin as (name & Hname & Hacc).
  destruct (entry_verdict lower w args name) as [img' | reason] eqn:Hv;
    cbn [accepted_of] in Hacc; [| contradiction].
  destruct Hacc as [-> | []].
  unfold entry_verdict in Hv.
  destruct (any _ (excluded args)); [discriminate Hv |].
  destruct (negb _); [discriminate Hv |].
  destruct (load_image w args _) as [img' | e] eqn:Hload; [| discriminate Hv].
  injection Hv as ->.
  unfold load_image in Hload.
  apply bind_OK in Hload. destruct Hload as (img0 & _ & Hload).
  apply bind_OK in Hload. destruct Hload as (_u & _ & Hload).
  apply bind_OK in Hload. destruct Hload as (src & Hopen & Hload).
  apply bind_OK in Hload. destruct Hload as ([width height] & Hcell & Hres).
  destruct (cell_size_sides _ _ _ Hcell) as [Hw Hh].
  exists width, height, name, src.
  split; [exact Hcell |]. split; [exact Hw |]. split; [exact Hh |].
  split.
  { intros Hd. destruct (tables_in_closed_form _ Hd) as (Hc & _).
    rewrite Hcell in Hc. split; congruence. }
  split.
  { intros Hd. now apply cell_size_analysis. }
  split; [exact (Hsize _ _ _ Hres) |].
  split; [| auto].
  apply (Permutation_in _ (sorted_perm _)). exact Hname.
Qed.

Lemma accepted_images_have_cell_size_witness :
  exists width height name src,
    cell_size (dpi (Scenario.args 300)) = OK (width, height) /\
    (x <- mul_int f_2_5 (dpi (Scenario.args 300)) ;; to_int x) = OK width /\
    (x <- mul_int f_3_5 (dpi (Scenario.args 300)) ;; to_int x) = OK height /\
    (1 <= dpi (Scenario.args 300) < 2 ^ 47 ->
     width = 5 * dpi (Scenario.args 300) / 2 /\
     height = 7 * dpi (Scenario.args 300) / 2) /\
    (1 <= dpi (Scenario.args 300) ->
     within_times (5 # 2) (dpi (Scenario.args 300)) width /\
     within_times (7 # 2) (dpi (Scenario.args 300)) height) /\
    im_size {| im_file := "cards/c.jpg"; im_size := (750, 1050) |}
      = (width, height) /\
    In name (listdir Scenario.world (folder (Scenario.args 300))) /\
    Image_open Scenario.world (path_join (folder (Scenario.args 300)) name)
      = OK src /\
    Image_resize Scenario.world src (width, height)
      = OK {| im_file := "cards/c.jpg"; im_size := (750, 1050) |}.
Proof.
  apply (accepted_images_have_cell_size Scenario.lower Scenario.world
           (Scenario.args 300)
           [ {| im_file := "cards/a.png"; im_size := (750, 1050) |};
             {| im_file := "cards/c.jpg"; im_size := (750, 1050) |} ]).
  - exact scenario_resize_gives_size.
  - vm_compute. reflexivity.
  - simpl. tauto.
Defined.

(** The sizes at some values of [dpi]: the width and the height follow
    [dpi], the one of 3 is cut from [7.5 x 10.5]. *)
Example cell_sizes :
  cell_size 1 = OK (2, 3) /\ cell_size 3 = OK (7, 10) /\
  cell_size 100 = OK (250, 350) /\ cell_size 300 = OK (750, 1050) /\
  cell_size 1000 = OK (2500, 3500).
Proof. repeat split; vm_compute; reflexivity. Qed.

(* ===================================================================== *)
(** * [generate_images] when the pages can be made *)
(* ===================================================================== *)

Lemma f_3_0_exact : exact_float f_3_0 3 0.
Proof. literal_exact. Qed.

(** Below [2^47] the table X of the specification, with [3.0 * dpi] in
    floats, is the [xcords] of the code, with [3 * dpi] in ints. *)
Lemma xcords_as_specified_agrees (n : Z) :
  1 <= n < 2 ^ 47 -> xcords_as_specified n = xcords n.
Proof.
  intros Hn.
  destruct (tables_in_closed_form n Hn) as (_ & _ & _ & _ & Hx & _).
  rewrite Hx.
  destruct (of_int_exact n ltac:(lia)) as (D & HofD & HD).
  pose proof (gap1_closed n Hn) as Hg1.
  pose proof (gap2_closed n Hn) as Hg2.
  pose proof (round_half_even_div_bounds n 100 ltac:(lia) ltac:(lia)) as Hr1.
  pose proof (round_half_even_div_bounds n 50 ltac:(lia) ltac:(lia)) as Hr2.
  assert (Hq1 : n / 100 <= n) by (apply Z.div_le_upper_bound; lia).
  assert (Hq2 : n / 50 <= n) by (apply Z.div_le_upper_bound; lia).
  assert (H47 : 2 ^ 53 = 64 * 2 ^ 47) by reflexivity.
  set (r1 := round_half_even_div n 100) in *.
  set (r2 := round_half_even_div n 50) in *.
  pose proof (int_times_exact _ D 1 1 n f_0_5_exact HD ltac:(lia) ltac:(lia)) as E05.
  pose proof (int_times_plus_exact _ D 3 0 n r1 f_3_0_exact HD ltac:(lia)
                ltac:(lia) ltac:(change (2 ^ 0) with 1; lia)) as E30.
  pose proof (int_times_plus_exact _ D 11 1 n r2 f_5_5_exact HD ltac:(lia)
                ltac:(lia) ltac:(change (2 ^ 1) with 2; lia)) as E55.
  change (2 ^ 1) with 2 in *. change (2 ^ 0) with 1 in *.
  rewrite Z.mul_1_l in E05. rewrite Z.div_1_r in E30.
  unfold xcords_as_specified. rewrite Hg1, Hg2. unfold mul_int.
  rewrite HofD. cbn [bind]. rewrite E05. cbn [bind]. rewrite E30. cbn [bind].
  rewrite E55. reflexivity.
Qed.

Lemma page_size_height (d pw ph : Z) :
  page_size d = OK (pw, ph) -> ph = 11 * d.
Proof.
  unfold page_size. intros H. apply bind_OK in H.
  destruct H as (pw' & _ & H). congruence.
Qed.

Lemma INT_MAX_lt_pow47 : INT_MAX < 2 ^ 47.
Proof. reflexivity. Qed.

(** When a page has been made, [11 * dpi] is a C int. *)
Lemma new_background_bounds_dpi (w : World) (args : arguments) (i : Z)
    (c : Canvas) :
  new_background w args i = OK c -> 11 * dpi args <= INT_MAX.
Proof.
  intros H. destruct (new_background_inv _ _ _ _ H)
    as ([pw ph] & Hp & _ & _ & Hs & _).
  apply page_size_height in Hp. cbn [snd] in Hs. lia.
Qed.

(** With a [dpi] of at least 1 and each [Image.new] of the list
    comprehension returning, [generate_images] returns: the tables are
    those of exact arithmetic, the pages are as many as needed, of the
    page size, each with its images at their cells. *)
Lemma generate_images_returns (w : World) (fileslist : list Image)
    (args : arguments) :
  1 <= dpi args ->
  fileslist <> [] ->
  (forall k, (k < pages_needed (List.length fileslist))%nat ->
             exists c, new_background w args (Z.of_nat k) = OK c) ->
  11 * dpi args <= INT_MAX /\
  exists xs ys,
    xcords (dpi args) = OK xs /\ ycords (dpi args) = OK ys /\
    xcords_as_specified (dpi args) = OK xs /\
    page_size (dpi args) = OK (17 * dpi args / 2, 11 * dpi args) /\
    new_backgrounds w args (- (- Z.of_nat (List.length fileslist) / 9)) =
      OK (repeat (blank_page (17 * dpi args / 2, 11 * dpi args))
            (pages_needed (List.length fileslist))) /\
    generate_images w fileslist args =
      OK (map (fun p => page_with (17 * dpi args / 2, 11 * dpi args)
                          (page_content fileslist xs ys p))
            (seq 0 (pages_needed (List.length fileslist)))).
Proof.
  intros Hd Hne Hnew.
  assert (Hpos : (0 < pages_needed (List.length fileslist))%nat).
  { apply pages_needed_pos. destruct fileslist; [congruence |].
    cbn [List.length]. lia. }
  destruct (Hnew 0%nat Hpos) as [c0 Hc0].
  pose proof (new_background_bounds_dpi _ _ _ _ Hc0) as Hint.
  pose proof INT_MAX_lt_pow47 as H47.
  assert (Hd47 : 1 <= dpi args < 2 ^ 47) by lia.
  split; [exact Hint |].
  destruct (tables_in_closed_form _ Hd47) as (_ & Hp & _ & _ & Hx & Hy).
  eexists _, _. split; [exact Hx |]. split; [exact Hy |].
  split; [rewrite xcords_as_specified_agrees by exact Hd47; exact Hx |].
  split; [exact Hp |].
  apply generate_images_OK; [| exact Hx | exact Hy].
  intros j Hj. destruct (Hnew j Hj) as [c Hc]. rewrite Hc.
  destruct (new_background_inv _ _ _ _ Hc) as (sz & Hp' & -> & _).
  congruence.
Qed.

(** On the machine of the scenario every [Image.new] of a page of 100
    dpi returns. *)
Lemma scenario_pages_can_be_made (d : Z) (k : nat) :
  d = 100 \/ d = 1000 ->
  exists c, new_background Scenario.world (Scenario.args d) (Z.of_nat k) = OK c.
Proof. intros [-> | ->]; eexists; vm_compute; reflexivity. Qed.




(** C2, as stated, fails: on the machine without the storage of a page,
    the run with [dpi = 2000] hands two accepted images to
    [generate_images], [ceil(2 / 9) = 1] page is needed, and none is made:
    the first [Image.new] raises [MemoryError]. On any machine no page is
    made at [dpi = 2^31]: [Image.new] raises [OverflowError]. *)
Lemma no_page_without_storage :
  1 <= 2000 /\
  list_files Scenario.lower SmallMachine.world (Scenario.args 2000) =
    OK [SmallMachine.a_png; SmallMachine.c_jpg] /\
  pages_needed 2 = 1%nat /\
  new_backgrounds SmallMachine.world (Scenario.args 2000) (- (- 2 / 9)) =
    Raise MemoryError /\
  generate_images SmallMachine.world
    [SmallMachine.a_png; SmallMachine.c_jpg] (Scenario.args 2000) =
    Raise MemoryError /\
  (forall (w : World) (k : nat),
      new_backgrounds w (Scenario.args (2 ^ 31)) (Z.of_nat (S k)) =
      Raise OverflowError).
Proof.
  split; [lia |]. split; [vm_compute; reflexivity |].
  split; [reflexivity |]. split; [vm_compute; reflexivity |].
  split; [vm_compute; reflexivity |].
  intros w k. apply new_backgrounds_Raise. vm_compute. reflexivity.
Qed.

(** C2, amended. For every list of n accepted images and every [dpi] of
    at least 1 for which each [Image.new] of the list comprehension
    returns, the list comprehension of [generate_images] makes
    [ceil(n / 9)] canvases before the pasting loop starts, each of mode
    RGB, of size [(int(8.5 * dpi), 11 * dpi)], white and with nothing
    pasted; the pages returned are as many, of that size and colour. With
    no image no canvas is made and no page returned. *)
Theorem page_count_and_blank_pages (w : World) (fileslist : list Image)
    (args : arguments) :
  1 <= dpi args ->
  (forall k, (k < pages_needed (List.length fileslist))%nat ->
             exists c, new_background w args (Z.of_nat k) = OK c) ->
  exists blanks,
    new_backgrounds w args (- (- Z.of_nat (List.length fileslist) / 9))
      = OK blanks /\
    List.length blanks = pages_needed (List.length fileslist) /\
    (9 * pages_needed (List.length fileslist) < List.length fileslist + 9)%nat /\
    (List.length fileslist <= 9 * pages_needed (List.length fileslist))%nat /\
    (fileslist = [] ->
     blanks = [] /\
     forall pages, generate_images w fileslist args = OK pages -> pages = []) /\
    (fileslist <> [] ->
     exists pw xs ys pages,
       (x <- mul_int f_8_5 (dpi args) ;; to_int x) = OK pw /\
       pw = 17 * dpi args / 2 /\
       blanks = repeat {| cv_mode := "RGB"; cv_size := (pw, 11 * dpi args);
                          cv_color := "white"; cv_pasted := [] |}
                  (pages_needed (List.length fileslist)) /\
       xcords (dpi args) = OK xs /\ ycords (dpi args) = OK ys /\
       for_each (paste_step fileslist xs ys)
         (range (Z.of_nat (List.length fileslist))) blanks = OK pages /\
       generate_images w fileslist args = OK pages /\
       List.length pages = pages_needed (List.length fileslist) /\
       Forall (fun page => cv_mode page = "RGB" /\
                           cv_size page = (pw, 11 * dpi args) /\
                           cv_color page = "white") pages).
Proof.
  intros Hd Hnew.
  pose proof (pages_needed_is_ceiling (List.length fileslist)) as [Hc1 Hc2].
  destruct fileslist as [| img0 rest].
  - exists []. split; [reflexivity |]. split; [reflexivity |].
    split; [exact Hc1 |]. split; [exact Hc2 |]. split.
    + intros _. split; [reflexivity |]. apply generate_images_nil.
    + congruence.
  - destruct (generate_images_returns w (img0 :: rest) args Hd
                ltac:(discriminate) Hnew)
      as (_ & xs & ys & Hxs & Hys & _ & Hpage & Hblanks & Hgen).
    eexists. split; [exact Hblanks |].
    split; [apply repeat_length |].
    split; [exact Hc1 |]. split; [exact Hc2 |].
    split; [discriminate |]. intros _.
    exists (17 * dpi args / 2), xs, ys.
    eexists. split.
    { unfold page_size in Hpage.
      destruct (x <- mul_int f_8_5 (dpi args) ;; to_int x) as [pw' |];
        [| discriminate Hpage].
      cbn [bind] in Hpage. congruence. }
    split; [reflexivity |]. split; [reflexivity |].
    split; [exact Hxs |]. split; [exact Hys |]. split.
    { pose proof Hgen as H. unfold generate_images in H.
      rewrite Hblanks, Hxs, Hys in H. exact H. }
    split; [exact Hgen |]. split.
    + now rewrite length_map, length_seq.
    + apply Forall_forall. intros page Hin.
      apply in_map_iff in Hin. destruct Hin as (p & <- & _). auto.
Qed.

Lemma page_count_and_blank_pages_witness :
  exists blanks,
    new_backgrounds Scenario.world (Scenario.args 100)
      (- (- Z.of_nat (List.length (repeat Scenario.a_png 20)) / 9))
      = OK blanks /\
    List.length blanks = pages_needed (List.length (repeat Scenario.a_png 20)) /\
    (9 * pages_needed (List.length (repeat Scenario.a_png 20))
     < List.length (repeat Scenario.a_png 20) + 9)%nat /\
    (List.length (repeat Scenario.a_png 20)
     <= 9 * pages_needed (List.length (repeat Scenario.a_png 20)))%nat /\
    (repeat Scenario.a_png 20 = [] ->
     blanks = [] /\
     forall pages,
       generate_images Scenario.world (repeat Scenario.a_png 20)
         (Scenario.args 100) = OK pages -> pages = []) /\
    (repeat Scenario.a_png 20 <> [] ->
     exists pw xs ys pages,
       (x <- mul_int f_8_5 (dpi (Scenario.args 100)) ;; to_int x) = OK pw /\
       pw = 17 * dpi (Scenario.args 100) / 2 /\
       blanks = repeat {| cv_mode := "RGB";
                          cv_size := (pw, 11 * dpi (Scenario.args 100));
                          cv_color := "white"; cv_pasted := [] |}
                  (pages_needed (List.length (repeat Scenario.a_png 20))) /\
       xcords (dpi (Scenario.args 100)) = OK xs /\
       ycords (dpi (Scenario.args 100)) = OK ys /\
       for_each (paste_step (repeat Scenario.a_png 20) xs ys)
         (range (Z.of_nat (List.length (repeat Scenario.a_png 20)))) blanks
         = OK pages /\
       generate_images Scenario.world (repeat Scenario.a_png 20)
         (Scenario.args 100) = OK pages /\
       List.length pages = pages_needed (List.length (repeat Scenario.a_png 20)) /\
       Forall (fun page => cv_mode page = "RGB" /\
                           cv_size page = (pw, 11 * dpi (Scenario.args 100)) /\
                           cv_color page = "white") pages).
Proof.
  apply (page_count_and_blank_pages Scenario.world (repeat Scenario.a_png 20)
           (Scenario.args 100)).
  - cbn [dpi Scenario.args]. lia.
  - intros k _. apply scenario_pages_can_be_made. now left.
Defined.

(** The scenario with 20 accepted images and [dpi = 1000]: three pages, the
    last with two images, in the first two cells. *)
Example twenty_images_three_pages :
  exists p0 p1 p2,
    generate_images Scenario.world (repeat Scenario.a_png 20)
      (Scenario.args 1000) = OK [p0; p1; p2] /\
    List.length (cv_pasted p0) = 9%nat /\ List.length (cv_pasted p1) = 9%nat /\
    cv_pasted p2 = [(Scenario.a_png, (500, 250)); (Scenario.a_png, (3010, 250))].
Proof. eexists _, _, _. vm_compute. repeat split. Qed.

(* ===================================================================== *)
(** * The output name and the verbosity of [parse_arguments] *)
(* ===================================================================== *)

Lemma prefix_app (a b : string) : String.prefix a (a ++ b) = true.
Proof.
  induction a as [| c a IH]; cbn [String.prefix append].
  - now destruct b.
  - destruct (ascii_dec c c); [exact IH | congruence].
Qed.

Lemma append_assoc (a b c : string) :
  ((a ++ b) ++ c = a ++ (b ++ c))%string.
Proof. induction a as [| x a IH]; cbn [append]; [reflexivity | now rewrite IH]. Qed.

Lemma append_empty_r (a : string) : (a ++ "")%string = a.
Proof. induction a as [| x a IH]; cbn [append]; [reflexivity | now rewrite IH]. Qed.

Lemma string_rev_app (a b : string) :
  string_rev (a ++ b) = (string_rev b ++ string_rev a)%string.
Proof.
  induction a as [| x a IH]; cbn [append string_rev].
  - now rewrite append_empty_r.
  - now rewrite IH, append_assoc.
Qed.

(** [(s + p).endswith(p)] *)
Lemma endswith_app (s p : string) : endswith (s ++ p) p = true.
Proof. unfold endswith. rewrite string_rev_app. apply prefix_app. Qed.

Lemma output_file_ends_with_pdf (out : option string) :
  endswith (output_file out) ".pdf" = true.
Proof.
  destruct out as [out |]; cbn [output_file]; [| reflexivity].
  destruct (endswith out ".pdf") eqn:E; [exact E | apply endswith_app].
Qed.

(** [output_file] is a fixed point on what it returns. *)
Lemma output_file_idempotent (out : option string) :
  output_file (Some (output_file out)) = output_file out.
Proof.
  change (output_file (Some (output_file out)))
    with (if endswith (output_file out) ".pdf" then output_file out
          else (output_file out ++ ".pdf")%string).
  now rewrite output_file_ends_with_pdf.
Qed.

(** [parse_arguments] with the path [o] named. *)
Lemma parse_arguments_unfold (w : World) (ns : Namespace) :
  parse_arguments w ns =
  if isfile w (output_file (ns_output ns)) then
    Raise (FileExistsError "Attempted output file already exists")
  else if negb (isdir w (ns_folder ns)) then
    Raise (FileNotFoundError ("'" ++ ns_folder ns ++ "' is not a folder.")%string)
  else OK {| folder := ns_folder ns;
             output := output_file (ns_output ns);
             excluded := ns_excluded ns;
             dpi := ns_dpi ns;
             verb := if ns_quiet ns then 0
                     else if ns_verbose ns then 2 else 1 |}.
Proof. reflexivity. Qed.

Lemma parse_arguments_inv (w : World) (ns : Namespace) (a : arguments) :
  parse_arguments w ns = OK a ->
  isfile w (output_file (ns_output ns)) = false /\
  isdir w (ns_folder ns) = true /\
  a = {| folder := ns_folder ns;
         output := output_file (ns_output ns);
         excluded := ns_excluded ns;
         dpi := ns_dpi ns;
         verb := if ns_quiet ns then 0 else if ns_verbose ns then 2 else 1 |}.
Proof.
  rewrite parse_arguments_unfold.
  destruct (isfile w _); [discriminate |].
  destruct (isdir w _); cbn [negb]; [| discriminate].
  intros H. injection H as <-. auto.
Qed.

(** X1. When [parse_arguments] returns, the output path of the dict ends in
    [.pdf], whatever was typed after [-o], no file exists at that path,
    and the folder is an existing directory; the folder, the prefixes and
    the dpi are those of the command line. *)
Theorem parsed_output_is_a_free_pdf_path (w : World) (ns : Namespace)
    (a : arguments) :
  parse_arguments w ns = OK a ->
  output a = output_file (ns_output ns) /\
  endswith (output a) ".pdf" = true /\
  isfile w (output a) = false /\
  isdir w (folder a) = true /\
  folder a = ns_folder ns /\ excluded a = ns_excluded ns /\
  dpi a = ns_dpi ns.
Proof.
  intros H. apply parse_arguments_inv in H. destruct H as (Hf & Hd & ->).
  cbn [output folder excluded dpi].
  split; [reflexivity |].
  split; [apply output_file_ends_with_pdf |]. auto.
Qed.

Lemma parsed_output_is_a_free_pdf_path_witness :
  output (Scenario.args 300) = output_file (Some "output") /\
  endswith (output (Scenario.args 300)) ".pdf" = true /\
  isfile Scenario.world (output (Scenario.args 300)) = false /\
  isdir Scenario.world (folder (Scenario.args 300)) = true /\
  folder (Scenario.args 300) = "cards" /\ excluded (Scenario.args 300) = [] /\
  dpi (Scenario.args 300) = 300.
Proof.
  apply (parsed_output_is_a_free_pdf_path Scenario.world
           {| ns_folder := "cards"; ns_output := Some "output";
              ns_excluded := []; ns_dpi := 300; ns_verbose := false;
              ns_quiet := false |} (Scenario.args 300)).
  reflexivity.
Defined.

(** X2. The suffix [.pdf] is optional after [-o]: a name that does not end in
    [.pdf] and the same name with [.pdf] appended give the same run of
    [parse_arguments], result or exception. *)
Theorem pdf_suffix_is_optional (w : World) (ns : Namespace) (out : string) :
  endswith out ".pdf" = false ->
  parse_arguments w (with_output ns (Some out)) =
  parse_arguments w (with_output ns (Some (out ++ ".pdf")%string)).
Proof.
  intros H. rewrite !parse_arguments_unfold. cbn [with_output ns_output ns_folder
    ns_excluded ns_dpi ns_quiet ns_verbose output_file].
  now rewrite H, endswith_app.
Qed.

Lemma pdf_suffix_is_optional_witness :
  parse_arguments Scenario.world
    (with_output {| ns_folder := "cards"; ns_output := None;
                    ns_excluded := []; ns_dpi := 300; ns_verbose := false;
                    ns_quiet := false |} (Some "deck")) =
  parse_arguments Scenario.world
    (with_output {| ns_folder := "cards"; ns_output := None;
                    ns_excluded := []; ns_dpi := 300; ns_verbose := false;
                    ns_quiet := false |} (Some ("deck" ++ ".pdf")%string)).
Proof.
  apply (pdf_suffix_is_optional Scenario.world
           {| ns_folder := "cards"; ns_output := None;
              ns_excluded := []; ns_dpi := 300; ns_verbose := false;
              ns_quiet := false |} "deck").
  reflexivity.
Defined.

(** X4. The level handed to [logging.basicConfig] is always found in the dict
    [verbosity]: [CRITICAL] with [--quiet], [DEBUG] with [--verbose],
    [INFO] with neither; [verb] is 0, 2 or 1 accordingly. *)
Theorem verbosity_is_always_found (w : World) (ns : Namespace) (a : arguments) :
  parse_arguments w ns = OK a ->
  verb a = (if ns_quiet ns then 0 else if ns_verbose ns then 2 else 1) /\
  basicConfig_level a =
    Some (if ns_quiet ns then logging_CRITICAL
          else if ns_verbose ns then logging_DEBUG else logging_INFO).
Proof.
  intros H. apply parse_arguments_inv in H. destruct H as (_ & _ & ->).
  unfold basicConfig_level. cbn [verb].
  destruct (ns_quiet ns); [auto |]. destruct (ns_verbose ns); auto.
Qed.

Lemma verbosity_is_always_found_witness :
  verb (Scenario.args 300) = 1 /\
  basicConfig_level (Scenario.args 300) = Some logging_INFO.
Proof.
  apply (verbosity_is_always_found Scenario.world
           {| ns_folder := "cards"; ns_output := None;
              ns_excluded := []; ns_dpi := 300; ns_verbose := false;
              ns_quiet := false |} (Scenario.args 300)).
  reflexivity.
Defined.

(* ===================================================================== *)
(** * [list_files]: the table it prints, and the exclusion test *)
(* ===================================================================== *)

Lemma len_app (a b : string) : len (a ++ b) = (len a + len b)%nat.
Proof.
  induction a as [| c a IH]; cbn [append len]; [reflexivity |].
  destruct (is_continuation c); [exact IH | now rewrite IH].
Qed.

Lemma len_spaces (n : nat) : len (spaces n) = n.
Proof. induction n as [| n IH]; cbn; [reflexivity | now rewrite IH]. Qed.

Lemma len_format_width (s : string) (width : nat) :
  (len s <= width)%nat -> len (format_width s width) = width.
Proof. intros H. unfold format_width. rewrite len_app, len_spaces. lia. Qed.

Lemma fold_left_max_le (l : list nat) (x : nat) :
  (x <= fold_left Nat.max l x)%nat /\
  Forall (fun y => (y <= fold_left Nat.max l x)%nat) l.
Proof.
  revert x. induction l as [| y l IH]; intros x; cbn [fold_left].
  - split; [lia | constructor].
  - destruct (IH (Nat.max x y)) as [H1 H2]. split; [lia |].
    constructor; [lia | exact H2].
Qed.

Lemma fold_left_max_reached (l : list nat) (x : nat) :
  fold_left Nat.max l x = x \/ In (fold_left Nat.max l x) l.
Proof.
  revert x. induction l as [| y l IH]; intros x; cbn [fold_left].
  - now left.
  - destruct (IH (Nat.max x y)) as [H | H].
    + rewrite H. destruct (Nat.max_spec x y) as [[_ E] | [_ E]]; rewrite E.
      * right. now left.
      * now left.
    + right. now right.
Qed.

(** The width of the name column: the longest rejected name, 18 at
    least; with it the lines of the table are printed. *)
Lemma table_width (write : string -> result unit) (r : string * string)
    (rest : list (string * string)) :
  exists mlen,
    print_table write (r :: rest) =
      print_all write (table_lines mlen (r :: rest)) /\
    (18 <= mlen)%nat /\
    Forall (fun r => (len (fst r) <= mlen)%nat) (r :: rest) /\
    (mlen = 18%nat \/ exists r', In r' (r :: rest) /\ len (fst r') = mlen).
Proof.
  unfold print_table. cbn [map max_of].
  set (m := fold_left Nat.max (map (fun i => len (fst i)) rest) (len (fst r))).
  destruct (fold_left_max_le (map (fun i => len (fst i)) rest) (len (fst r)))
    as [H1 H2]. fold m in H1, H2.
  assert (Hreach : exists r', In r' (r :: rest) /\ len (fst r') = m).
  { destruct (fold_left_max_reached (map (fun i => len (fst i)) rest)
                (len (fst r))) as [E | E]; fold m in E.
    - exists r. split; [now left | now symmetry].
    - apply in_map_iff in E. destruct E as (r' & E & Hin).
      exists r'. split; [now right | exact E]. }
  exists (if (18 <? m)%nat then m else 18%nat).
  split; [reflexivity |].
  destruct (Nat.ltb_spec 18 m) as [Hlt | Hge].
  - split; [lia |]. split; [| right; exact Hreach].
    constructor; [exact H1 |].
    rewrite Forall_map in H2. exact H2.
  - split; [lia |]. split; [| now left].
    constructor; [lia |].
    rewrite Forall_map in H2. eapply Forall_impl; [| exact H2].
    cbn beta. intros; lia.
Qed.

(** What a run of prints writes: the lines up to the first print that
    raises. *)
Lemma print_all_cut (write : string -> result unit) (lines : list string) :
  exists k,
    fst (print_all write lines) = firstn k lines /\
    Forall (fun line => write line = OK tt) (firstn k lines) /\
    ((k = List.length lines /\ snd (print_all write lines) = OK tt) \/
     (exists line e,
         nth_error lines k = Some line /\ write line = Raise e /\
         snd (print_all write lines) = Raise e)).
Proof.
  induction lines as [| line rest IH]; cbn [print_all].
  - exists 0%nat. cbn. split; [reflexivity |]. split; [constructor |].
    left. split; reflexivity.
  - destruct (write line) as [[] | e] eqn:Hw.
    + destruct IH as (k & Hfst & Hall & Hend). exists (S k).
      cbn [fst snd firstn List.length nth_error].
      split; [now rewrite Hfst |]. split; [now constructor |].
      destruct Hend as [[-> Hs] | (l & e & Hn & Hl & Hs)].
      * left. split; [reflexivity | exact Hs].
      * right. exists l, e. auto.
    + exists 0%nat. cbn [fst snd firstn nth_error].
      split; [reflexivity |]. split; [constructor |].
      right. exists line, e. auto.
Qed.

Lemma length_table_lines (mlen : nat) (excluded_files : list (string * string)) :
  List.length (table_lines mlen excluded_files) = S (List.length excluded_files).
Proof. unfold table_lines. cbn [List.length]. now rewrite length_map. Qed.

(** X9. When nothing was rejected the [try] that ends [list_files] prints
    nothing: [max] of the empty sequence raises [ValueError] before the
    header is printed, and the [except ValueError] absorbs it. Otherwise
    the lines written are the header and the rows, in the order of the
    records, up to the first [print] that raises: the header and one row
    for each record when every [print] returns; when one raises a
    [ValueError], as the [UnicodeEncodeError] of a name that the standard
    output cannot encode is, the exception is absorbed as well and the
    statement ends normally with the table cut short; any other exception
    leaves it. *)
Theorem table_is_cut_at_the_first_failure (write : string -> result unit) :
  (print_table write [] = ([], Raise ValueError) /\
   rejection_table write [] = ([], OK tt)) /\
  (forall excluded_files,
      excluded_files <> [] ->
      exists mlen k,
        fst (rejection_table write excluded_files) =
          firstn k (table_lines mlen excluded_files) /\
        Forall (fun line => write line = OK tt)
          (firstn k (table_lines mlen excluded_files)) /\
        ((k = S (List.length excluded_files) /\
          snd (rejection_table write excluded_files) = OK tt) \/
         (exists line e,
             nth_error (table_lines mlen excluded_files) k = Some line /\
             write line = Raise e /\
             snd (rejection_table write excluded_files) =
               if is_ValueError e then OK tt else Raise e))).
Proof.
  split; [split; reflexivity |].
  intros excluded_files Hne.
  destruct excluded_files as [| r rest]; [congruence |].
  destruct (table_width write r rest) as (mlen & Hprint & _).
  destruct (print_all_cut write (table_lines mlen (r :: rest)))
    as (k & Hfst & Hall & Hend).
  exists mlen, k. unfold rejection_table. rewrite Hprint. cbn [fst snd].
  split; [exact Hfst |]. split; [exact Hall |].
  destruct Hend as [[Hk Hs] | (line & e & Hn & Hw & Hs)].
  - left. rewrite length_table_lines in Hk. split; [exact Hk |].
    now rewrite Hs.
  - right. exists line, e. split; [exact Hn |]. split; [exact Hw |].
    now rewrite Hs.
Qed.

Lemma in_firstn {A : Type} (k : nat) (l : list A) (x : A) :
  In x (firstn k l) -> In x l.
Proof.
  intros H. rewrite <- (firstn_skipn k l). apply in_or_app. now left.
Qed.

(** X10. Every line of the table that is written is aligned: with [mlen]
    the length of the longest rejected name, 18 at least (the length of
    the header "Excluded file name"), a written line is the header or
    the row of a record, made of the name, kept whole and padded to
    exactly [mlen] code points, then ["|"], then the reason: the bar is
    at the same offset in every line, whether the table is whole or cut
    short. *)
Theorem written_lines_are_aligned (write : string -> result unit)
    (excluded_files : list (string * string)) :
  excluded_files <> [] ->
  exists mlen,
    (18 <= mlen)%nat /\
    (mlen = 18%nat \/ exists r, In r excluded_files /\ len (fst r) = mlen) /\
    Forall (fun r => (len (fst r) <= mlen)%nat) excluded_files /\
    Forall (fun line =>
              exists name reason,
                ((name, reason) = ("Excluded file name", "Reason") \/
                 In (name, reason) excluded_files) /\
                line = (format_width name mlen ++ "|" ++ reason)%string /\
                len (format_width name mlen) = mlen /\
                String.prefix name (format_width name mlen) = true)
      (fst (rejection_table write excluded_files)).
Proof.
  intros Hne. destruct excluded_files as [| r rest]; [congruence |].
  destruct (table_width write r rest) as (mlen & Hprint & H18 & Hall & Hreach).
  destruct (print_all_cut write (table_lines mlen (r :: rest)))
    as (k & Hfst & _ & _).
  exists mlen. split; [exact H18 |]. split; [exact Hreach |].
  split; [exact Hall |].
  unfold rejection_table. rewrite Hprint. cbn [fst]. rewrite Hfst.
  apply Forall_forall. intros line Hin. apply in_firstn in Hin.
  unfold table_lines in Hin. destruct Hin as [<- | Hin].
  - exists "Excluded file name", "Reason".
    split; [now left |]. split; [reflexivity |].
    split; [apply len_format_width; exact H18 | apply prefix_app].
  - apply in_map_iff in Hin. destruct Hin as ([name reason] & <- & Hin).
    exists name, reason. cbn [fst snd].
    split; [now right |]. split; [reflexivity |].
    rewrite Forall_forall in Hall. specialize (Hall _ Hin). cbn [fst] in Hall.
    split; [now apply len_format_width | apply prefix_app].
Qed.

Lemma written_lines_are_aligned_witness :
  exists mlen,
    (18 <= mlen)%nat /\
    (mlen = 18%nat \/
     exists r, In r [("b.txt", "is not a valid image");
                     ("a-very-long-name-of-a-folder", "is not a file")] /\
               len (fst r) = mlen) /\
    Forall (fun r => (len (fst r) <= mlen)%nat)
      [("b.txt", "is not a valid image");
       ("a-very-long-name-of-a-folder", "is not a file")] /\
    Forall (fun line =>
              exists name reason,
                ((name, reason) = ("Excluded file name", "Reason") \/
                 In (name, reason)
                   [("b.txt", "is not a valid image");
                    ("a-very-long-name-of-a-folder", "is not a file")]) /\
                line = (format_width name mlen ++ "|" ++ reason)%string /\
                len (format_width name mlen) = mlen /\
                String.prefix name (format_width name mlen) = true)
      (fst (rejection_table (fun _ => OK tt)
              [("b.txt", "is not a valid image");
               ("a-very-long-name-of-a-folder", "is not a file")])).
Proof.
  apply (written_lines_are_aligned (fun _ => OK tt)
           [("b.txt", "is not a valid image");
            ("a-very-long-name-of-a-folder", "is not a file")]).
  discriminate.
Defined.

(** The table of the scenario on a standard output that takes every
    line: names of at most 18 code points leave the header as it is. On a
    standard output that cannot encode the row of [b.txt], the table
    stops after the row of [b.png] and the statement ends normally. *)
Example scenario_table :
  rejection_table (fun _ => OK tt)
    [("b.png", "is not a valid image"); ("b.txt", "is not a valid image");
     ("old", "is not a file")] =
    (["Excluded file name|Reason";
      "b.png             |is not a valid image";
      "b.txt             |is not a valid image";
      "old               |is not a file"], OK tt) /\
  rejection_table
    (fun line => if String.prefix "b.txt" line then Raise UnicodeEncodeError
                 else OK tt)
    [("b.png", "is not a valid image"); ("b.txt", "is not a valid image");
     ("old", "is not a file")] =
    (["Excluded file name|Reason";
      "b.png             |is not a valid image"], OK tt).
Proof. split; vm_compute; reflexivity. Qed.

(** ** Exclusion *)

Lemma prefix_empty (s : string) : String.prefix "" s = true.
Proof. now destruct s. Qed.

(** X6. The empty prefix excludes everything: with [""] among the prefixes
    every entry of the folder is recorded as "is in excluded list", no
    file is looked at and no image is accepted. *)
Theorem empty_prefix_excludes_everything (lower : string -> string)
    (w : World) (args : arguments) :
  In "" (excluded args) ->
  list_files_run lower w args =
    OK ([], map (fun files => (files, "is in excluded list"))
              (sorted (listdir w (folder args)))) /\
  list_files lower w args = OK [].
Proof.
  intros Hin.
  assert (Hv : forall files,
             entry_verdict lower w args files = Rejected "is in excluded list").
  { intros files. unfold entry_verdict.
    replace (any _ (excluded args)) with true; [reflexivity |].
    symmetry. apply existsb_exists. exists "". split; [exact Hin |].
    apply prefix_empty. }
  assert (Hrun : list_files_run lower w args =
            OK ([], map (fun files => (files, "is in excluded list"))
                      (sorted (listdir w (folder args))))).
  { rewrite list_files_run_verdict. f_equal. f_equal.
    - induction (sorted _) as [| f l IH]; [reflexivity |].
      cbn [flat_map]. now rewrite Hv, IH.
    - induction (sorted _) as [| f l IH]; [reflexivity |].
      cbn [flat_map map]. now rewrite Hv, IH. }
  split; [exact Hrun |]. unfold list_files. now rewrite Hrun.
Qed.

Lemma empty_prefix_excludes_everything_witness :
  list_files_run Scenario.lower Scenario.world
    (with_excluded (Scenario.args 100) ["zz"; ""]) =
    OK ([], map (fun files => (files, "is in excluded list"))
              (sorted (listdir Scenario.world
                         (folder (with_excluded (Scenario.args 100) ["zz"; ""]))))) /\
  list_files Scenario.lower Scenario.world
    (with_excluded (Scenario.args 100) ["zz"; ""]) = OK [].
Proof.
  apply (empty_prefix_excludes_everything Scenario.lower Scenario.world
           (with_excluded (Scenario.args 100) ["zz"; ""])).
  simpl. tauto.
Defined.

Lemma subsequence_refl {A : Type} (l : list A) : subsequence l l.
Proof. induction l; constructor; assumption. Qed.

Lemma subsequence_app {A : Type} (a a' b b' : list A) :
  subsequence a a' -> subsequence b b' -> subsequence (a ++ b) (a' ++ b').
Proof.
  intros Ha Hb. induction Ha; cbn [app]; [exact Hb | |]; now constructor.
Qed.

Lemma subsequence_nil {A : Type} (l : list A) : subsequence [] l.
Proof. induction l; constructor; assumption. Qed.

Lemma subsequence_length {A : Type} (l l' : list A) :
  subsequence l l' -> (List.length l <= List.length l')%nat.
Proof. induction 1; cbn [List.length]; lia. Qed.

Lemma subsequence_incl {A : Type} (l l' : list A) :
  subsequence l l' -> incl l l'.
Proof.
  induction 1 as [| x l l' _ IH | x l l' _ IH]; intros y Hy.
  - exact Hy.
  - right. now apply IH.
  - destruct Hy as [-> | Hy]; [now left | right; now apply IH].
Qed.

(** What is decided for an entry with more prefixes: the same, or
    "is in excluded list". *)
Lemma entry_verdict_more_prefixes (lower : string -> string) (w : World)
    (args : arguments) (more : list string) (files : string) :
  entry_verdict lower w (with_excluded args (excluded args ++ more)) files =
    entry_verdict lower w args files \/
  entry_verdict lower w (with_excluded args (excluded args ++ more)) files =
    Rejected "is in excluded list".
Proof.
  unfold entry_verdict, any. cbn [with_excluded excluded folder].
  rewrite existsb_app.
  destruct (existsb _ (excluded args)); cbn [orb]; [now left |].
  destruct (existsb _ more); [now right | now left].
Qed.

(** X7. Prefixes only take away: with more prefixes after [-e], the images
    that [list_files] returns are a subsequence of those it returned
    before, in the same order; none is added and none is changed. *)
Theorem more_prefixes_fewer_images (lower : string -> string) (w : World)
    (args : arguments) (more : list string) (allfiles allfiles' : list Image) :
  list_files lower w args = OK allfiles ->
  list_files lower w (with_excluded args (excluded args ++ more)) = OK allfiles' ->
  subsequence allfiles' allfiles /\
  incl allfiles' allfiles /\
  (List.length allfiles' <= List.length allfiles)%nat.
Proof.
  unfold list_files. rewrite !list_files_run_verdict. cbn [bind fst].
  cbn [with_excluded folder].
  intros H H'. injection H as <-. injection H' as <-.
  assert (Hsub : forall l,
             subsequence
               (flat_map (fun f => accepted_of
                  (entry_verdict lower w
                     (with_excluded args (excluded args ++ more)) f)) l)
               (flat_map (fun f => accepted_of (entry_verdict lower w args f)) l)).
  { induction l as [| f l IH]; cbn [flat_map]; [constructor |].
    apply subsequence_app; [| exact IH].
    destruct (entry_verdict_more_prefixes lower w args more f) as [-> | ->].
    - apply subsequence_refl.
    - apply subsequence_nil. }
  split; [apply Hsub |].
  split; [apply subsequence_incl, Hsub | apply subsequence_length, Hsub].
Qed.

Lemma more_prefixes_fewer_images_witness :
  subsequence [Scenario.c_jpg] [Scenario.a_png; Scenario.c_jpg] /\
  incl [Scenario.c_jpg] [Scenario.a_png; Scenario.c_jpg] /\
  (List.length [Scenario.c_jpg] <=
   List.length [Scenario.a_png; Scenario.c_jpg])%nat.
Proof.
  apply (more_prefixes_fewer_images Scenario.lower Scenario.world
           (Scenario.args 100) ["a"]).
  - vm_compute. reflexivity.
  - vm_compute. reflexivity.
Defined.

(** ** What [list_files] does not look at *)

Lemma load_image_same (w1 w2 : World) (args : arguments) (fn : string) :
  Image_open w1 fn = Image_open w2 fn ->
  (forall img, Image_verify w1 img = Image_verify w2 img) ->
  (forall img sz, Image_resize w1 img sz = Image_resize w2 img sz) ->
  load_image w1 args fn = load_image w2 args fn.
Proof.
  intros Ho Hv Hr. unfold load_image. rewrite Ho.
  destruct (Image_open w2 fn) as [img | e]; cbn [bind]; [| reflexivity].
  rewrite Hv. destruct (Image_verify w2 img); cbn [bind]; [| reflexivity].
  destruct (cell_size (dpi args)); cbn [bind]; [apply Hr | reflexivity].
Qed.

(** X8. An entry that is excluded, or is not a file, is never opened: two
    worlds that differ only in what [Image.open] does on such entries give
    the same images and the same rejection records. *)
Theorem excluded_entries_are_not_opened (lower : string -> string)
    (w1 w2 : World) (args : arguments) :
  same_for_list_files lower w1 w2 args ->
  list_files_run lower w1 args = list_files_run lower w2 args /\
  list_files lower w1 args = list_files lower w2 args.
Proof.
  intros (Hdir & Hfile & Hv & Hr & Ho).
  assert (Hverdict : forall files,
             entry_verdict lower w1 args files = entry_verdict lower w2 args files).
  { intros files. unfold entry_verdict.
    destruct (any _ (excluded args)) eqn:Hex; [reflexivity |].
    rewrite <- Hfile.
    destruct (isfile w1 _) eqn:Hf; cbn [negb]; [| reflexivity].
    now rewrite (load_image_same w1 w2 args _ (Ho files Hex Hf) Hv Hr). }
  assert (Hrun : list_files_run lower w1 args = list_files_run lower w2 args).
  { rewrite !list_files_run_verdict, <- Hdir. f_equal. f_equal.
    - apply flat_map_ext. intros f. now rewrite Hverdict.
    - apply flat_map_ext. intros f. now rewrite Hverdict. }
  split; [exact Hrun |]. unfold list_files. now rewrite Hrun.
Qed.

Lemma excluded_entries_are_not_opened_witness :
  list_files_run Scenario.lower Scenario.world (Scenario.args 100) =
  list_files_run Scenario.lower world_opening_old (Scenario.args 100) /\
  list_files Scenario.lower Scenario.world (Scenario.args 100) =
  list_files Scenario.lower world_opening_old (Scenario.args 100).
Proof.
  apply (excluded_entries_are_not_opened Scenario.lower Scenario.world
           world_opening_old (Scenario.args 100)).
  split; [reflexivity |]. split; [reflexivity |].
  split; [reflexivity |]. split; [reflexivity |].
  intros files _ Hfile.
  cbn [Image_open world_opening_old].
  destruct (String.eqb_spec
              (path_join (folder (Scenario.args 100)) files) "cards/old")
    as [E | _]; [| reflexivity].
  rewrite E in Hfile. discriminate Hfile.
Defined.

(** ** The reason of a rejection *)

Lemma in_rejected (lower : string -> string) (w : World) (args : arguments)
    (l : list string) (files reason : string) :
  In (files, reason)
     (flat_map (fun f => rejected_of f (entry_verdict lower w args f)) l)
  <-> In files l /\ entry_verdict lower w args files = Rejected reason.
Proof.
  rewrite in_flat_map. split.
  - intros (f & Hf & Hin).
    destruct (entry_verdict lower w args f) as [img | r] eqn:Hv;
      cbn [rejected_of] in Hin; [contradiction |].
    destruct Hin as [E | []]. injection E as -> ->. auto.
  - intros [Hin Hv]. exists files. split; [exact Hin |].
    rewrite Hv. now left.
Qed.

(** X5. The reason recorded for a rejected entry follows the order of the
    three tests of the loop: "is in excluded list" exactly for the
    entries whose lower-cased name starts with one of the prefixes,
    whether they are files or not; "is not a file" exactly for the
    others that are not regular files; "is not a valid image" exactly for
    the files that are not excluded and on which opening, verifying or
    resizing raised. *)
Theorem rejection_reason_of_an_entry (lower : string -> string) (w : World)
    (args : arguments) (files : string) :
  exists allfiles excluded_files,
    list_files_run lower w args = OK (allfiles, excluded_files) /\
    (In (files, "is in excluded list") excluded_files <->
     In files (listdir w (folder args)) /\
     any (fun i => startswith (lower files) i) (excluded args) = true) /\
    (In (files, "is not a file") excluded_files <->
     In files (listdir w (folder args)) /\
     any (fun i => startswith (lower files) i) (excluded args) = false /\
     isfile w (path_join (folder args) files) = false) /\
    (In (files, "is not a valid image") excluded_files <->
     In files (listdir w (folder args)) /\
     any (fun i => startswith (lower files) i) (excluded args) = false /\
     isfile w (path_join (folder args) files) = true /\
     exists e, load_image w args (path_join (folder args) files) = Raise e).
Proof.
  eexists _, _. split; [apply list_files_run_verdict |].
  rewrite !in_rejected.
  assert (Hin : In files (sorted (listdir w (folder args))) <->
                In files (listdir w (folder args))).
  { split; apply Permutation_in;
      [apply sorted_perm | apply Permutation_sym, sorted_perm]. }
  rewrite Hin. unfold entry_verdict.
  destruct (any _ (excluded args)); [| destruct (isfile w _); cbn [negb];
    [destruct (load_image w args _) as [img | e] |]].
  all: split; [| split].
  all: split;
    [ intros [Hl H]; try discriminate H; repeat split; auto;
      eexists; reflexivity
    | intros H; decompose record H; try discriminate; split; auto ].
Qed.

(* ===================================================================== *)
(** * A [dpi] too large for a float *)
(* ===================================================================== *)

Lemma binary_round_aux_infinity_sign (m e : Z) (l : location) :
  binary_round_aux prec emax false m e l = S754_infinity false ->
  binary_round_aux prec emax true m e l = S754_infinity true.
Proof.
  unfold binary_round_aux.
  destruct (shr_fexp prec emax m e l) as [mrs' e'].
  destruct (shr_fexp prec emax _ e' loc_Exact) as [mrs'' e''].
  destruct (shr_m mrs''); [discriminate | | discriminate].
  destruct (e'' <=? emax - prec); [discriminate | reflexivity].
Qed.

(** A positive int of 1025 bits or more converts to plus infinity. *)
Lemma binary_round_huge (p : positive) :
  2 ^ 1024 <= Zpos p ->
  binary_round prec emax false p 0 = S754_infinity false.
Proof.
  intros Hp.
  destruct (digits2_pos_bounds p) as [_ Hhi].
  assert (Hd : 1024 < Zpos (digits2_pos p)).
  { apply pow2_lt_inv; lia. }
  unfold binary_round, fexp, emin.
  unfold prec at 1 2, emax at 1.
  replace (Z.max (Zpos (digits2_pos p) + 0 - 53) (3 - 1024 - 53))
    with (Zpos (digits2_pos p) - 53) by lia.
  unfold shl_align.
  destruct (Zpos (digits2_pos p) - 53 - 0) as [| k | k] eqn:E; try lia.
  destruct (binary_round_aux_pos p 0 ltac:(lia) ltac:(lia)) as [_ ->].
  destruct (_ <? 2 ^ 53).
  - destruct (Z.leb_spec (0 + (Zpos (digits2_pos p) - 53)) 971);
      [lia | reflexivity].
  - destruct (Z.leb_spec (0 + (Zpos (digits2_pos p) - 53) + 1) 971);
      [lia | reflexivity].
Qed.

(** [float(n)] raises [OverflowError] from [2^1024] on, in both signs. *)
Lemma of_int_huge (n : Z) :
  2 ^ 1024 <= Z.abs n -> of_int n = Raise OverflowError.
Proof.
  intros Hn. unfold of_int.
  destruct n as [| p | p]; cbn [binary_normalize].
  - exfalso. revert Hn. apply Z.lt_nge. apply Z.pow_pos_nonneg; lia.
  - now rewrite binary_round_huge.
  - pose proof (binary_round_huge p Hn) as H.
    unfold binary_round in *.
    destruct (shl_align p 0 _) as [mz ez].
    now rewrite (binary_round_aux_infinity_sign _ _ _ H).
Qed.

Lemma cell_size_huge (d : Z) :
  2 ^ 1024 <= Z.abs d -> cell_size d = Raise OverflowError.
Proof. intros H. unfold cell_size, mul_int. now rewrite of_int_huge. Qed.

Lemma page_size_huge (d : Z) :
  2 ^ 1024 <= Z.abs d -> page_size d = Raise OverflowError.
Proof. intros H. unfold page_size, mul_int. now rewrite of_int_huge. Qed.

Lemma xcords_huge (d : Z) :
  2 ^ 1024 <= Z.abs d -> xcords d = Raise OverflowError.
Proof. intros H. unfold xcords, mul_int. now rewrite of_int_huge. Qed.

Lemma load_image_huge (w : World) (args : arguments) (fn : string) :
  2 ^ 1024 <= Z.abs (dpi args) -> exists e, load_image w args fn = Raise e.
Proof.
  intros Hd. unfold load_image.
  destruct (Image_open w fn) as [img | e]; [| eexists; reflexivity].
  cbn [bind].
  destruct (Image_verify w img) as [[] | e]; [| eexists; reflexivity].
  cbn [bind]. rewrite cell_size_huge by exact Hd.
  destruct (Image_open w fn); eexists; reflexivity.
Qed.

Lemma generate_images_huge (w : World) (fileslist : list Image)
    (args : arguments) :
  2 ^ 1024 <= Z.abs (dpi args) ->
  generate_images w fileslist args = Raise OverflowError.
Proof.
  intros Hd. unfold generate_images.
  destruct fileslist as [| img l].
  - cbn [List.length Z.of_nat]. change (- (- 0 / 9)) with 0.
    cbn [new_backgrounds range Z.to_nat seq map for_each bind].
    now rewrite xcords_huge.
  - rewrite neg_floor_div_9.
    pose proof (pages_needed_is_ceiling (List.length (img :: l))) as [_ Hc].
    destruct (pages_needed (List.length (img :: l))) as [| k];
      [cbn [List.length] in Hc; lia |].
    rewrite (new_backgrounds_Raise w args OverflowError); [reflexivity |].
    unfold new_background. now rewrite page_size_huge.
Qed.


(** X11. From [2^1024] on, in either sign, the int [dpi] has no float:
    [2.5 * dpi] raises [OverflowError] inside the [try] of [list_files],
    which records every file as "is not a valid image" and returns no
    image; [generate_images] raises [OverflowError] for any list, empty or
    not; and the run ends with [OverflowError], not with the [IndexError]
    of an empty result. *)
Theorem huge_dpi_overflows (lower : string -> string) (w : World)
    (args : arguments) :
  2 ^ 1024 <= Z.abs (dpi args) ->
  (exists excluded_files,
      list_files_run lower w args = OK ([], excluded_files) /\
      list_files lower w args = OK [] /\
      forall files,
        In files (listdir w (folder args)) ->
        any (fun i => startswith (lower files) i) (excluded args) = false ->
        isfile w (path_join (folder args) files) = true ->
        In (files, "is not a valid image") excluded_files) /\
  (forall fileslist, generate_images w fileslist args = Raise OverflowError) /\
  (forall ns, parse_arguments w ns = OK args ->
              main lower w ns = Raise OverflowError).
Proof.
  intros Hd.
  assert (Hrej : forall files,
             is_accepted (entry_verdict lower w args files) = false).
  { intros files. unfold entry_verdict.
    destruct (any _ (excluded args)); [reflexivity |].
    destruct (negb _); [reflexivity |].
    destruct (load_image_huge w args (path_join (folder args) files) Hd)
      as [e ->].
    reflexivity. }
  assert (Hnone : forall l,
             flat_map (fun f => accepted_of (entry_verdict lower w args f)) l = []).
  { induction l as [| f l IH]; [reflexivity |]. cbn [flat_map].
    rewrite IH, app_nil_r. specialize (Hrej f).
    destruct (entry_verdict lower w args f); [discriminate | reflexivity]. }
  assert (Hlist : list_files lower w args = OK []).
  { unfold list_files. rewrite list_files_run_verdict, Hnone. reflexivity. }
  split; [| split].
  - eexists. split; [| split].
    + rewrite list_files_run_verdict, Hnone. reflexivity.
    + exact Hlist.
    + intros files Hin Hex Hfile.
      apply rejected_in_flat_map.
      * apply (Permutation_in _ (Permutation_sym (sorted_perm _))). exact Hin.
      * unfold entry_verdict. rewrite Hex, Hfile. cbn [negb].
        destruct (load_image_huge w args (path_join (folder args) files) Hd)
          as [e ->].
        reflexivity.
  - intros fileslist. now apply generate_images_huge.
  - intros ns Hparse. unfold main. rewrite Hparse. cbn [bind].
    rewrite Hlist. cbn [bind]. now rewrite generate_images_huge.
Qed.

Lemma huge_dpi_overflows_witness :
  (exists excluded_files,
      list_files_run Scenario.lower Scenario.world (Scenario.args (- 2 ^ 1024))
        = OK ([], excluded_files) /\
      list_files Scenario.lower Scenario.world (Scenario.args (- 2 ^ 1024))
        = OK [] /\
      forall files,
        In files (listdir Scenario.world
                    (folder (Scenario.args (- 2 ^ 1024)))) ->
        any (fun i => startswith (Scenario.lower files) i)
          (excluded (Scenario.args (- 2 ^ 1024))) = false ->
        isfile Scenario.world
          (path_join (folder (Scenario.args (- 2 ^ 1024))) files) = true ->
        In (files, "is not a valid image") excluded_files) /\
  (forall fileslist,
      generate_images Scenario.world fileslist (Scenario.args (- 2 ^ 1024))
      = Raise OverflowError) /\
  (forall ns,
      parse_arguments Scenario.world ns = OK (Scenario.args (- 2 ^ 1024)) ->
      main Scenario.lower Scenario.world ns = Raise OverflowError).
Proof.
  apply (huge_dpi_overflows Scenario.lower Scenario.world
           (Scenario.args (- 2 ^ 1024))).
  vm_compute. discriminate.
Defined.

(* ===================================================================== *)
(** * [generate_images]: what the pages hold *)
(* ===================================================================== *)

Lemma map_fst_combine {A B : Type} (l : list A) (l' : list B) :
  map fst (combine l l') = firstn (List.length l') l.
Proof.
  revert l'. induction l as [| a l IH]; intros [| b l'];
    cbn [combine map firstn List.length]; try reflexivity.
  now rewrite IH.
Qed.

Lemma length_cells (xs ys : list Z) : List.length (cells xs ys) = 9%nat.
Proof. unfold cells. now rewrite length_map, length_seq. Qed.

(** The images of page p: nine from index [9 * p] on, or what is left. *)
Lemma page_content_images (fileslist : list Image) (xs ys : list Z) (p : nat) :
  map fst (page_content fileslist xs ys p) = firstn 9 (skipn (9 * p) fileslist).
Proof. unfold page_content. now rewrite map_fst_combine, length_cells. Qed.

Lemma chunks_concat {A : Type} (k : nat) (l : list A) :
  (List.length l <= 9 * k)%nat ->
  flat_map (fun p => firstn 9 (skipn (9 * p) l)) (seq 0 k) = l.
Proof.
  revert l. induction k as [| k IH]; intros l Hl.
  - destruct l; [reflexivity | cbn [List.length] in Hl; lia].
  - cbn [seq flat_map]. rewrite <- seq_shift, flat_map_concat_map, map_map.
    rewrite <- flat_map_concat_map.
    rewrite (flat_map_ext _ (fun p => firstn 9 (skipn (9 * p) (skipn 9 l)))).
    + rewrite IH by (rewrite length_skipn; lia).
      change (9 * 0)%nat with 0%nat. cbn [skipn]. apply firstn_skipn.
    + intros p. rewrite skipn_skipn. f_equal. f_equal. lia.
Qed.

(** X12. Every image is pasted exactly once, and in the order of the list:
    reading the pastes page after page, oldest first, gives back the list
    that [generate_images] was called on. *)
Theorem every_image_is_pasted_once (w : World) (fileslist : list Image)
    (args : arguments) (pages : list Canvas) :
  generate_images w fileslist args = OK pages ->
  flat_map (fun page => map fst (cv_pasted page)) pages = fileslist.
Proof.
  intros H. apply generate_images_inv in H.
  destruct H as (sz & xs & ys & _ & _ & _ & _ & ->).
  rewrite flat_map_concat_map, map_map, <- flat_map_concat_map.
  cbn [cv_pasted page_with].
  rewrite (flat_map_ext _ (fun p => firstn 9 (skipn (9 * p) fileslist)))
    by (intros p; apply page_content_images).
  apply chunks_concat. apply pages_needed_is_ceiling.
Qed.

Lemma every_image_is_pasted_once_witness :
  flat_map (fun page => map fst (cv_pasted page)) [scenario_page]
  = [Scenario.a_png; Scenario.c_jpg].
Proof.
  apply (every_image_is_pasted_once Scenario.world
           [Scenario.a_png; Scenario.c_jpg] (Scenario.args 100)).
  vm_compute. reflexivity.
Defined.

Lemma length_page_content_exact (fileslist : list Image) (xs ys : list Z)
    (p : nat) :
  List.length (page_content fileslist xs ys p) =
  Nat.min (List.length fileslist - 9 * p) 9.
Proof.
  unfold page_content. now rewrite length_combine, length_skipn, length_cells.
Qed.

(** X13. No page is empty and none holds more than nine images: every page
    but the last holds exactly nine, and the last holds the rest, between
    one and nine. *)
Theorem pages_are_full_but_the_last (w : World) (fileslist : list Image)
    (args : arguments) (pages : list Canvas) (p : nat) (page : Canvas) :
  generate_images w fileslist args = OK pages ->
  nth_error pages p = Some page ->
  (1 <= List.length (cv_pasted page) <= 9)%nat /\
  ((S p < List.length pages)%nat -> List.length (cv_pasted page) = 9%nat) /\
  (S p = List.length pages ->
   List.length (cv_pasted page) = (List.length fileslist - 9 * p)%nat).
Proof.
  intros H Hp. apply generate_images_inv in H.
  destruct H as (sz & xs & ys & _ & _ & _ & _ & ->).
  rewrite length_map, length_seq.
  rewrite nth_error_map, nth_error_seq in Hp.
  destruct (Nat.ltb_spec p (pages_needed (List.length fileslist))) as [Hlt |];
    [| discriminate Hp].
  cbn [option_map Nat.add] in Hp. injection Hp as <-.
  cbn [cv_pasted page_with]. rewrite length_page_content_exact.
  pose proof (pages_needed_is_ceiling (List.length fileslist)) as [H1 H2].
  lia.
Qed.

Lemma pages_are_full_but_the_last_witness :
  (1 <= List.length (cv_pasted scenario_page) <= 9)%nat /\
  ((1 < List.length [scenario_page])%nat ->
   List.length (cv_pasted scenario_page) = 9%nat) /\
  (1%nat = List.length [scenario_page] ->
   List.length (cv_pasted scenario_page) =
   (List.length [Scenario.a_png; Scenario.c_jpg] - 9 * 0)%nat).
Proof.
  apply (pages_are_full_but_the_last Scenario.world
           [Scenario.a_png; Scenario.c_jpg] (Scenario.args 100)
           [scenario_page] 0).
  - vm_compute. reflexivity.
  - reflexivity.
Defined.

(** ** A negative [dpi] *)

Lemma page_size_raises (d : Z) (e : exception) :
  page_size d = Raise e -> e = OverflowError \/ e = ValueError.
Proof.
  unfold page_size, mul_int, of_int.
  destruct (binary_normalize prec emax d 0 false) as [s | s | | s m x];
    cbn [bind].
  1, 4: destruct (mul f_8_5 _); cbn [to_int bind]; intros H;
        try discriminate H; injection H as <-; auto.
  all: intros H; injection H as <-; auto.
Qed.

(** X14. With a negative [dpi] and at least one image no page is made: the
    first [Image.new] is asked for a negative height [11 * dpi], which
    Pillow refuses with [ValueError], unless the width could not even be
    computed ([OverflowError]). *)
Theorem negative_dpi_makes_no_page (w : World) (fileslist : list Image)
    (args : arguments) :
  dpi args < 0 -> fileslist <> [] ->
  exists e, generate_images w fileslist args = Raise e /\
            (e = OverflowError \/ e = ValueError).
Proof.
  intros Hd Hne.
  assert (Hbg : exists e, new_background w args 0 = Raise e /\
                          (e = OverflowError \/ e = ValueError)).
  { unfold new_background.
    destruct (page_size (dpi args)) as [[pw ph] | e] eqn:Hp; cbn [bind].
    - unfold page_size in Hp. apply bind_OK in Hp.
      destruct Hp as (pw' & _ & Hp).
      assert (Eh : ph = 11 * dpi args) by congruence.
      unfold Image_new. cbn [fst snd].
      assert (E : (ph <? 0) = true) by (apply Z.ltb_lt; lia).
      rewrite E, orb_true_r. eauto.
    - exists e. split; [reflexivity | now apply page_size_raises with (dpi args)]. }
  destruct Hbg as (e & Hbg & He). exists e. split; [| exact He].
  unfold generate_images. rewrite neg_floor_div_9.
  pose proof (pages_needed_is_ceiling (List.length fileslist)) as [_ Hc].
  destruct (pages_needed (List.length fileslist)) as [| k].
  - destruct fileslist; [congruence | cbn [List.length] in Hc; lia].
  - now rewrite (new_backgrounds_Raise w args e k Hbg).
Qed.

Lemma negative_dpi_makes_no_page_witness :
  exists e,
    generate_images Scenario.world [Scenario.a_png] (Scenario.args (-300))
    = Raise e /\
            (e = OverflowError \/ e = ValueError).
Proof.
  apply (negative_dpi_makes_no_page Scenario.world [Scenario.a_png]
           (Scenario.args (-300))).
  - reflexivity.
  - discriminate.
Defined.

(* ===================================================================== *)
(** * The cells lie on the page *)
(* ===================================================================== *)

Section OnThePage.

Local Open Scope Q_scope.

(** From [dpi = 1000] on, the margins outweigh every rounding error. *)
Lemma fit_of_layout (n wd ht x0 r1 r2 x2 y0 y1 y2 pw : Z) :
  (1000 <= n)%Z ->
  layout_of n wd ht x0 r1 r2 x2 y0 y1 y2 ->
  within_times (17 # 2) n pw ->
  (0 <= x0 /\ x2 + wd <= pw /\ 0 <= y0 /\ y2 + ht <= 11 * n)%Z.
Proof.
  intros Hn [_ _ _ _ _ [W1 W2] [H1 H2] [X01 X02] [R11 R12] [R21 R22]
               [X21 X22] [Y01 Y02] [Y11 Y12] [Y21 Y22]] [P1 P2].
  assert (HN : 1000 <= inject_Z n).
  { change 1000 with (inject_Z 1000). now rewrite <- Zle_Qle. }
  unfold u53 in *.
  repeat split; apply Z.lt_succ_r; unfold Z.succ; rewrite Zlt_Qlt;
    rewrite ?inject_Z_plus, ?inject_Z_mult;
    change (inject_Z 1) with 1; change (inject_Z 0) with 0;
    change (inject_Z 11) with 11; lra.
Qed.

End OnThePage.

(** The first column and row start on the page and the last ones end on
    it: below [2^47] by the closed forms, from there on by the error
    bounds. *)
Lemma fit_holds (n wd ht pw ph x0 x1 x2 y0 y1 y2 : Z) :
  1 <= n ->
  cell_size n = OK (wd, ht) ->
  page_size n = OK (pw, ph) ->
  xcords n = OK [x0; x1; x2] ->
  ycords n = OK [y0; y1; y2] ->
  0 <= x0 /\ x2 + wd <= pw /\ 0 <= y0 /\ y2 + ht <= ph.
Proof.
  intros Hn Hcell Hpage Hxs Hys.
  destruct (Z.lt_ge_cases n (2 ^ 47)) as [Hsmall | Hlarge].
  - destruct (tables_in_closed_form n (conj Hn Hsmall))
      as (Hc & Hp & _ & _ & Hx & Hy).
    pose proof (round_half_even_div_bounds n 50 ltac:(lia) ltac:(lia)) as Hr2.
    set (r1 := round_half_even_div n 100) in *.
    set (r2 := round_half_even_div n 50) in *.
    rewrite Hcell in Hc. rewrite Hpage in Hp. rewrite Hxs in Hx.
    rewrite Hys in Hy.
    assert (Ec : wd = 5 * n / 2 /\ ht = 7 * n / 2) by (split; congruence).
    assert (Ep : pw = 17 * n / 2 /\ ph = 11 * n) by (split; congruence).
    assert (Ex : x0 = n / 2 /\ x1 = 3 * n + r1 /\ x2 = 11 * n / 2 + r2)
      by (repeat split; congruence).
    assert (Ey : y0 = n / 4 /\ y1 = 15 * n / 4 + r1 /\ y2 = 29 * n / 4 + r2)
      by (repeat split; congruence).
    clear Hc Hp Hx Hy Hcell Hpage Hxs Hys Hsmall.
    destruct Ec as [-> ->]. destruct Ep as [-> ->].
    destruct Ex as (-> & -> & ->). destruct Ey as (-> & -> & ->).
    Z.div_mod_to_equations. lia.
  - assert (Hlarge' : 1000 <= n).
    { apply Z.le_trans with (2 ^ 47); [vm_compute; discriminate | exact Hlarge]. }
    destruct (layout_analysis n Hn
                (or_intror (conj (ex_intro _ _ Hcell)
                              (conj (ex_intro _ _ Hxs) (ex_intro _ _ Hys)))))
      as (wd' & ht' & x0' & r1 & r2 & x2' & y0' & y1' & y2' & Hlay).
    destruct (page_size_analysis n Hn (or_intror (ex_intro _ _ Hpage)))
      as (pw' & Hp & Hpw).
    pose proof (fit_of_layout _ _ _ _ _ _ _ _ _ _ _ Hlarge' Hlay Hpw) as Hf.
    destruct Hlay as [Hc _ _ Hx Hy _ _ _ _ _ _ _ _ _].
    rewrite Hcell in Hc. rewrite Hpage in Hp. rewrite Hxs in Hx.
    rewrite Hys in Hy.
    assert (Ec : wd = wd' /\ ht = ht') by (split; congruence).
    assert (Ep : pw = pw' /\ ph = 11 * n) by (split; congruence).
    assert (Ex : x0 = x0' /\ x1 = 3 * n + r1 /\ x2 = x2')
      by (repeat split; congruence).
    assert (Ey : y0 = y0' /\ y1 = y1' /\ y2 = y2')
      by (repeat split; congruence).
    lia.
Qed.

(** The nine cells, given the pitches and the margins. *)
Lemma cells_placed (wd ht pw ph x0 x1 x2 y0 y1 y2 : Z) :
  1 <= wd -> 1 <= ht ->
  x0 + wd <= x1 -> x1 + wd <= x2 -> y0 + ht <= y1 -> y1 + ht <= y2 ->
  0 <= x0 -> x2 + wd <= pw -> 0 <= y0 -> y2 + ht <= ph ->
  (forall j : nat, (j < 9)%nat ->
     rect_inside (cell_position [x0; x1; x2] [y0; y1; y2] j) wd ht (pw, ph)) /\
  (forall i j : nat, (i < 9)%nat -> (j < 9)%nat -> i <> j ->
     rect_disjoint (cell_position [x0; x1; x2] [y0; y1; y2] i)
       (cell_position [x0; x1; x2] [y0; y1; y2] j) wd ht).
Proof.
  intros Hwd Hht Hx01 Hx12 Hy01 Hy12 Hx0 Hx2 Hy0 Hy2. split.
  - intros j Hj. unfold rect_inside, cell_position. cbn [fst snd].
    pose proof (Nat.mod_upper_bound j 3 ltac:(lia)) as Hc.
    assert (Hr : (j / 3 < 3)%nat) by (apply Nat.Div0.div_lt_upper_bound; lia).
    clear Hj.
    generalize dependent (j mod 3)%nat. generalize dependent (j / 3)%nat.
    intros r Hr c Hc.
    destruct c as [| [| [| ?]]]; try lia;
      destruct r as [| [| [| ?]]]; try lia; cbn [nth]; lia.
  - intros i j Hi Hj Hij. unfold rect_disjoint, cell_position.
    pose proof (Nat.div_mod_eq i 3) as Ei.
    pose proof (Nat.div_mod_eq j 3) as Ej.
    pose proof (Nat.mod_upper_bound i 3 ltac:(lia)) as Hci.
    pose proof (Nat.mod_upper_bound j 3 ltac:(lia)) as Hcj.
    assert (Hri : (i / 3 < 3)%nat) by (apply Nat.Div0.div_lt_upper_bound; lia).
    assert (Hrj : (j / 3 < 3)%nat) by (apply Nat.Div0.div_lt_upper_bound; lia).
    assert (Hne : (i mod 3 <> j mod 3 \/ i / 3 <> j / 3)%nat) by lia.
    clear Ei Ej Hi Hj Hij.
    generalize dependent (i mod 3)%nat. generalize dependent (i / 3)%nat.
    generalize dependent (j mod 3)%nat. generalize dependent (j / 3)%nat.
    clear i j. intros rj Hrj cj Hcj ri Hri ci Hci Hne.
    destruct ci as [| [| [| ?]]]; try lia;
      destruct ri as [| [| [| ?]]]; try lia;
      destruct cj as [| [| [| ?]]]; try lia;
      destruct rj as [| [| [| ?]]]; try lia;
      cbn [nth fst snd]; lia.
Qed.

(** The layout of a [dpi] of at least 1, when it is computed: the nine
    cells lie on the page and are pairwise disjoint. *)
Lemma layout_is_sound (d wd ht pw ph : Z) (xs ys : list Z) :
  1 <= d ->
  cell_size d = OK (wd, ht) ->
  page_size d = OK (pw, ph) ->
  xcords d = OK xs ->
  ycords d = OK ys ->
  1 <= wd /\ 1 <= ht /\
  (forall j : nat, (j < 9)%nat ->
     rect_inside (cell_position xs ys j) wd ht (pw, ph)) /\
  (forall i j : nat, (i < 9)%nat -> (j < 9)%nat -> i <> j ->
     rect_disjoint (cell_position xs ys i) (cell_position xs ys j) wd ht).
Proof.
  intros Hd Hcell Hpage Hxs Hys.
  destruct (xcords_shape _ _ Hxs) as (x0 & x1 & x2 & ->).
  destruct (ycords_shape _ _ Hys) as (y0 & y1 & y2 & ->).
  destruct (pitch_holds _ _ _ _ _ _ _ _ _ Hd Hcell Hxs Hys)
    as (Hwd & Hht & Hx01 & Hx12 & Hy01 & Hy12).
  destruct (fit_holds _ _ _ _ _ _ _ _ _ _ _ Hd Hcell Hpage Hxs Hys)
    as (Hx0 & Hx2 & Hy0 & Hy2).
  split; [exact Hwd |]. split; [exact Hht |].
  apply cells_placed; assumption.
Qed.

(** X15. For every [dpi] of at least 1 for which the sizes and the tables are
    computed, each of the nine image rectangles of a page lies entirely
    on the page: no coordinate is negative, the third column ends at or
    before the right edge and the third row at or before the bottom
    edge. *)
Theorem cells_lie_on_the_page (d wd ht pw ph : Z) (xs ys : list Z) (j : nat) :
  1 <= d ->
  cell_size d = OK (wd, ht) ->
  page_size d = OK (pw, ph) ->
  xcords d = OK xs ->
  ycords d = OK ys ->
  (j < 9)%nat ->
  rect_inside (cell_position xs ys j) wd ht (pw, ph).
Proof.
  intros Hd Hcell Hpage Hxs Hys Hj.
  destruct (layout_is_sound d wd ht pw ph xs ys Hd Hcell Hpage Hxs Hys)
    as (_ & _ & Hin & _).
  now apply Hin.
Qed.

Lemma cells_lie_on_the_page_witness :
  rect_inside (cell_position [0; 3; 5] [0; 3; 7] 8) 2 3 (8, 11).
Proof.
  apply (cells_lie_on_the_page 1 2 3 8 11 [0; 3; 5] [0; 3; 7] 8).
  - lia.
  - vm_compute. reflexivity.
  - vm_compute. reflexivity.
  - vm_compute. reflexivity.
  - vm_compute. reflexivity.
  - lia.
Defined.

(** ** Multiples of 100 *)

Lemma round_half_even_div_multiple (k c : Z) :
  0 < c -> round_half_even_div (c * k) c = k.
Proof.
  intros Hc. unfold round_half_even_div.
  rewrite (Z.mul_comm c k), Z_mod_mult, Z_div_mult by lia.
  replace (2 * 0 ?= c) with Lt by (symmetry; apply Z.compare_lt_iff; lia).
  reflexivity.
Qed.

(** X16. At a [dpi] that is a multiple of 100 (as the default 1000 is), below
    [2^47], the whole layout is the layout of 100 dpi scaled: for
    [dpi = 100 * k] the cards are [250k x 350k], the page [850k x 1100k],
    the columns at [50k], [301k] and [552k] and the rows at [25k], [376k]
    and [727k]; the gap between neighbouring cards is k pixels both ways,
    the margins are [50k] left, [48k] right, [25k] top and [23k] bottom. *)
Theorem layout_scales_by_hundreds (k : Z) :
  1 <= k -> 100 * k < 2 ^ 47 ->
  cell_size (100 * k) = OK (250 * k, 350 * k) /\
  page_size (100 * k) = OK (850 * k, 1100 * k) /\
  xcords (100 * k) = OK [50 * k; 301 * k; 552 * k] /\
  ycords (100 * k) = OK [25 * k; 376 * k; 727 * k].
Proof.
  intros Hk Hlt.
  destruct (tables_in_closed_form (100 * k) ltac:(lia))
    as (Hc & Hp & _ & _ & Hx & Hy).
  assert (R1 : round_half_even_div (100 * k) 100 = k)
    by (apply round_half_even_div_multiple; lia).
  assert (R2 : round_half_even_div (100 * k) 50 = 2 * k).
  { replace (100 * k) with (50 * (2 * k)) by lia.
    apply round_half_even_div_multiple. lia. }
  rewrite R1, R2 in Hx, Hy.
  assert (E1 : 5 * (100 * k) / 2 = 250 * k) by (Z.div_mod_to_equations; lia).
  assert (E2 : 7 * (100 * k) / 2 = 350 * k) by (Z.div_mod_to_equations; lia).
  assert (E3 : 17 * (100 * k) / 2 = 850 * k) by (Z.div_mod_to_equations; lia).
  assert (E4 : 11 * (100 * k) = 1100 * k) by lia.
  assert (E5 : 100 * k / 2 = 50 * k) by (Z.div_mod_to_equations; lia).
  assert (E6 : 3 * (100 * k) + k = 301 * k) by lia.
  assert (E7 : 11 * (100 * k) / 2 + 2 * k = 552 * k)
    by (Z.div_mod_to_equations; lia).
  assert (E8 : 100 * k / 4 = 25 * k) by (Z.div_mod_to_equations; lia).
  assert (E9 : 15 * (100 * k) / 4 + k = 376 * k)
    by (Z.div_mod_to_equations; lia).
  assert (E10 : 29 * (100 * k) / 4 + 2 * k = 727 * k)
    by (Z.div_mod_to_equations; lia).
  rewrite E1, E2 in Hc. rewrite E3, E4 in Hp. rewrite E5, E6, E7 in Hx.
  rewrite E8, E9, E10 in Hy. auto.
Qed.

Lemma layout_scales_by_hundreds_witness :
  cell_size (100 * 10) = OK (250 * 10, 350 * 10) /\
  page_size (100 * 10) = OK (850 * 10, 1100 * 10) /\
  xcords (100 * 10) = OK [50 * 10; 301 * 10; 552 * 10] /\
  ycords (100 * 10) = OK [25 * 10; 376 * 10; 727 * 10].
Proof.
  apply (layout_scales_by_hundreds 10).
  - lia.
  - vm_compute. reflexivity.
Defined.

(** ** Where the gap vanishes *)

Lemma round_half_even_div_zero (n c : Z) :
  0 <= n -> 0 < c -> (round_half_even_div n (2 * c) = 0 <-> n <= c).
Proof.
  intros Hn Hc. split.
  - unfold round_half_even_div.
    destruct (Z.compare_spec (2 * (n mod (2 * c))) (2 * c));
      [destruct (Z.even (n / (2 * c))) | |];
      Z.div_mod_to_equations; nia.
  - intros Hle. unfold round_half_even_div.
    rewrite Z.div_small, Z.mod_small by lia.
    destruct (Z.compare_spec (2 * n) (2 * c)); [reflexivity | reflexivity | lia].
Qed.

(** X17. The gap between neighbouring cards, [round(.01 * dpi)], is zero
    exactly up to [dpi = 50], the tie [round(0.5)] going to the even 0;
    the gap to the third column and row, [round(.02 * dpi)], is zero
    exactly up to [dpi = 25]. Up to 50 dpi the second column starts at
    [3 * dpi] sharp. *)
Theorem gap_is_zero_up_to_50 (n : Z) :
  1 <= n < 2 ^ 47 ->
  (gap1 n = OK 0 <-> n <= 50) /\
  (gap2 n = OK 0 <-> n <= 25) /\
  (n <= 50 -> exists x0 x2, xcords n = OK [x0; 3 * n; x2]).
Proof.
  intros Hn.
  destruct (tables_in_closed_form n Hn) as (_ & _ & Hg1 & Hg2 & Hx & _).
  pose proof (round_half_even_div_zero n 50 ltac:(lia) ltac:(lia)) as Z1.
  pose proof (round_half_even_div_zero n 25 ltac:(lia) ltac:(lia)) as Z2.
  change (2 * 50) with 100 in Z1. change (2 * 25) with 50 in Z2.
  rewrite Hg1, Hg2. split; [| split].
  - rewrite <- Z1. split; [intros H; now injection H | intros ->; reflexivity].
  - rewrite <- Z2. split; [intros H; now injection H | intros ->; reflexivity].
  - intros Hle. apply Z1 in Hle. rewrite Hx, Hle, Z.add_0_r. eauto.
Qed.

Lemma gap_is_zero_up_to_50_witness :
  (gap1 50 = OK 0 <-> 50 <= 50) /\
  (gap2 50 = OK 0 <-> 50 <= 25) /\
  (50 <= 50 -> exists x0 x2, xcords 50 = OK [x0; 3 * 50; x2]).
Proof.
  apply (gap_is_zero_up_to_50 50).
  split; [lia | vm_compute; reflexivity].
Defined.

(* ===================================================================== *)
(** * The [__main__] block, end to end *)
(* ===================================================================== *)

(** Every image that [list_files] returns has the size of a cell. *)
Lemma accepted_image_size (lower : string -> string) (w : World)
    (args : arguments) (allfiles : list Image) (img : Image) :
  resize_gives_size w ->
  list_files lower w args = OK allfiles ->
  In img allfiles ->
  exists wd ht, cell_size (dpi args) = OK (wd, ht) /\ im_size img = (wd, ht).
Proof.
  intros Hsize Hrun Hin.
  unfold list_files in Hrun. rewrite list_files_run_verdict in Hrun.
  cbn [bind fst] in Hrun. injection Hrun as <-.
  apply in_flat_map in Hin. destruct Hin as (name & _ & Hacc).
  destruct (entry_verdict lower w args name) as [img' | reason] eqn:Hv;
    cbn [accepted_of] in Hacc; [| contradiction].
  destruct Hacc as [-> | []].
  unfold entry_verdict in Hv.
  destruct (any _ (excluded args)); [discriminate Hv |].
  destruct (negb _); [discriminate Hv |].
  destruct (load_image w args _) as [img' | e] eqn:Hload; [| discriminate Hv].
  injection Hv as ->.
  unfold load_image in Hload.
  apply bind_OK in Hload. destruct Hload as (img0 & _ & Hload).
  apply bind_OK in Hload. destruct Hload as (_u & _ & Hload).
  apply bind_OK in Hload. destruct Hload as (src & _ & Hload).
  apply bind_OK in Hload. destruct Hload as ([wd ht] & Hcell & Hres).
  exists wd, ht. split; [exact Hcell | exact (Hsize _ _ _ Hres)].
Qed.

Lemma getitem_first {A : Type} (a : A) (l : list A) : getitem (a :: l) 0 = OK a.
Proof. exact (getitem_nat (a :: l) 0 a eq_refl). Qed.

(** The saving step: it needs a first page, and hands over all the pages
    in their order. *)
Lemma save_document_inv (w : World) (pages : list Canvas) (args : arguments)
    (doc : Document) :
  save_document w pages args = OK doc ->
  pages <> [] /\
  doc = {| doc_path := output args; doc_resolution := dpi args;
           doc_pages := pages |} /\
  Image_save w doc = OK tt.
Proof.
  destruct pages as [| first rest].
  - unfold save_document. rewrite getitem_nil. discriminate.
  - unfold save_document.
    rewrite getitem_first. cbn [bind tl].
    destruct (Image_save w _) as [[] |] eqn:Hs; cbn [bind]; [| discriminate].
    intros H. injection H as <-. split; [discriminate |]. auto.
Qed.

(** The stages of a run that ended with a document. *)
Lemma main_inv (lower : string -> string) (w : World) (ns : Namespace)
    (doc : Document) :
  main lower w ns = OK doc ->
  exists args files pages,
    parse_arguments w ns = OK args /\
    list_files lower w args = OK files /\
    generate_images w files args = OK pages /\
    save_document w pages args = OK doc.
Proof.
  unfold main. intros H.
  apply bind_OK in H. destruct H as (args & Hparse & H).
  apply bind_OK in H. destruct H as (files & Hlist & H).
  apply bind_OK in H. destruct H as (pages & Hgen & H).
  exists args, files, pages. auto.
Qed.

(** X18. A run that ends normally has written one document: at a path that
    ends in [.pdf] and at which no file existed when the arguments were
    checked, with the [--dpi] as its resolution, made of the pages of
    [generate_images] in their order, [ceil(n / 9)] of them for the n
    images, at least one, that [list_files] accepted. *)
Theorem run_writes_one_document (lower : string -> string) (w : World)
    (ns : Namespace) (doc : Document) :
  main lower w ns = OK doc ->
  exists args files,
    parse_arguments w ns = OK args /\
    list_files lower w args = OK files /\
    files <> [] /\
    generate_images w files args = OK (doc_pages doc) /\
    List.length (doc_pages doc) = pages_needed (List.length files) /\
    doc_path doc = output_file (ns_output ns) /\
    endswith (doc_path doc) ".pdf" = true /\
    isfile w (doc_path doc) = false /\
    doc_resolution doc = ns_dpi ns /\
    Image_save w doc = OK tt.
Proof.
  intros H. apply main_inv in H.
  destruct H as (args & files & pages & Hparse & Hlist & Hgen & Hsave).
  apply save_document_inv in Hsave. destruct Hsave as (Hne & -> & Hsave).
  cbn [doc_pages doc_path doc_resolution].
  pose proof (parse_arguments_inv _ _ _ Hparse) as (Hfree & _ & Hargs).
  exists args, files.
  split; [exact Hparse |]. split; [exact Hlist |].
  split.
  { intros ->. apply generate_images_nil in Hgen. contradiction. }
  split; [exact Hgen |].
  split.
  { destruct (generate_images_inv _ _ _ _ Hgen)
      as (sz & xs & ys & _ & _ & _ & _ & ->).
    now rewrite length_map, length_seq. }
  rewrite Hargs. cbn [output dpi].
  split; [reflexivity |].
  split; [apply output_file_ends_with_pdf |].
  split; [exact Hfree |]. split; [reflexivity |].
  rewrite Hargs in Hsave. exact Hsave.
Qed.

Lemma run_writes_one_document_witness :
  exists args files,
    parse_arguments Scenario.world (scenario_namespace 100) = OK args /\
    list_files Scenario.lower Scenario.world args = OK files /\
    files <> [] /\
    generate_images Scenario.world files args
      = OK (doc_pages scenario_document) /\
    List.length (doc_pages scenario_document) =
      pages_needed (List.length files) /\
    doc_path scenario_document =
      output_file (ns_output (scenario_namespace 100)) /\
    endswith (doc_path scenario_document) ".pdf" = true /\
    isfile Scenario.world (doc_path scenario_document) = false /\
    doc_resolution scenario_document = ns_dpi (scenario_namespace 100) /\
    Image_save Scenario.world scenario_document = OK tt.
Proof.
  apply (run_writes_one_document Scenario.lower Scenario.world
           (scenario_namespace 100) scenario_document).
  vm_compute. reflexivity.
Defined.

(** X19. On every page of a document written with a [dpi] of at least 1,
    Pillow's [resize] returning the size it is asked for: every pasted
    image has the size of a cell, [(int(2.5 * dpi), int(3.5 * dpi))], its
    rectangle lies entirely on the page, and no two images pasted on the
    same page overlap. *)
Theorem document_pages_are_well_laid_out (lower : string -> string)
    (w : World) (ns : Namespace) (doc : Document) :
  resize_gives_size w ->
  1 <= ns_dpi ns ->
  main lower w ns = OK doc ->
  exists wd ht pw,
    cell_size (ns_dpi ns) = OK (wd, ht) /\ 1 <= wd /\ 1 <= ht /\
    Forall (fun page =>
      cv_size page = (pw, 11 * ns_dpi ns) /\
      (forall j img xy,
          nth_error (cv_pasted page) j = Some (img, xy) ->
          im_size img = (wd, ht) /\ rect_inside xy wd ht (cv_size page)) /\
      (forall j k img img' xy xy',
          j <> k ->
          nth_error (cv_pasted page) j = Some (img, xy) ->
          nth_error (cv_pasted page) k = Some (img', xy') ->
          rect_disjoint xy xy' wd ht))
      (doc_pages doc).
Proof.
  intros Hsize Hd H. apply main_inv in H.
  destruct H as (args & files & pages & Hparse & Hlist & Hgen & Hsave).
  apply save_document_inv in Hsave. destruct Hsave as (Hne & -> & _).
  cbn [doc_pages].
  pose proof (parse_arguments_inv _ _ _ Hparse) as (_ & _ & Hargs).
  assert (Hdpi : dpi args = ns_dpi ns) by (rewrite Hargs; reflexivity).
  rewrite <- Hdpi in *. clear Hargs Hdpi Hparse.
  destruct files as [| img0 files'].
  { apply generate_images_nil in Hgen. contradiction. }
  destruct (accepted_image_size lower w args _ img0 Hsize Hlist
              (or_introl eq_refl)) as (wd & ht & Hcell & _).
  destruct (generate_images_inv _ _ _ _ Hgen)
    as (sz & xs & ys & Hpage & Hxs & Hys & _ & ->).
  destruct (Hpage ltac:(discriminate)) as (Hsz & _ & _).
  assert (Esz : exists pw, sz = (pw, 11 * dpi args)).
  { unfold page_size in Hsz. apply bind_OK in Hsz.
    destruct Hsz as (pw & _ & Hsz). exists pw. congruence. }
  destruct Esz as [pw ->].
  destruct (layout_is_sound _ _ _ _ _ _ _ Hd Hcell Hsz Hxs Hys)
    as (Hwd & Hht & Hin & Hdis).
  exists wd, ht, pw.
  split; [exact Hcell |]. split; [exact Hwd |]. split; [exact Hht |].
  apply Forall_forall. intros page Hpg.
  apply in_map_iff in Hpg. destruct Hpg as (p & <- & _).
  cbn [cv_size cv_pasted page_with].
  split; [reflexivity |]. split.
  - intros j img xy Hj.
    destruct (pastes_come_from_the_list _ _ _ _ _ _ _ Hj) as (Hj9 & Himg & ->).
    split; [| now apply Hin].
    apply nth_error_In in Himg.
    destruct (accepted_image_size lower w args _ img Hsize Hlist Himg)
      as (wd' & ht' & Hcell' & Hsz').
    congruence.
  - intros j k img img' xy xy' Hjk Hj Hk.
    destruct (pastes_come_from_the_list _ _ _ _ _ _ _ Hj) as (Hj9 & _ & ->).
    destruct (pastes_come_from_the_list _ _ _ _ _ _ _ Hk) as (Hk9 & _ & ->).
    now apply Hdis.
Qed.

Lemma document_pages_are_well_laid_out_witness :
  exists wd ht pw,
    cell_size (ns_dpi (scenario_namespace 100)) = OK (wd, ht) /\
    1 <= wd /\ 1 <= ht /\
    Forall (fun page =>
      cv_size page = (pw, 11 * ns_dpi (scenario_namespace 100)) /\
      (forall j img xy,
          nth_error (cv_pasted page) j = Some (img, xy) ->
          im_size img = (wd, ht) /\ rect_inside xy wd ht (cv_size page)) /\
      (forall j k img img' xy xy',
          j <> k ->
          nth_error (cv_pasted page) j = Some (img, xy) ->
          nth_error (cv_pasted page) k = Some (img', xy') ->
          rect_disjoint xy xy' wd ht))
      (doc_pages scenario_document).
Proof.
  apply (document_pages_are_well_laid_out Scenario.lower Scenario.world
           (scenario_namespace 100) scenario_document).
  - exact scenario_resize_gives_size.
  - cbn [ns_dpi scenario_namespace]. lia.
  - vm_compute. reflexivity.
Defined.
